(** * node-ws-gameserver: rooms, rate limiting, wire codec and session router

    A shallow embedding of the TypeScript sources of the server, in both of
    its behaviour profiles:

    - the server-authoritative profile ([Auth]): [room.ts] with a tick loop
      and per-player state, [protocol.ts] with [payload]-carrying envelopes,
      [index.ts] with an explicit [join] message;
    - the relay profile ([Relay]): [room.ts] with [relay], [protocol.ts]
      with flat envelopes and [PROTOCOL_VERSION], [index.ts] with auto-join
      on connect;
    - [rate-limit.ts], shared by both ([RateLimit]).

    - [health.ts] ([Health]) and the upgrade handler of [index.ts]
      ([Upgrade]), the same for both.

    - the keep-alive flag and timer of a connection ([KeepAlive]).

    Left out: the HTTP server around [handleHealthRequest], the parsing of
    the request URL and of the environment, and the generation of client
    ids.

    Conventions.  [Date.now()] is an explicit argument [now : Z] of every
    operation that reads the clock.  A WebSocket is a handle; whether its
    [readyState] is [OPEN] is read from an environment [net] passed to the
    operation.  Calls on a socket ([send], [close]) are recorded in a trace
    of [Event]s.  A JavaScript [Map] whose iteration order is observable is
    an association list in insertion order; a [Map] that is only looked up
    is a [gmap].  The msgpack package is a dependency of the server, not
    part of it: [MsgPack] is a model of its format; the function [decode]
    that [decodeMessage] calls is an argument of [decodeMessage_with] and
    of the message handlers, whose statements hold whatever it returns,
    and the concrete runs pass them the model's [MsgPack.decode]. *)

From Stdlib Require Import ZArith List String Ascii Lia Bool.
From Stdlib Require Import DecimalString.
From stdpp Require Import base option list gmap strings.
Import ListNotations.

Local Open Scope Z_scope.

(** ** Insertion-ordered maps

    A JavaScript [Map] keeps its keys in insertion order; setting an
    existing key keeps its place.  So do the properties of a plain object
    whose names are not array indices; [Js.assign] below is the assignment
    to a property of a plain object, whatever its name. *)
Module Assoc.
Section ops.
Context {V : Type}.

Fixpoint set (k : string) (v : V) (m : list (string * V))
  : list (string * V) :=
  match m with
  | [] => [(k, v)]
  | (k', v') :: r =>
      if String.eqb k' k then (k, v) :: r else (k', v') :: set k v r
  end.

Fixpoint get (k : string) (m : list (string * V)) : option V :=
  match m with
  | [] => None
  | (k', v') :: r => if String.eqb k' k then Some v' else get k r
  end.

Fixpoint delete (k : string) (m : list (string * V)) : list (string * V) :=
  match m with
  | [] => []
  | (k', v') :: r =>
      if String.eqb k' k then r else (k', v') :: delete k r
  end.

Definition has (k : string) (m : list (string * V)) : bool :=
  match get k m with Some _ => true | None => false end.

Definition keys (m : list (string * V)) : list string := map fst m.

(** [m.size] *)
Definition size (m : list (string * V)) : Z := Z.of_nat (length m).
End ops.
End Assoc.

(** ** JavaScript values *)

(** The values that travel through the codec.  A number that is a safe
    integer is [JNum]; every other number (fractions, magnitudes of 2^53 and
    more, infinities, NaN) is [JFloat] with its binary64 bit pattern, never
    computed with.  A string is identified with its UTF-8 bytes; where the
    engine counts UTF-16 units ([slice]) or the codec reads bytes that are
    not valid UTF-8, the bytes stand for the string only if it is ASCII
    ([Js.ascii]), and the statements that depend on it say so.  An object
    is its own enumerable properties in enumeration order.  [JBin] is a
    [Uint8Array], [JExt] what the codec returns for an extension value. *)
#[warnings="-register-all"]
Inductive jsval : Type :=
| JUndefined
| JNull
| JBool (b : bool)
| JNum (n : Z)
| JFloat (bits : Z)
| JStr (s : string)
| JBin (data : list Z)
| JArr (items : list jsval)
| JObj (fields : list (string * jsval))
| JExt (ty : Z) (data : list Z).

Section jsval_induction.
Variable P : jsval -> Prop.
Hypothesis Hundef : P JUndefined.
Hypothesis Hnull : P JNull.
Hypothesis Hbool : forall b, P (JBool b).
Hypothesis Hnum : forall n, P (JNum n).
Hypothesis Hfloat : forall b, P (JFloat b).
Hypothesis Hstr : forall s, P (JStr s).
Hypothesis Hbin : forall d, P (JBin d).
Hypothesis Harr : forall l, Forall P l -> P (JArr l).
Hypothesis Hobj : forall fs, Forall (fun kv => P (snd kv)) fs -> P (JObj fs).
Hypothesis Hext : forall t d, P (JExt t d).

Fixpoint jsval_nested_ind (v : jsval) : P v :=
  match v with
  | JUndefined => Hundef
  | JNull => Hnull
  | JBool b => Hbool b
  | JNum n => Hnum n
  | JFloat b => Hfloat b
  | JStr s => Hstr s
  | JBin d => Hbin d
  | JArr l =>
      Harr l ((fix go (l : list jsval) : Forall P l :=
                 match l with
                 | [] => @List.Forall_nil _ _
                 | x :: r => @List.Forall_cons _ _ x r (jsval_nested_ind x) (go r)
                 end) l)
  | JObj fs =>
      Hobj fs ((fix go (fs : list (string * jsval))
                  : Forall (fun kv => P (snd kv)) fs :=
                  match fs with
                  | [] => @List.Forall_nil _ _
                  | (k, x) :: r =>
                      @List.Forall_cons _ _ (k, x) r (jsval_nested_ind x) (go r)
                  end) fs)
  | JExt t d => Hext t d
  end.
End jsval_induction.

Module Js.

(** NaN is the one falsy [JFloat]: zero is a [JNum]. *)
Definition is_nan (bits : Z) : bool :=
  ((bits / 2 ^ 52) mod 2 ^ 11 =? 2047) && negb (bits mod 2 ^ 52 =? 0).

(** [!v] is false for exactly the truthy values. *)
Definition truthy (v : jsval) : bool :=
  match v with
  | JUndefined | JNull => false
  | JBool b => b
  | JNum n => negb (n =? 0)
  | JFloat b => negb (is_nan b)
  | JStr s => negb (String.eqb s EmptyString)
  | JBin _ | JArr _ | JObj _ | JExt _ _ => true
  end.

(** [typeof v === 'object'] *)
Definition typeof_object (v : jsval) : bool :=
  match v with
  | JNull | JBin _ | JArr _ | JObj _ | JExt _ _ => true
  | _ => false
  end.

(** [typeof v === 'number'] *)
Definition typeof_number (v : jsval) : bool :=
  match v with JNum _ | JFloat _ => true | _ => false end.

(** [typeof v === 'string'] *)
Definition typeof_string (v : jsval) : bool :=
  match v with JStr _ => true | _ => false end.

Definition isArray (v : jsval) : bool :=
  match v with JArr _ => true | _ => false end.

(** An extension value of a type the codec does not know is an [ExtData]
    instance, with the two properties [type] and [data]; type -1 is a
    timestamp, which is a [Date] and has neither. *)
Definition ext_fields (ty : Z) (data : list Z) : list (string * jsval) :=
  if ty =? -1 then [] else [("type"%string, JNum ty); ("data"%string, JBin data)].

(** ['k' in v], for a key that no prototype defines ([type], [payload],
    ...) and that is not an array index.  On a primitive [in] throws; the
    callers test [typeof] first. *)
Definition has_prop (k : string) (v : jsval) : bool :=
  match v with
  | JObj fs => match Assoc.get k fs with Some _ => true | None => false end
  | JExt ty d =>
      match Assoc.get k (ext_fields ty d) with Some _ => true | None => false end
  | _ => false
  end.

(** [v.k] for such a key: [None] is the TypeError on [undefined] and
    [null]. *)
Definition get (k : string) (v : jsval) : option jsval :=
  match v with
  | JUndefined | JNull => None
  | JObj fs => Some (default JUndefined (Assoc.get k fs))
  | JExt ty d => Some (default JUndefined (Assoc.get k (ext_fields ty d)))
  | _ => Some JUndefined
  end.

(** [v === s] for a string literal [s]. *)
Definition eq_str (v : jsval) (s : string) : bool :=
  match v with JStr s' => String.eqb s' s | _ => false end.

(** [v === n] for an integer literal [n]. *)
Definition eq_int (v : jsval) (n : Z) : bool :=
  match v with JNum n' => n' =? n | _ => false end.

(** The one-character string of a double quote. *)
Definition dquote : string := String (ascii_of_nat 34) EmptyString.

(** [a || b] *)
Definition or_else (a b : jsval) : jsval := if truthy a then a else b.

(** [String(n)] for an integer. *)
Definition string_of_Z (n : Z) : string := NilZero.string_of_int (Z.to_int n).

(** The property name of array index [i]. *)
Definition index_key (i : nat) : string := string_of_Z (Z.of_nat i).

(** Whether a string is ASCII: then a byte is a character and a UTF-16
    unit. *)
Definition ascii (s : string) : bool :=
  forallb (fun c => (nat_of_ascii c <? 128)%nat) (list_ascii_of_string s).

(** [v.slice(0, n)]: strings, arrays and typed arrays have the method;
    [None] is the TypeError on every other value.  The engine cuts a
    string after [n] UTF-16 units; this is the cut of an ASCII string. *)
Definition slice (n : nat) (v : jsval) : option jsval :=
  match v with
  | JStr s => Some (JStr (String.substring 0 n s))
  | JArr l => Some (JArr (firstn n l))
  | JBin d => Some (JBin (firstn n d))
  | _ => None
  end.

(** The own enumerable properties that [{...v}] copies. *)
Definition spread (v : jsval) : list (string * jsval) :=
  match v with
  | JObj fs => fs
  | JArr l => imap (fun i x => (index_key i, x)) l
  | JStr s =>
      imap (fun i c => (index_key i, JStr (String c EmptyString)))
        (list_ascii_of_string s)
  | JBin d => imap (fun i b => (index_key i, JNum b)) d
  | JExt ty d => ext_fields ty d
  | _ => []
  end.

(** Whether every string in a value, property names included, is ASCII. *)
Fixpoint ascii_text (v : jsval) : bool :=
  match v with
  | JStr s => ascii s
  | JArr l => forallb ascii_text l
  | JObj fs =>
      forallb (fun kv => match kv with
                         | (k, x) => ascii k && ascii_text x
                         end) fs
  | _ => true
  end.

(** *** Properties of a plain object *)

(** The array index that a property name denotes: the name is the decimal
    numeral, with no sign and no leading zero, of an integer below
    2^32 - 1. *)
Definition array_index (k : string) : option Z :=
  match NilZero.uint_of_string k with
  | Some u =>
      let n := Z.of_uint u in
      if String.eqb (string_of_Z n) k && (n <? 2 ^ 32 - 1) then Some n
      else None
  | None => None
  end.

(** The engine lists the properties of an object with the array indices
    first, in ascending order, and the other names after them in the order
    of their creation.  This puts an index where it belongs. *)
Fixpoint assign_index (i : Z) (k : string) (v : jsval)
    (o : list (string * jsval)) : list (string * jsval) :=
  match o with
  | [] => [(k, v)]
  | (k', v') :: r =>
      match array_index k' with
      | Some j =>
          if i <? j then (k, v) :: (k', v') :: r
          else if i =? j then (k, v) :: r
          else (k', v') :: assign_index i k v r
      | None => (k, v) :: (k', v') :: r
      end
  end.

(** [o[k] = v] on a plain object.  The name [__proto__] is the accessor
    of [Object.prototype]: the assignment sets the prototype of [o] (or,
    for a primitive [v], does nothing) and creates no property; neither
    the codec nor [JSON.stringify] reads the prototype. *)
Definition assign (k : string) (v : jsval) (o : list (string * jsval))
  : list (string * jsval) :=
  if String.eqb k "__proto__" then o
  else
    match array_index k with
    | Some i => assign_index i k v o
    | None => Assoc.set k v o
    end.

(** Property names in the order in which the engine lists them, none
    twice: what the names of an object always are. *)
Fixpoint key_order (ks : list string) : bool :=
  match ks with
  | [] => true
  | k :: r =>
      match array_index k with
      | Some i =>
          forallb (fun k' => match array_index k' with
                             | Some j => i <? j
                             | None => true
                             end) r
      | None =>
          forallb (fun k' => match array_index k' with
                             | Some _ => false
                             | None => negb (String.eqb k k')
                             end) r
      end && key_order r
  end.

(** *** [String(x)] for a number that is not a safe integer

    [Number::toString]: the shortest decimal numeral that reads back as
    the same binary64, the closest to it if there are several, laid out
    with or without an exponent.  The number is [X * 2^u]; [lo] and [hi]
    bound the reals that round to it, in the same unit. *)

Definition pow2 (n : Z) : Z := 2 ^ Z.max n 0.
Definition pow10 (n : Z) : Z := 10 ^ Z.max n 0.

(** [X * 2^u * 10^t] as a fraction. *)
Definition scaled (X u t : Z) : Z * Z :=
  (X * pow2 u * pow10 t, pow2 (- u) * pow10 (- t)).

Definition zeros (n : Z) : string :=
  string_of_list_ascii (repeat "0"%char (Z.to_nat n)).

(** The numeral for digits [s], [k] of them, times [10^(n-k)]. *)
Definition layout (s k n : Z) : string :=
  let d := string_of_Z s in
  if (-5 <=? n) && (n <=? 21) then
    if k <=? n then d +:+ zeros (n - k)
    else if 0 <? n then
      String.substring 0 (Z.to_nat n) d +:+ "."
        +:+ String.substring (Z.to_nat n) (Z.to_nat (k - n)) d
    else "0." +:+ zeros (- n) +:+ d
  else
    let e := n - 1 in
    let sign : string := if 0 <=? e then "+"%string else "-"%string in
    let ex := sign +:+ string_of_Z (Z.abs e) in
    if k =? 1 then d +:+ "e" +:+ ex
    else String.substring 0 1 d +:+ "."
           +:+ String.substring 1 (Z.to_nat (k - 1)) d +:+ "e" +:+ ex.

(** A numeral [c_s * 10^(c_n - k)] that reads back as the number, with
    its distance from the number as a fraction (in units of
    [10^(n0 - k)]). *)
Record cand : Type := mkCand { c_s : Z; c_n : Z; c_num : Z; c_den : Z }.

Definition candidates (X lo hi u : Z) (incl : bool) (n0 k n : Z) : list cand :=
  let t := k - n in
  let '(xn, xd) := scaled X u t in
  let '(ln, _) := scaled lo u t in
  let '(hn, _) := scaled hi u t in
  let sf := xn / xd in
  flat_map (fun s =>
              if (10 ^ (k - 1) <=? s) && (s <? 10 ^ k)
                 && (if incl then (ln <=? s * xd) && (s * xd <=? hn)
                     else (ln <? s * xd) && (s * xd <? hn))
              then [{| c_s := s; c_n := n;
                       c_num := Z.abs (s * xd - xn) * 10 ^ (n - n0);
                       c_den := xd |}]
              else [])
           [sf; sf + 1].

Definition closer (a b : cand) : cand :=
  let l := c_num a * c_den b in
  let r := c_num b * c_den a in
  if l <? r then a else if r <? l then b else if Z.even (c_s a) then a else b.

(** The digits, their number and the exponent: the first [k] for which a
    numeral exists. *)
Fixpoint shortest (fuel : nat) (X lo hi u : Z) (incl : bool) (n0 k : Z)
  : Z * Z * Z :=
  match fuel with
  | O => (0, 1, 0)
  | S f =>
      match candidates X lo hi u incl n0 k n0
              ++ candidates X lo hi u incl n0 k (n0 + 1) with
      | [] => shortest f X lo hi u incl n0 (k + 1)
      | c :: cs => let b := fold_left closer cs c in (c_s b, k, c_n b)
      end
  end.

(** The least [n] from [n] on with [X * 2^u < 10^n]. *)
Fixpoint magnitude (fuel : nat) (X u n : Z) : Z :=
  match fuel with
  | O => n
  | S f =>
      let '(xn, xd) := scaled X u (- n) in
      if xn <? xd then n else magnitude f X u (n + 1)
  end.

Definition number_to_string (bits : Z) : string :=
  let sg := (bits / 2 ^ 63) mod 2 in
  let e := (bits / 2 ^ 52) mod 2 ^ 11 in
  let m := bits mod 2 ^ 52 in
  if e =? 2047 then
    if m =? 0 then (if sg =? 0 then "Infinity"%string else "-Infinity"%string)
    else "NaN"%string
  else if (e =? 0) && (m =? 0) then "0"%string
  else
    let f := if e =? 0 then m else 2 ^ 52 + m in
    let p := if e =? 0 then -1074 else e - 1075 in
    let u := p - 2 in
    let X := 4 * f in
    let lo := if (m =? 0) && (1 <? e) then X - 1 else X - 2 in
    let hi := X + 2 in
    let est := (Z.log2 X + u) * 30102 / 100000 - 1 in
    let n0 := magnitude 6 X u est in
    let '(s, k, n) := shortest 17 X lo hi u (Z.even f) n0 1 in
    (if sg =? 0 then EmptyString else "-"%string) +:+ layout s k n.

End Js.

(** ** What the specification calls a tagged keyed structure *)

(** A keyed structure whose discriminant [type] is present and is a string,
    as it is in every envelope of either protocol. *)
Definition tagged_keyed_structure (v : jsval) : Prop :=
  exists fs s, v = JObj fs /\ Assoc.get "type"%string fs = Some (JStr s).

(** ** Sockets and traces *)

(** A WebSocket is a handle.  [readyState] belongs to the network, not to
    the server: operations read it from a [Net]. *)
Definition WebSocket : Type := nat.
Definition Net : Type := WebSocket -> Z.
Definition OPEN : Z := 1.

(** The calls the server makes on sockets, in program order. *)
Inductive Event : Type :=
| EvSend (ws : WebSocket) (data : list Z)
| EvClose (ws : WebSocket) (code : Z) (reason : string).

(** How a call ends: with a value, or with an exception that nothing in the
    callee catches. *)
Inductive outcome (A : Type) : Type :=
| Returned (a : A)
| Thrown.
Arguments Returned {A} a.
Arguments Thrown {A}.

(** ** rate-limit.ts *)
Module RateLimit.

Record RateLimiter : Type := mkRateLimiter {
  windows : gmap string (list Z);
  maxMessages : Z;
  windowMs : Z
}.

(** [new RateLimiter(maxMessagesPerSecond)] *)
Definition new (maxMessagesPerSecond : Z) : RateLimiter :=
  {| windows := ∅; maxMessages := maxMessagesPerSecond; windowMs := 1000 |}.

Definition with_windows (w : gmap string (list Z)) (rl : RateLimiter)
  : RateLimiter :=
  {| windows := w; maxMessages := maxMessages rl; windowMs := windowMs rl |}.

(** [while (timestamps.length > 0 && timestamps[0] < cutoff)
    timestamps.shift()] *)
Fixpoint prune (cutoff : Z) (timestamps : list Z) : list Z :=
  match timestamps with
  | [] => []
  | t :: rest => if t <? cutoff then prune cutoff rest else timestamps
  end.

(** [allow(clientId)] at clock reading [now].  The array is mutated in
    place, so what the loop removes is removed from the stored window
    whether or not the call is admitted. *)
Definition allow (clientId : string) (now : Z) (rl : RateLimiter)
  : bool * RateLimiter :=
  let cutoff := now - windowMs rl in
  let timestamps := default [] (windows rl !! clientId) in
  let timestamps := prune cutoff timestamps in
  if Z.of_nat (length timestamps) >=? maxMessages rl
  then (false, with_windows (<[clientId := timestamps]> (windows rl)) rl)
  else (true,
        with_windows (<[clientId := timestamps ++ [now]]> (windows rl)) rl).

(** [remove(clientId)] *)
Definition remove (clientId : string) (rl : RateLimiter) : RateLimiter :=
  with_windows (delete clientId (windows rl)) rl.

(** [cleanup()] at clock reading [now]. *)
Definition cleanup (now : Z) (rl : RateLimiter) : RateLimiter :=
  let cutoff := now - windowMs rl in
  with_windows
    (omap (fun timestamps =>
             match prune cutoff timestamps with
             | [] => None
             | t :: rest => Some (t :: rest)
             end) (windows rl)) rl.

(** The calls a limiter can receive. *)
Inductive Call : Type :=
| CallAllow (clientId : string) (now : Z)
| CallRemove (clientId : string)
| CallCleanup (now : Z).

Definition step (rl : RateLimiter) (c : Call) : RateLimiter :=
  match c with
  | CallAllow clientId now => snd (allow clientId now rl)
  | CallRemove clientId => remove clientId rl
  | CallCleanup now => cleanup now rl
  end.

Definition run (calls : list Call) (rl : RateLimiter) : RateLimiter :=
  fold_left step calls rl.

(** [allow(clientId)] once per clock reading, results in call order. *)
Fixpoint allow_each (clientId : string) (times : list Z) (rl : RateLimiter)
  : list bool * RateLimiter :=
  match times with
  | [] => ([], rl)
  | t :: rest =>
      let '(ok, rl1) := allow clientId t rl in
      let '(oks, rl2) := allow_each clientId rest rl1 in
      (ok :: oks, rl2)
  end.

(** The stored window of a client, empty when it has none. *)
Definition window_of (clientId : string) (rl : RateLimiter) : list Z :=
  default [] (windows rl !! clientId).

(** No stored window holds more than [maxMessages] timestamps. *)
Definition bounded (rl : RateLimiter) : Prop :=
  forall clientId w,
    windows rl !! clientId = Some w -> Z.of_nat (length w) <= maxMessages rl.

(** How many stored timestamps are at [cutoff] or later. *)
Definition live_count (cutoff : Z) (w : list Z) : Z :=
  Z.of_nat (length (List.filter (fun t => cutoff <=? t) w)).

(** How many of the calls made at [times], with results [oks], were
    admitted at [cutoff] or later. *)
Fixpoint admitted_since (cutoff : Z) (times : list Z) (oks : list bool) : Z :=
  match times, oks with
  | t :: times', ok :: oks' =>
      (if ok && (cutoff <=? t) then 1 else 0)
      + admitted_since cutoff times' oks'
  | _, _ => 0
  end.

(** The clock reading a call takes; [remove] takes none. *)
Definition clock_of (c : Call) : option Z :=
  match c with
  | CallAllow _ now | CallCleanup now => Some now
  | CallRemove _ => None
  end.

(** The clock readings of a run of calls, in call order. *)
Definition clocks (calls : list Call) : list Z := omap clock_of calls.

(** A clock that never runs backwards. *)
Fixpoint nondecreasing (l : list Z) : bool :=
  match l with
  | a :: r =>
      match r with
      | b :: _ => (a <=? b) && nondecreasing r
      | [] => true
      end
  | [] => true
  end.

(** Whether a call is [remove(clientId)]. *)
Definition removes (clientId : string) (c : Call) : bool :=
  match c with
  | CallRemove c' => String.eqb c' clientId
  | _ => false
  end.

(** Whether a call names [clientId]. *)
Definition names (clientId : string) (c : Call) : bool :=
  match c with
  | CallAllow c' _ | CallRemove c' => String.eqb c' clientId
  | CallCleanup _ => false
  end.

(** How many of the [allow(clientId)] calls of a run that starts in [rl],
    among those made at [cutoff] or later, returned true. *)
Fixpoint admitted_in_run (clientId : string) (cutoff : Z) (calls : list Call)
    (rl : RateLimiter) : Z :=
  match calls with
  | [] => 0
  | call :: rest =>
      match call with
      | CallAllow c now =>
          if String.eqb c clientId && fst (allow c now rl) && (cutoff <=? now)
          then 1 else 0
      | _ => 0
      end
      + admitted_in_run clientId cutoff rest (step rl call)
  end.

(** Every stored window is in timestamp order and holds nothing later
    than [T]. *)
Definition in_order (T : Z) (rl : RateLimiter) : Prop :=
  forall c w, windows rl !! c = Some w -> nondecreasing (w ++ [T]) = true.

End RateLimit.

(** ** The msgpack codec

    [encode] and [decode] of [@msgpack/msgpack] with its default options, as
    far as the server uses them: one value per buffer, big-endian headers,
    the smallest integer format that fits, maps as plain objects whose
    property names are the string and number keys of the map.  The package
    is a dependency, not part of the repository; this model follows the
    msgpack format and the package's documented behaviour.  Bytes are
    integers in [0, 256).  A string is read as the bytes it is written
    with, which is what the package does for ASCII text. *)
Module MsgPack.

(** *** Big-endian integers *)

Fixpoint be (k : nat) (n : Z) : list Z :=
  match k with
  | O => []
  | S k' => be k' (n / 256) ++ [n mod 256]
  end.

Definition rd_be (bs : list Z) : Z :=
  fold_left (fun acc b => acc * 256 + b) bs 0.

(** Two's complement reading of [k] big-endian bytes. *)
Definition rd_be_signed (k : nat) (bs : list Z) : Z :=
  let u := rd_be bs in
  if u <? 2 ^ (8 * Z.of_nat k - 1) then u else u - 2 ^ (8 * Z.of_nat k).

(** [n] bytes off the front of the buffer; [None] when it is too short
    (the package's RangeError). *)
Definition take_bytes (n : Z) (bs : list Z) : option (list Z * list Z) :=
  if (0 <=? n) && (n <=? Z.of_nat (length bs))
  then Some (firstn (Z.to_nat n) bs, skipn (Z.to_nat n) bs)
  else None.

(** *** Strings as UTF-8 bytes *)

Definition str_bytes (s : string) : list Z :=
  map (fun a => Z.of_N (N_of_ascii a)) (list_ascii_of_string s).

Definition bytes_str (bs : list Z) : string :=
  string_of_list_ascii (map (fun b => ascii_of_N (Z.to_N b)) bs).

(** *** Numbers *)

Definition MAX_SAFE_INTEGER : Z := 2 ^ 53 - 1.

Definition is_safe_integer (n : Z) : bool :=
  (- MAX_SAFE_INTEGER <=? n) && (n <=? MAX_SAFE_INTEGER).

(** The safe integer a binary64 bit pattern denotes, if it denotes one.
    Both zeros are 0. *)
Definition f64_to_safe_int (bits : Z) : option Z :=
  let s := (bits / 2 ^ 63) mod 2 in
  let e := (bits / 2 ^ 52) mod 2 ^ 11 in
  let m := bits mod 2 ^ 52 in
  let sgn (x : Z) := if s =? 0 then x else - x in
  if e =? 0 then (if m =? 0 then Some 0 else None)
  else if e =? 2047 then None
  else
    let sig := 2 ^ 52 + m in
    if 1075 <? e then None
    else
      let k := 1075 - e in
      if sig mod 2 ^ k =? 0 then Some (sgn (sig / 2 ^ k)) else None.

Definition NAN_BITS : Z := 0x7FF8000000000000.

(** The number read from a binary64 bit pattern.  NaN has one
    representative. *)
Definition num_of_f64 (bits : Z) : jsval :=
  match f64_to_safe_int bits with
  | Some n => JNum n
  | None => if Js.is_nan bits then JFloat NAN_BITS else JFloat bits
  end.

(** binary32 to binary64, exact. *)
Definition f32_to_f64 (bits : Z) : Z :=
  let s := (bits / 2 ^ 31) mod 2 in
  let e := (bits / 2 ^ 23) mod 2 ^ 8 in
  let m := bits mod 2 ^ 23 in
  if e =? 255 then s * 2 ^ 63 + 2047 * 2 ^ 52 + m * 2 ^ 29
  else if e =? 0 then
    if m =? 0 then s * 2 ^ 63
    else
      let p := Z.log2 m in
      s * 2 ^ 63 + (p - 149 + 1023) * 2 ^ 52 + (m * 2 ^ (52 - p) - 2 ^ 52)
  else s * 2 ^ 63 + (e - 127 + 1023) * 2 ^ 52 + m * 2 ^ 29.

(** The binary64 nearest to an integer of magnitude 2^53 or more (ties to
    even), as the sum [high * 2^32 + low] of the 64-bit readers rounds. *)
Definition f64_of_big_int (n : Z) : Z :=
  let s := if n <? 0 then 1 else 0 in
  let a := Z.abs n in
  let p := Z.log2 a in
  let sh := p - 52 in
  let q := a / 2 ^ sh in
  let r := a mod 2 ^ sh in
  let up := (2 ^ sh <? 2 * r) || ((2 ^ sh =? 2 * r) && Z.odd q) in
  let q' := if up then q + 1 else q in
  if q' =? 2 ^ 53 then s * 2 ^ 63 + (p + 1 + 1023) * 2 ^ 52
  else s * 2 ^ 63 + (p + 1023) * 2 ^ 52 + (q' - 2 ^ 52).

(** The number an integer format decodes to. *)
Definition num_of_int (n : Z) : jsval :=
  if is_safe_integer n then JNum n else JFloat (f64_of_big_int n).

(** *** Encoder *)

Definition enc_int (n : Z) : list Z :=
  if 0 <=? n then
    if n <? 0x80 then [n]
    else if n <? 0x100 then 0xcc :: be 1 n
    else if n <? 0x10000 then 0xcd :: be 2 n
    else if n <? 0x100000000 then 0xce :: be 4 n
    else 0xcf :: be 8 n
  else
    if -0x20 <=? n then [Z.lor 0xe0 (n + 0x20)]
    else if -0x80 <=? n then 0xd0 :: be 1 n
    else if -0x8000 <=? n then 0xd1 :: be 2 n
    else if -0x80000000 <=? n then 0xd2 :: be 4 n
    else 0xd3 :: be 8 n.

(** A number that is not a safe integer is written as binary64. *)
Definition enc_num (n : Z) : list Z :=
  if is_safe_integer n then enc_int n else 0xcb :: be 8 (f64_of_big_int n).

(** Headers.  The package throws at sizes of 2^32 and more; no string,
    array, typed array or object of the engine reaches such a size, so
    the last branch stands for "below 2^32". *)
Definition str_header (len : Z) : list Z :=
  if len <? 32 then [0xa0 + len]
  else if len <? 0x100 then 0xd9 :: be 1 len
  else if len <? 0x10000 then 0xda :: be 2 len
  else 0xdb :: be 4 len.

Definition bin_header (len : Z) : list Z :=
  if len <? 0x100 then 0xc4 :: be 1 len
  else if len <? 0x10000 then 0xc5 :: be 2 len
  else 0xc6 :: be 4 len.

Definition array_header (len : Z) : list Z :=
  if len <? 16 then [0x90 + len]
  else if len <? 0x10000 then 0xdc :: be 2 len
  else 0xdd :: be 4 len.

Definition map_header (len : Z) : list Z :=
  if len <? 16 then [0x80 + len]
  else if len <? 0x10000 then 0xde :: be 2 len
  else 0xdf :: be 4 len.

Definition ext_header (len : Z) : list Z :=
  if len =? 1 then [0xd4]
  else if len =? 2 then [0xd5]
  else if len =? 4 then [0xd6]
  else if len =? 8 then [0xd7]
  else if len =? 16 then [0xd8]
  else if len <? 0x100 then 0xc7 :: be 1 len
  else if len <? 0x10000 then 0xc8 :: be 2 len
  else 0xc9 :: be 4 len.

Definition enc_str (s : string) : list Z :=
  str_header (Z.of_nat (String.length s)) ++ str_bytes s.

(** The bytes of a value.  [undefined] is written as nil, also as the
    value of a property. *)
Fixpoint enc (v : jsval) : list Z :=
  match v with
  | JUndefined | JNull => [0xc0]
  | JBool false => [0xc2]
  | JBool true => [0xc3]
  | JNum n => enc_num n
  | JFloat b => 0xcb :: be 8 b
  | JStr s => enc_str s
  | JBin d => bin_header (Z.of_nat (length d)) ++ d
  | JArr l => array_header (Z.of_nat (length l)) ++ concat (map enc l)
  | JObj fs =>
      map_header (Z.of_nat (length fs))
        ++ concat (map (fun kv => match kv with
                                  | (k, x) => enc_str k ++ enc x
                                  end) fs)
  | JExt t d => ext_header (Z.of_nat (length d)) ++ be 1 t ++ d
  end.

Definition maxDepth : nat := 100.

(** [doEncode(v, depth)] does not throw "Too deep objects". *)
Fixpoint encodable (depth : nat) (v : jsval) : bool :=
  (depth <=? maxDepth)%nat &&
  match v with
  | JArr l => forallb (encodable (S depth)) l
  | JObj fs =>
      forallb (fun kv => match kv with (_, x) => encodable (S depth) x end) fs
  | _ => true
  end.

(** [encode(v)]: [None] is the thrown error. *)
Definition encode (v : jsval) : option (list Z) :=
  if encodable 1 v then Some (enc v) else None.

(** *** Decoder *)

(** What the head byte and the fixed-size part after it announce. *)
Inductive head : Type :=
| HVal (v : jsval) (rest : list Z)
| HArr (n : Z) (rest : list Z)
| HMap (n : Z) (rest : list Z).

Definition rd_uint (k : nat) (bs : list Z) : option (Z * list Z) :=
  match take_bytes (Z.of_nat k) bs with
  | Some (h, r) => Some (rd_be h, r)
  | None => None
  end.

Definition rd_int (k : nat) (bs : list Z) : option (Z * list Z) :=
  match take_bytes (Z.of_nat k) bs with
  | Some (h, r) => Some (rd_be_signed k h, r)
  | None => None
  end.

Definition dec_str (len : Z) (bs : list Z) : option head :=
  match take_bytes len bs with
  | Some (d, r) => Some (HVal (JStr (bytes_str d)) r)
  | None => None
  end.

Definition dec_bin (len : Z) (bs : list Z) : option head :=
  match take_bytes len bs with
  | Some (d, r) => Some (HVal (JBin d) r)
  | None => None
  end.

(** The timestamp extension (type -1) accepts 4, 8 or 12 bytes and gives a
    [Date], kept here as the bytes it was read from; any other type gives
    an [ExtData]. *)
Definition dec_ext (len : Z) (bs : list Z) : option head :=
  match rd_int 1 bs with
  | Some (t, r) =>
      match take_bytes len r with
      | Some (d, r') =>
          if (t =? -1) && negb ((len =? 4) || (len =? 8) || (len =? 12))
          then None
          else Some (HVal (JExt t d) r')
      | None => None
      end
  | None => None
  end.

Definition with_uint (k : nat) (bs : list Z) (f : Z -> list Z -> option head)
  : option head :=
  match rd_uint k bs with
  | Some (n, r) => f n r
  | None => None
  end.

Definition with_int (k : nat) (bs : list Z) (f : Z -> list Z -> option head)
  : option head :=
  match rd_int k bs with
  | Some (n, r) => f n r
  | None => None
  end.

Definition hval (v : jsval) (r : list Z) : option head := Some (HVal v r).
Definition harr (n : Z) (r : list Z) : option head := Some (HArr n r).
Definition hmap (n : Z) (r : list Z) : option head := Some (HMap n r).

Definition dec_head (bs : list Z) : option head :=
  match bs with
  | [] => None
  | h :: r =>
      if (h <? 0) || (0xff <? h) then None
      else if h <? 0x80 then hval (JNum h) r
      else if h <? 0x90 then hmap (h - 0x80) r
      else if h <? 0xa0 then harr (h - 0x90) r
      else if h <? 0xc0 then dec_str (h - 0xa0) r
      else if h =? 0xc0 then hval JNull r
      else if h =? 0xc2 then hval (JBool false) r
      else if h =? 0xc3 then hval (JBool true) r
      else if h =? 0xc4 then with_uint 1 r dec_bin
      else if h =? 0xc5 then with_uint 2 r dec_bin
      else if h =? 0xc6 then with_uint 4 r dec_bin
      else if h =? 0xc7 then with_uint 1 r dec_ext
      else if h =? 0xc8 then with_uint 2 r dec_ext
      else if h =? 0xc9 then with_uint 4 r dec_ext
      else if h =? 0xca then with_uint 4 r (fun b => hval (num_of_f64 (f32_to_f64 b)))
      else if h =? 0xcb then with_uint 8 r (fun b => hval (num_of_f64 b))
      else if h =? 0xcc then with_uint 1 r (fun n => hval (num_of_int n))
      else if h =? 0xcd then with_uint 2 r (fun n => hval (num_of_int n))
      else if h =? 0xce then with_uint 4 r (fun n => hval (num_of_int n))
      else if h =? 0xcf then with_uint 8 r (fun n => hval (num_of_int n))
      else if h =? 0xd0 then with_int 1 r (fun n => hval (num_of_int n))
      else if h =? 0xd1 then with_int 2 r (fun n => hval (num_of_int n))
      else if h =? 0xd2 then with_int 4 r (fun n => hval (num_of_int n))
      else if h =? 0xd3 then with_int 8 r (fun n => hval (num_of_int n))
      else if h =? 0xd4 then dec_ext 1 r
      else if h =? 0xd5 then dec_ext 2 r
      else if h =? 0xd6 then dec_ext 4 r
      else if h =? 0xd7 then dec_ext 8 r
      else if h =? 0xd8 then dec_ext 16 r
      else if h =? 0xd9 then with_uint 1 r dec_str
      else if h =? 0xda then with_uint 2 r dec_str
      else if h =? 0xdb then with_uint 4 r dec_str
      else if h =? 0xdc then with_uint 2 r harr
      else if h =? 0xdd then with_uint 4 r harr
      else if h =? 0xde then with_uint 2 r hmap
      else if h =? 0xdf then with_uint 4 r hmap
      else if 0xe0 <=? h then hval (JNum (h - 0x100)) r
      else None
  end.

(** The property name of a map key: a string as it is, a number through
    [String(key)].  The package throws on a key of any other type and on
    the key [__proto__]. *)
Definition map_key (key : jsval) : option string :=
  match key with
  | JStr s => if String.eqb s "__proto__" then None else Some s
  | JNum n => Some (Js.string_of_Z n)
  | JFloat b => Some (Js.number_to_string b)
  | _ => None
  end.

(** [result[key] = value], pair after pair. *)
Definition build_obj (ps : list (string * jsval)) : list (string * jsval) :=
  fold_left (fun o kv => Js.assign (fst kv) (snd kv) o) ps [].

(** One value off the front of the buffer.  The recursion is on [fuel];
    [decode] below supplies enough of it for every buffer. *)
Fixpoint dec (fuel : nat) (bs : list Z) : option (jsval * list Z) :=
  match fuel with
  | O => None
  | S f =>
      match dec_head bs with
      | Some (HVal v r) => Some (v, r)
      | Some (HArr n r) =>
          match dec_items f n r with
          | Some (l, r') => Some (JArr l, r')
          | None => None
          end
      | Some (HMap n r) =>
          match dec_pairs f n r with
          | Some (ps, r') => Some (JObj (build_obj ps), r')
          | None => None
          end
      | None => None
      end
  end
with dec_items (fuel : nat) (n : Z) (bs : list Z)
  : option (list jsval * list Z) :=
  if n <=? 0 then Some ([], bs)
  else
    match fuel with
    | O => None
    | S f =>
        match dec f bs with
        | Some (v, r) =>
            match dec_items f (n - 1) r with
            | Some (l, r') => Some (v :: l, r')
            | None => None
            end
        | None => None
        end
    end
with dec_pairs (fuel : nat) (n : Z) (bs : list Z)
  : option (list (string * jsval) * list Z) :=
  if n <=? 0 then Some ([], bs)
  else
    match fuel with
    | O => None
    | S f =>
        match dec f bs with
        | Some (key, r) =>
            match map_key key with
            | Some k =>
                match dec f r with
                | Some (v, r') =>
                    match dec_pairs f (n - 1) r' with
                    | Some (ps, r'') => Some ((k, v) :: ps, r'')
                    | None => None
                    end
                | None => None
                end
            | None => None
            end
        | None => None
        end
    end.

Definition fuel_for (bs : list Z) : nat := S (2 * length bs).

(** The part of the buffer that a head leaves to be read. *)
Definition rest_of (h : head) : list Z :=
  match h with
  | HVal _ r | HArr _ r | HMap _ r => r
  end.

(** *** Values that survive a round trip *)

Fixpoint distinct (l : list string) : bool :=
  match l with
  | [] => true
  | x :: r => negb (existsb (String.eqb x) r) && distinct r
  end.

Definition size_ok (n : nat) : bool := Z.of_nat n <? 2 ^ 32.

(** [encode] then [decode] gives the value back when it holds no
    [undefined] (it would come back as [null]), its numbers are in normal
    form (safe integers as [JNum], anything else as [JFloat] with NaN
    canonical), its sizes fit the headers, every object lists its
    properties as the engine does ([Js.key_order]: no property twice) and
    has no property [__proto__] (the decoder refuses the key), and no
    extension value is a timestamp (a [Date] is written back from its
    time, not from the bytes it was read from). *)
Fixpoint wf (v : jsval) : bool :=
  match v with
  | JUndefined => false
  | JNull | JBool _ => true
  | JNum n => is_safe_integer n
  | JFloat b =>
      (0 <=? b) && (b <? 2 ^ 64)
      && match f64_to_safe_int b with Some _ => false | None => true end
      && (negb (Js.is_nan b) || (b =? NAN_BITS))
  | JStr s => size_ok (String.length s)
  | JBin d => size_ok (length d)
  | JArr l => size_ok (length l) && forallb wf l
  | JObj fs =>
      size_ok (length fs) && distinct (map fst fs)
      && Js.key_order (map fst fs)
      && forallb (fun kv => match kv with
                            | (k, x) =>
                                negb (String.eqb k "__proto__")
                                && size_ok (String.length k) && wf x
                            end) fs
  | JExt t d =>
      (-128 <=? t) && (t <? 128) && negb (t =? -1) && size_ok (length d)
  end.

(** A value that [encode] accepts and that survives the round trip. *)
Definition valid (v : jsval) : bool := wf v && encodable 1 v.

(** [decode(bytes)]: [None] is the thrown error (truncated input, unknown
    head byte, bad key, bytes left over after the value). *)
Definition decode (bs : list Z) : option jsval :=
  match dec (fuel_for bs) bs with
  | Some (v, []) => Some v
  | _ => None
  end.

(** With enough fuel the decoder reads a value back from its encoding and
    stops where the encoding stops. *)
Definition reads_back (v : jsval) : Prop :=
  exists F0, forall F r, (F0 <= F)%nat -> dec F (enc v ++ r) = Some (v, r).

End MsgPack.


(** ** The server-authoritative profile *)
Module Auth.

(** *** protocol.ts *)

(** Server to client messages.  [displayName], the player states and the
    chat text are typed [string] and [PlayerState] in the source but reach
    the room unvalidated, so they are values here. *)
Inductive ServerMessage : Type :=
| Snapshot (players : list (string * jsval)) (timestamp : Z)
| PlayerJoined (id : string) (displayName : jsval)
| PlayerLeft (id : string)
| Chat (id : string) (message : jsval)
| Error (code : string) (message : string).

(** The object literal of each variant. *)
Definition to_js (msg : ServerMessage) : jsval :=
  match msg with
  | Snapshot players timestamp =>
      JObj [("type", JStr "snapshot");
            ("payload", JObj [("players", JObj players);
                              ("timestamp", JNum timestamp)])]
  | PlayerJoined id displayName =>
      JObj [("type", JStr "player_joined");
            ("payload", JObj [("id", JStr id);
                              ("displayName", displayName)])]
  | PlayerLeft id =>
      JObj [("type", JStr "player_left");
            ("payload", JObj [("id", JStr id)])]
  | Chat id message =>
      JObj [("type", JStr "chat");
            ("payload", JObj [("id", JStr id); ("message", message)])]
  | Error code message =>
      JObj [("type", JStr "error");
            ("payload", JObj [("code", JStr code);
                              ("message", JStr message)])]
  end%string.

Definition encodeMessage (msg : ServerMessage) : option (list Z) :=
  MsgPack.encode (to_js msg).

(** [decodeMessage(data)]: [None] is [null].  The [try] turns a throwing
    [decode] into [null] as well.  [decode] is the function the module
    imports from the package: [None] where it throws. *)
Definition decodeMessage_with (decode : list Z -> option jsval)
    (data : list Z) : option jsval :=
  match decode data with
  | Some msg =>
      if negb (Js.truthy msg) || negb (Js.typeof_object msg)
         || negb (Js.has_prop "type" msg)
      then None
      else Some msg
  | None => None
  end.

Definition decodeMessage (data : list Z) : option jsval :=
  decodeMessage_with MsgPack.decode data.

Module ErrorCodes.
Definition RATE_LIMITED : string := "RATE_LIMITED".
Definition ROOM_FULL : string := "ROOM_FULL".
Definition INVALID_MESSAGE : string := "INVALID_MESSAGE".
Definition NOT_JOINED : string := "NOT_JOINED".
End ErrorCodes.

(** The decoded values that have a property [type]: a plain object with
    that key, whatever its value, and an [ExtData]. *)
Definition has_type_property (v : jsval) : Prop :=
  (exists fs, v = JObj fs /\ In "type"%string (Assoc.keys fs))
  \/ (exists t d, v = JExt t d /\ t <> -1).

(** *** room.ts *)

Record Player : Type := mkPlayer {
  player_id : string;
  ws : WebSocket;
  displayName : jsval;
  state : jsval;
  joinedAt : Z
}.

(** [tickInterval] is [true] while an interval timer is armed. *)
Record Room : Type := mkRoom {
  id : string;
  players : list (string * Player);
  tickInterval : bool;
  maxPlayers : Z;
  snapshotHz : Z;
  messageCount : Z;
  lastMessageCountReset : Z;
  messagesPerSecond : Z
}.

(** [new Room(id, maxPlayers, snapshotHz)] at clock reading [now]. *)
Definition new (id : string) (maxPlayers snapshotHz now : Z) : Room :=
  {| id := id; players := []; tickInterval := false;
     maxPlayers := maxPlayers; snapshotHz := snapshotHz;
     messageCount := 0; lastMessageCountReset := now;
     messagesPerSecond := 0 |}.

Definition with_players (ps : list (string * Player)) (r : Room) : Room :=
  {| id := id r; players := ps; tickInterval := tickInterval r;
     maxPlayers := maxPlayers r; snapshotHz := snapshotHz r;
     messageCount := messageCount r;
     lastMessageCountReset := lastMessageCountReset r;
     messagesPerSecond := messagesPerSecond r |}.

Definition with_tickInterval (b : bool) (r : Room) : Room :=
  {| id := id r; players := players r; tickInterval := b;
     maxPlayers := maxPlayers r; snapshotHz := snapshotHz r;
     messageCount := messageCount r;
     lastMessageCountReset := lastMessageCountReset r;
     messagesPerSecond := messagesPerSecond r |}.

Definition with_metrics (count reset perSecond : Z) (r : Room) : Room :=
  {| id := id r; players := players r; tickInterval := tickInterval r;
     maxPlayers := maxPlayers r; snapshotHz := snapshotHz r;
     messageCount := count; lastMessageCountReset := reset;
     messagesPerSecond := perSecond |}.

Definition playerCount (r : Room) : Z := Assoc.size (players r).

Definition isFull (r : Room) : bool := Assoc.size (players r) >=? maxPlayers r.

Definition isRunning (r : Room) : bool := tickInterval r.

Definition hasPlayer (id : string) (r : Room) : bool := Assoc.has id (players r).

Definition startTickLoop (r : Room) : Room := with_tickInterval true r.

Definition stopTickLoop (r : Room) : Room :=
  if tickInterval r then with_tickInterval false r else r.

(** The sends of [broadcast] once the message is encoded: every player
    but [excludeId], in map order, whose socket is open. *)
Definition fanout (data : list Z) (excludeId : option string) (net : Net)
    (ps : list (string * Player)) : list Event :=
  flat_map (fun '(pid, player) =>
              if match excludeId with
                 | Some x => String.eqb pid x
                 | None => false
                 end
              then []
              else if net (ws player) =? OPEN
                   then [EvSend (ws player) data]
                   else [])
           ps.

(** [broadcast(msg, excludeId?)]: [None] when [encodeMessage] throws,
    which is before anything is sent. *)
Definition broadcast (msg : ServerMessage) (excludeId : option string)
    (net : Net) (r : Room) : option (list Event) :=
  match encodeMessage msg with
  | Some data => Some (fanout data excludeId net (players r))
  | None => None
  end.

Definition full_message (r : Room) : string :=
  ("Room " +:+ Js.dquote +:+ id r +:+ Js.dquote +:+ " is full ("
     +:+ Js.string_of_Z (maxPlayers r) +:+ " players)")%string.

Definition neutral_state : jsval :=
  JObj [("position", JObj [("x", JNum 0); ("y", JNum 0); ("z", JNum 0)]);
        ("rotation", JObj [("x", JNum 0); ("y", JNum 0); ("z", JNum 0);
                           ("w", JNum 1)]);
        ("action", JStr "idle")]%string.

(** [join(id, ws, displayName)] *)
Definition join (pid : string) (sock : WebSocket) (name : jsval) (now : Z)
    (net : Net) (r : Room) : outcome bool * Room * list Event :=
  if isFull r then
    match encodeMessage (Error ErrorCodes.ROOM_FULL (full_message r)) with
    | Some msg => (Returned false, r, [EvSend sock msg])
    | None => (Thrown, r, [])
    end
  else
    let player :=
      {| player_id := pid; ws := sock; displayName := name;
         state := neutral_state; joinedAt := now |} in
    let r1 := with_players (Assoc.set pid player (players r)) r in
    match broadcast (PlayerJoined pid name) (Some pid) net r1 with
    | Some evs =>
        let r2 :=
          if (Assoc.size (players r1) =? 1) && negb (tickInterval r1)
          then startTickLoop r1 else r1 in
        (Returned true, r2, evs)
    | None => (Thrown, r1, [])
    end.

(** [leave(id)] *)
Definition leave (pid : string) (net : Net) (r : Room)
  : outcome unit * Room * list Event :=
  match Assoc.get pid (players r) with
  | None => (Returned tt, r, [])
  | Some _ =>
      let r1 := with_players (Assoc.delete pid (players r)) r in
      match broadcast (PlayerLeft pid) None net r1 with
      | Some evs =>
          let r2 :=
            if Assoc.size (players r1) =? 0 then stopTickLoop r1 else r1 in
          (Returned tt, r2, evs)
      | None => (Thrown, r1, [])
      end
  end.

Definition with_state (st : jsval) (p : Player) : Player :=
  {| player_id := player_id p; ws := ws p; displayName := displayName p;
     state := st; joinedAt := joinedAt p |}.

(** [{ ...state, timestamp: Date.now() }] *)
Definition stamp (st : jsval) (now : Z) : jsval :=
  JObj (Assoc.set "timestamp" (JNum now) (Js.spread st)).

(** [updatePlayerState(id, state)] *)
Definition updatePlayerState (pid : string) (st : jsval) (now : Z) (r : Room)
  : Room :=
  match Assoc.get pid (players r) with
  | None => r
  | Some player =>
      let r1 :=
        with_players
          (Assoc.set pid (with_state (stamp st now) player) (players r)) r in
      with_metrics (messageCount r1 + 1) (lastMessageCountReset r1)
        (messagesPerSecond r1) r1
  end.

(** [chat(id, message)] *)
Definition chat (pid : string) (message : jsval) (net : Net) (r : Room)
  : outcome unit * Room * list Event :=
  match Assoc.get pid (players r) with
  | None => (Returned tt, r, [])
  | Some _ =>
      match Js.slice 500 message with
      | None => (Thrown, r, [])
      | Some text =>
          match broadcast (Chat pid text) None net r with
          | Some evs =>
              (Returned tt,
               with_metrics (messageCount r + 1) (lastMessageCountReset r)
                 (messagesPerSecond r) r,
               evs)
          | None => (Thrown, r, [])
          end
      end
  end.

(** [{ ...player.state, displayName: player.displayName }] *)
Definition snapshot_entry (p : Player) : jsval :=
  JObj (Assoc.set "displayName" (displayName p) (Js.spread (state p))).

(** The [players] record that [tick] fills, one assignment per player
    to a property of a plain object. *)
Definition snapshot_players (ps : list (string * Player))
  : list (string * jsval) :=
  fold_left (fun acc '(pid, player) => Js.assign pid (snapshot_entry player) acc)
    ps [].

(** [Math.round((messageCount / elapsed) * 1000)], in exact arithmetic. *)
Definition rate_per_second (count elapsed : Z) : Z :=
  (2 * count * 1000 + elapsed) / (2 * elapsed).

(** [tick()]; the two clock readings are taken as one. *)
Definition tick (now : Z) (net : Net) (r : Room)
  : outcome unit * Room * list Event :=
  if Assoc.size (players r) =? 0 then (Returned tt, r, [])
  else
    match broadcast (Snapshot (snapshot_players (players r)) now) None net r with
    | Some evs =>
        let elapsed := now - lastMessageCountReset r in
        let r1 :=
          if elapsed >=? 1000
          then with_metrics 0 now (rate_per_second (messageCount r) elapsed) r
          else r in
        (Returned tt, r1, evs)
    | None => (Thrown, r, [])
    end.

(** [destroy()] *)
Definition destroy (r : Room) : Room * list Event :=
  let r1 := stopTickLoop r in
  (with_players [] r1,
   map (fun '(_, player) => EvClose (ws player) 1001 "Room destroyed")
     (players r1)).

(** The calls a room can receive, each with the clock reading and the
    state of the network it runs in. *)
Inductive Call : Type :=
| CallJoin (pid : string) (sock : WebSocket) (name : jsval) (now : Z) (net : Net)
| CallLeave (pid : string) (net : Net)
| CallUpdatePlayerState (pid : string) (st : jsval) (now : Z)
| CallChat (pid : string) (message : jsval) (net : Net)
| CallTick (now : Z) (net : Net)
| CallDestroy.

(** The room a call leaves behind, whether it returned or threw. *)
Definition room_after {A : Type} (x : outcome A * Room * list Event) : Room :=
  snd (fst x).

Definition step (r : Room) (c : Call) : Room :=
  match c with
  | CallJoin pid sock name now net => room_after (join pid sock name now net r)
  | CallLeave pid net => room_after (leave pid net r)
  | CallUpdatePlayerState pid st now => updatePlayerState pid st now r
  | CallChat pid message net => room_after (chat pid message net r)
  | CallTick now net => room_after (tick now net r)
  | CallDestroy => fst (destroy r)
  end.

Definition run (calls : list Call) (r : Room) : Room := fold_left step calls r.

(** Whether a call passes [join] a display name of its declared type,
    [string], if it is a [join] at all. *)
Definition string_name (c : Call) : bool :=
  match c with
  | CallJoin _ _ name _ _ => Js.typeof_string name
  | _ => true
  end.

(** *** index.ts *)

(** The environment variables the server reads at start. *)
Record Config : Type := mkConfig {
  SNAPSHOT_HZ : Z;
  MAX_MESSAGES_PER_SECOND : Z;
  MAX_PLAYERS_PER_ROOM : Z
}.

(** The module-level state: the room registry and the rate limiter. *)
Record Server : Type := mkServer {
  rooms : gmap string Room;
  rateLimiter : RateLimit.RateLimiter
}.

(** The entry of [clientMeta] for a socket. *)
Record Meta : Type := mkMeta {
  clientId : string;
  roomId : string;
  joined : bool
}.

Definition start (cfg : Config) : Server :=
  {| rooms := ∅;
     rateLimiter := RateLimit.new (MAX_MESSAGES_PER_SECOND cfg) |}.

Definition with_rooms (m : gmap string Room) (srv : Server) : Server :=
  {| rooms := m; rateLimiter := rateLimiter srv |}.

Definition with_rateLimiter (rl : RateLimit.RateLimiter) (srv : Server)
  : Server :=
  {| rooms := rooms srv; rateLimiter := rl |}.

Definition with_joined (b : bool) (meta : Meta) : Meta :=
  {| clientId := clientId meta; roomId := roomId meta; joined := b |}.

Section router.

(** The [decode] of the package, which [decodeMessage] calls: [None]
    where it throws. *)
Variable decode : list Z -> option jsval.

Variable cfg : Config.

Definition getOrCreateRoom (roomId : string) (now : Z) (srv : Server)
  : Room * Server :=
  match rooms srv !! roomId with
  | Some room => (room, srv)
  | None =>
      let room := new roomId (MAX_PLAYERS_PER_ROOM cfg) (SNAPSHOT_HZ cfg) now in
      (room, with_rooms (<[roomId := room]> (rooms srv)) srv)
  end.

(** [ws.send(encodeMessage({ type: 'error', payload: ... }))] *)
Definition send_error (sock : WebSocket) (code message : string)
  : outcome unit * list Event :=
  match encodeMessage (Error code message) with
  | Some msg => (Returned tt, [EvSend sock msg])
  | None => (Thrown, [])
  end.

(** The [connection] handler: it looks the socket up in [clientMeta],
    arms the keep-alive timer and registers the handlers below.  The
    boolean tells whether the handlers were registered. *)
Definition onConnection (sock : WebSocket) (meta : option Meta)
    (srv : Server) : bool * Server * list Event :=
  match meta with
  | None => (false, srv, [EvClose sock 1011 "Internal error"])
  | Some _ => (true, srv, [])
  end.

(** The [switch (message.type)] of the [message] handler, on a room
    object that the registry already holds. *)
Definition dispatch (sock : WebSocket) (meta : Meta) (message : jsval)
    (now : Z) (net : Net) (room : Room)
  : outcome unit * Meta * Room * list Event :=
  let type := default JUndefined (Js.get "type" message) in
  if Js.eq_str type "join" then
    if joined meta then (Returned tt, meta, room, [])
    else
      match Js.get "payload" message with
      | Some payload =>
          match Js.get "displayName" payload with
          | Some name =>
              match Js.slice 32 (Js.or_else name (JStr "Anonymous")) with
              | Some displayName =>
                  match join (clientId meta) sock displayName now net room with
                  | (Returned success, room1, evs) =>
                      (Returned tt,
                       if success then with_joined true meta else meta,
                       room1, evs)
                  | (Thrown, room1, evs) => (Thrown, meta, room1, evs)
                  end
              | None => (Thrown, meta, room, [])
              end
          | None => (Thrown, meta, room, [])
          end
      | None => (Thrown, meta, room, [])
      end
  else if Js.eq_str type "state" then
    if negb (joined meta) then
      let '(res, evs) :=
        send_error sock ErrorCodes.NOT_JOINED
          ("Send a " +:+ Js.dquote +:+ "join" +:+ Js.dquote
             +:+ " message first") in
      (res, meta, room, evs)
    else
      (Returned tt, meta,
       updatePlayerState (clientId meta)
         (default JUndefined (Js.get "payload" message)) now room,
       [])
  else if Js.eq_str type "chat" then
    if negb (joined meta) then (Returned tt, meta, room, [])
    else
      match Js.get "payload" message with
      | Some payload =>
          match Js.get "message" payload with
          | Some text =>
              let '(res, room1, evs) := chat (clientId meta) text net room in
              (res, meta, room1, evs)
          | None => (Thrown, meta, room, [])
          end
      | None => (Thrown, meta, room, [])
      end
  else (Returned tt, meta, room, []).

(** The [message] handler of a connection. *)
Definition onMessage (sock : WebSocket) (meta : Meta) (data : list Z)
    (now : Z) (net : Net) (srv : Server)
  : outcome unit * Meta * Server * list Event :=
  let '(allowed, rl) := RateLimit.allow (clientId meta) now (rateLimiter srv) in
  let srv1 := with_rateLimiter rl srv in
  if negb allowed then
    let '(res, evs) :=
      send_error sock ErrorCodes.RATE_LIMITED "Rate limited" in
    (res, meta, srv1, evs)
  else
    match decodeMessage_with decode data with
    | None =>
        let '(res, evs) :=
          send_error sock ErrorCodes.INVALID_MESSAGE "Invalid message format" in
        (res, meta, srv1, evs)
    | Some message =>
        let '(room, srv2) := getOrCreateRoom (roomId meta) now srv1 in
        let '(res, meta1, room1, evs) :=
          dispatch sock meta message now net room in
        (res, meta1,
         with_rooms (<[roomId meta := room1]> (rooms srv2)) srv2, evs)
    end.

(** The [close] handler of a connection. *)
Definition onClose (meta : Meta) (net : Net) (srv : Server)
  : outcome unit * Server * list Event :=
  let srv1 :=
    with_rateLimiter (RateLimit.remove (clientId meta) (rateLimiter srv)) srv in
  match rooms srv1 !! roomId meta with
  | None => (Returned tt, srv1, [])
  | Some room =>
      match leave (clientId meta) net room with
      | (Returned _, room1, evs) =>
          if (playerCount room1 =? 0)
             && negb (String.eqb (roomId meta) "lobby")
          then
            let '(_, evs') := destroy room1 in
            (Returned tt,
             with_rooms (delete (roomId meta) (rooms srv1)) srv1,
             evs ++ evs')
          else
            (Returned tt,
             with_rooms (<[roomId meta := room1]> (rooms srv1)) srv1, evs)
      | (Thrown, room1, evs) =>
          (Thrown,
           with_rooms (<[roomId meta := room1]> (rooms srv1)) srv1, evs)
      end
  end.

(** The interval timer of the room registered as [roomId] fires: the
    callback that [startTickLoop] armed runs [tick]. *)
Definition onTickTimer (roomId : string) (now : Z) (net : Net) (srv : Server)
  : outcome unit * Server * list Event :=
  match rooms srv !! roomId with
  | Some room =>
      if tickInterval room then
        let '(res, room1, evs) := tick now net room in
        (res, with_rooms (<[roomId := room1]> (rooms srv)) srv, evs)
      else (Returned tt, srv, [])
  | None => (Returned tt, srv, [])
  end.

(** The ten-second timer: [rateLimiter.cleanup()]. *)
Definition onCleanupTimer (now : Z) (srv : Server) : Server :=
  with_rateLimiter (RateLimit.cleanup now (rateLimiter srv)) srv.

(** What reaches the server once it listens. *)
Inductive Request : Type :=
| ReqMessage (sock : WebSocket) (meta : Meta) (data : list Z) (now : Z)
    (net : Net)
| ReqClose (meta : Meta) (net : Net)
| ReqTick (roomId : string) (now : Z) (net : Net)
| ReqCleanup (now : Z).

(** The server a request leaves behind, whether its handler returned or
    threw. *)
Definition serve (srv : Server) (req : Request) : Server :=
  match req with
  | ReqMessage sock meta data now net =>
      snd (fst (onMessage sock meta data now net srv))
  | ReqClose meta net => snd (fst (onClose meta net srv))
  | ReqTick roomId now net => snd (fst (onTickTimer roomId now net srv))
  | ReqCleanup now => onCleanupTimer now srv
  end.

Definition serve_all (reqs : list Request) (srv : Server) : Server :=
  fold_left serve reqs srv.

(** The call on the rate limiter that the handler of a request makes. *)
Definition limiter_call (req : Request) : option RateLimit.Call :=
  match req with
  | ReqMessage _ meta _ now _ => Some (RateLimit.CallAllow (clientId meta) now)
  | ReqClose meta _ => Some (RateLimit.CallRemove (clientId meta))
  | ReqTick _ _ _ => None
  | ReqCleanup now => Some (RateLimit.CallCleanup now)
  end.

(** A room with the id [rid], built with the configured capacity and
    holding no more players than that. *)
Definition kept (rid : string) (room : Room) : Prop :=
  id room = rid /\ maxPlayers room = MAX_PLAYERS_PER_ROOM cfg
  /\ playerCount room <= MAX_PLAYERS_PER_ROOM cfg.

(** Every room is registered under its own id, was built with the
    configured capacity and holds no more players than that. *)
Definition rooms_in_bounds (srv : Server) : Prop :=
  forall rid room, rooms srv !! rid = Some room -> kept rid room.
End router.

End Auth.

(** ** The relay profile *)
Module Relay.

(** *** protocol.ts *)

Definition PROTOCOL_VERSION : Z := 1.

Inductive ServerMessage : Type :=
| Welcome (protocolVersion : Z) (playerId : string) (peers : list string)
| PeerJoined (peerId : string)
| PeerLeft (peerId : string)
| RelayMessage (from : string) (data : jsval)
| Pong (nonce : string) (serverTime : Z)
| Error (code : string) (message : string).

(** The object literal of each variant. *)
Definition to_js (msg : ServerMessage) : jsval :=
  match msg with
  | Welcome protocolVersion playerId peers =>
      JObj [("type", JStr "welcome");
            ("protocolVersion", JNum protocolVersion);
            ("playerId", JStr playerId);
            ("peers", JArr (map JStr peers))]
  | PeerJoined peerId =>
      JObj [("type", JStr "peer_joined"); ("peerId", JStr peerId)]
  | PeerLeft peerId =>
      JObj [("type", JStr "peer_left"); ("peerId", JStr peerId)]
  | RelayMessage from data =>
      JObj [("type", JStr "relay"); ("from", JStr from); ("data", data)]
  | Pong nonce serverTime =>
      JObj [("type", JStr "pong"); ("nonce", JStr nonce);
            ("serverTime", JNum serverTime)]
  | Error code message =>
      JObj [("type", JStr "error"); ("code", JStr code);
            ("message", JStr message)]
  end%string.

Definition encodeMessage (msg : ServerMessage) : option (list Z) :=
  MsgPack.encode (to_js msg).

(** [decodeMessage(data)]: [None] is [null].  The [try] turns a throwing
    [decode] into [null] as well.  [decode] is the function the module
    imports from the package: [None] where it throws. *)
Definition decodeMessage_with (decode : list Z -> option jsval)
    (data : list Z) : option jsval :=
  match decode data with
  | Some msg =>
      if negb (Js.truthy msg) || negb (Js.typeof_object msg) || Js.isArray msg
      then None
      else Some msg
  | None => None
  end.

Definition decodeMessage (data : list Z) : option jsval :=
  decodeMessage_with MsgPack.decode data.

Module ErrorCodes.
Definition RATE_LIMITED : string := "RATE_LIMITED".
Definition ROOM_FULL : string := "ROOM_FULL".
Definition INVALID_MESSAGE : string := "INVALID_MESSAGE".
Definition BAD_PROTOCOL : string := "BAD_PROTOCOL".
End ErrorCodes.

(** The decoded values that are objects but not arrays: a plain object,
    a [Uint8Array], an [ExtData] or a [Date]. *)
Definition non_array_object (v : jsval) : Prop :=
  (exists fs, v = JObj fs) \/ (exists d, v = JBin d)
  \/ (exists t d, v = JExt t d).

(** *** room.ts *)

Record Peer : Type := mkPeer {
  peer_id : string;
  ws : WebSocket;
  joinedAt : Z
}.

Record Room : Type := mkRoom {
  id : string;
  peers : list (string * Peer);
  maxPlayers : Z;
  messageCount : Z;
  lastMessageCountReset : Z;
  messagesPerSecond : Z
}.

(** [new Room(id, maxPlayers)] at clock reading [now]. *)
Definition new (id : string) (maxPlayers now : Z) : Room :=
  {| id := id; peers := []; maxPlayers := maxPlayers; messageCount := 0;
     lastMessageCountReset := now; messagesPerSecond := 0 |}.

Definition with_peers (ps : list (string * Peer)) (r : Room) : Room :=
  {| id := id r; peers := ps; maxPlayers := maxPlayers r;
     messageCount := messageCount r;
     lastMessageCountReset := lastMessageCountReset r;
     messagesPerSecond := messagesPerSecond r |}.

Definition with_metrics (count reset perSecond : Z) (r : Room) : Room :=
  {| id := id r; peers := peers r; maxPlayers := maxPlayers r;
     messageCount := count; lastMessageCountReset := reset;
     messagesPerSecond := perSecond |}.

Definition playerCount (r : Room) : Z := Assoc.size (peers r).

Definition isFull (r : Room) : bool := Assoc.size (peers r) >=? maxPlayers r.

Definition hasPeer (id : string) (r : Room) : bool := Assoc.has id (peers r).

(** [send(ws, msg)]: the message is encoded only for an open socket. *)
Definition send (sock : WebSocket) (msg : ServerMessage) (net : Net)
  : option (list Event) :=
  if net sock =? OPEN then
    match encodeMessage msg with
    | Some data => Some [EvSend sock data]
    | None => None
    end
  else Some [].

Definition fanout (data : list Z) (excludeId : option string) (net : Net)
    (ps : list (string * Peer)) : list Event :=
  flat_map (fun '(pid, peer) =>
              if match excludeId with
                 | Some x => String.eqb pid x
                 | None => false
                 end
              then []
              else if net (ws peer) =? OPEN
                   then [EvSend (ws peer) data]
                   else [])
           ps.

(** [broadcast(msg, excludeId?)]: [None] when [encodeMessage] throws. *)
Definition broadcast (msg : ServerMessage) (excludeId : option string)
    (net : Net) (r : Room) : option (list Event) :=
  match encodeMessage msg with
  | Some data => Some (fanout data excludeId net (peers r))
  | None => None
  end.

Definition full_message (r : Room) : string :=
  ("Room " +:+ Js.dquote +:+ id r +:+ Js.dquote +:+ " is full ("
     +:+ Js.string_of_Z (maxPlayers r) +:+ " peers)")%string.

(** [join(id, ws)] *)
Definition join (pid : string) (sock : WebSocket) (now : Z) (net : Net)
    (r : Room) : outcome bool * Room * list Event :=
  if isFull r then
    match encodeMessage (Error ErrorCodes.ROOM_FULL (full_message r)) with
    | Some msg => (Returned false, r, [EvSend sock msg])
    | None => (Thrown, r, [])
    end
  else
    let existingPeerIds := map (fun '(_, peer) => peer_id peer) (peers r) in
    let peer := {| peer_id := pid; ws := sock; joinedAt := now |} in
    let r1 := with_peers (Assoc.set pid peer (peers r)) r in
    match send sock (Welcome PROTOCOL_VERSION pid existingPeerIds) net with
    | Some evs =>
        match broadcast (PeerJoined pid) (Some pid) net r1 with
        | Some evs' => (Returned true, r1, evs ++ evs')
        | None => (Thrown, r1, evs)
        end
    | None => (Thrown, r1, [])
    end.

(** [leave(id)] *)
Definition leave (pid : string) (net : Net) (r : Room)
  : outcome unit * Room * list Event :=
  match Assoc.get pid (peers r) with
  | None => (Returned tt, r, [])
  | Some _ =>
      let r1 := with_peers (Assoc.delete pid (peers r)) r in
      match broadcast (PeerLeft pid) None net r1 with
      | Some evs => (Returned tt, r1, evs)
      | None => (Thrown, r1, [])
      end
  end.

(** [relay(fromId, data)] *)
Definition relay (fromId : string) (data : jsval) (net : Net) (r : Room)
  : outcome unit * Room * list Event :=
  match Assoc.get fromId (peers r) with
  | None => (Returned tt, r, [])
  | Some _ =>
      match broadcast (RelayMessage fromId data) (Some fromId) net r with
      | Some evs =>
          (Returned tt,
           with_metrics (messageCount r + 1) (lastMessageCountReset r)
             (messagesPerSecond r) r,
           evs)
      | None => (Thrown, r, [])
      end
  end.

(** [Math.round((messageCount / elapsed) * 1000)], in exact arithmetic. *)
Definition rate_per_second (count elapsed : Z) : Z :=
  (2 * count * 1000 + elapsed) / (2 * elapsed).

(** [updateMetrics()] *)
Definition updateMetrics (now : Z) (r : Room) : Room :=
  let elapsed := now - lastMessageCountReset r in
  if elapsed >=? 1000
  then with_metrics 0 now (rate_per_second (messageCount r) elapsed) r
  else r.

(** [destroy()] *)
Definition destroy (r : Room) : Room * list Event :=
  (with_peers [] r,
   map (fun '(_, peer) => EvClose (ws peer) 1001 "Room destroyed") (peers r)).

(** The calls a room can receive, each with the clock reading and the
    state of the network it runs in. *)
Inductive Call : Type :=
| CallJoin (pid : string) (sock : WebSocket) (now : Z) (net : Net)
| CallLeave (pid : string) (net : Net)
| CallRelay (fromId : string) (data : jsval) (net : Net)
| CallUpdateMetrics (now : Z)
| CallDestroy.

(** The room a call leaves behind, whether it returned or threw. *)
Definition room_after {A : Type} (x : outcome A * Room * list Event) : Room :=
  snd (fst x).

Definition step (r : Room) (c : Call) : Room :=
  match c with
  | CallJoin pid sock now net => room_after (join pid sock now net r)
  | CallLeave pid net => room_after (leave pid net r)
  | CallRelay fromId data net => room_after (relay fromId data net r)
  | CallUpdateMetrics now => updateMetrics now r
  | CallDestroy => fst (destroy r)
  end.

Definition run (calls : list Call) (r : Room) : Room := fold_left step calls r.

(** Every peer is stored under its own id, and under no other. *)
Definition keyed_by_id (r : Room) : Prop :=
  NoDup (Assoc.keys (peers r))
  /\ forall k peer, In (k, peer) (peers r) -> peer_id peer = k.

(** *** index.ts *)

Record Config : Type := mkConfig {
  MAX_MESSAGES_PER_SECOND : Z;
  MAX_PLAYERS_PER_ROOM : Z
}.

(** The module-level state.  A connection keeps the [Room] object it got
    at connect time, so rooms live in a store of objects ([heap], indexed
    by reference) and the registry [rooms] maps a room id to a
    reference. *)
Record Server : Type := mkServer {
  heap : list Room;
  rooms : gmap string nat;
  rateLimiter : RateLimit.RateLimiter
}.

(** What the [connection] handler closes over. *)
Record Conn : Type := mkConn {
  clientId : string;
  roomId : string;
  room : nat
}.

Definition start (cfg : Config) : Server :=
  {| heap := []; rooms := ∅;
     rateLimiter := RateLimit.new (MAX_MESSAGES_PER_SECOND cfg) |}.

Definition with_heap (h : list Room) (srv : Server) : Server :=
  {| heap := h; rooms := rooms srv; rateLimiter := rateLimiter srv |}.

Definition with_rooms (m : gmap string nat) (srv : Server) : Server :=
  {| heap := heap srv; rooms := m; rateLimiter := rateLimiter srv |}.

Definition with_rateLimiter (rl : RateLimit.RateLimiter) (srv : Server)
  : Server :=
  {| heap := heap srv; rooms := rooms srv; rateLimiter := rl |}.

(** The room object behind a reference. *)
Definition deref (ref : nat) (srv : Server) : option Room := heap srv !! ref.

(** Every reference in the registry points into the store. *)
Definition registry_valid (srv : Server) : Prop :=
  forall rid ref, rooms srv !! rid = Some ref -> (ref < length (heap srv))%nat.

(** A method call mutates the object in place. *)
Definition store (ref : nat) (r : Room) (srv : Server) : Server :=
  with_heap (<[ref := r]> (heap srv)) srv.

Section router.

(** The [decode] of the package, which [decodeMessage] calls: [None]
    where it throws. *)
Variable decode : list Z -> option jsval.

Variable cfg : Config.

(** [String(x)] of a number that is not a safe integer. *)
Variable float_to_string : Z -> string.

Definition getOrCreateRoom (roomId : string) (now : Z) (srv : Server)
  : nat * Server :=
  match rooms srv !! roomId with
  | Some ref => (ref, srv)
  | None =>
      let ref := length (heap srv) in
      let r := new roomId (MAX_PLAYERS_PER_ROOM cfg) now in
      (ref,
       with_rooms (<[roomId := ref]> (rooms srv))
         (with_heap (heap srv ++ [r]) srv))
  end.

(** [ws.send(encodeMessage(msg))] *)
Definition send_message (sock : WebSocket) (msg : ServerMessage)
  : outcome unit * list Event :=
  match encodeMessage msg with
  | Some data => (Returned tt, [EvSend sock data])
  | None => (Thrown, [])
  end.

(** The [connection] handler for a socket whose [clientMeta] entry is
    [(clientId, roomId)].  [Some conn] when it went on to arm the
    keep-alive timer and to register the handlers below. *)
Definition onConnection (sock : WebSocket) (clientId roomId : string)
    (now : Z) (net : Net) (srv : Server)
  : outcome (option Conn) * Server * list Event :=
  let '(ref, srv1) := getOrCreateRoom roomId now srv in
  match deref ref srv1 with
  | Some r =>
      match join clientId sock now net r with
      | (Returned joined, r1, evs) =>
          if negb joined
          then (Returned None, store ref r1 srv1,
                evs ++ [EvClose sock 1013 "Room full"])
          else (Returned (Some {| clientId := clientId; roomId := roomId;
                                  room := ref |}),
                store ref r1 srv1, evs)
      | (Thrown, r1, evs) => (Thrown, store ref r1 srv1, evs)
      end
  | None => (Thrown, srv1, [])
  end.

(** [`${clientVersion}`] *)
Definition number_to_string (v : jsval) : string :=
  match v with
  | JNum n => Js.string_of_Z n
  | JFloat b => float_to_string b
  | _ => EmptyString
  end.

(** [room.relay(clientId, message)] on the room object of the
    connection. *)
Definition relay_to_room (conn : Conn) (message : jsval) (net : Net)
    (srv : Server) : outcome unit * Server * list Event :=
  match deref (room conn) srv with
  | Some r =>
      let '(res, r1, evs) := relay (clientId conn) message net r in
      (res, store (room conn) r1 srv, evs)
  | None => (Thrown, srv, [])
  end.

(** The [message] handler of a connection. *)
Definition onMessage (sock : WebSocket) (conn : Conn) (raw : list Z)
    (now : Z) (net : Net) (srv : Server)
  : outcome unit * Server * list Event :=
  let '(allowed, rl) := RateLimit.allow (clientId conn) now (rateLimiter srv) in
  let srv1 := with_rateLimiter rl srv in
  if negb allowed then
    let '(res, evs) :=
      send_message sock (Error ErrorCodes.RATE_LIMITED "Rate limited") in
    (res, srv1, evs)
  else
    match decodeMessage_with decode raw with
    | None =>
        let '(res, evs) :=
          send_message sock
            (Error ErrorCodes.INVALID_MESSAGE "Invalid message format") in
        (res, srv1, evs)
    | Some message =>
        let type := default JUndefined (Js.get "type" message) in
        if Js.eq_str type "hello" then
          let clientVersion :=
            default JUndefined (Js.get "protocolVersion" message) in
          if Js.typeof_number clientVersion
             && negb (Js.eq_int clientVersion PROTOCOL_VERSION)
          then
            match
              send_message sock
                (Error ErrorCodes.BAD_PROTOCOL
                   ("Protocol mismatch. Server="
                      +:+ Js.string_of_Z PROTOCOL_VERSION +:+ ", Client="
                      +:+ number_to_string clientVersion))
            with
            | (Returned _, evs) =>
                (Returned tt, srv1, evs ++ [EvClose sock 1008 "BAD_PROTOCOL"])
            | (Thrown, evs) => (Thrown, srv1, evs)
            end
          else (Returned tt, srv1, [])
        else
          let nonce := default JUndefined (Js.get "nonce" message) in
          match
            (if Js.eq_str type "ping"
             then match nonce with JStr n => Some n | _ => None end
             else None)
          with
          | Some n =>
              let '(res, evs) := send_message sock (Pong n now) in
              (res, srv1, evs)
          | None => relay_to_room conn message net srv1
          end
    end.

(** A message that the handler neither consumes as a hello nor answers
    as a ping: game data. *)
Definition game_data (message : jsval) : bool :=
  let type := default JUndefined (Js.get "type" message) in
  negb (Js.eq_str type "hello")
  && negb (Js.eq_str type "ping"
           && Js.typeof_string (default JUndefined (Js.get "nonce" message))).

(** The [close] handler of a connection. *)
Definition onClose (conn : Conn) (net : Net) (srv : Server)
  : outcome unit * Server * list Event :=
  let srv1 :=
    with_rateLimiter (RateLimit.remove (clientId conn) (rateLimiter srv)) srv in
  match rooms srv1 !! roomId conn with
  | None => (Returned tt, srv1, [])
  | Some ref =>
      match deref ref srv1 with
      | Some r =>
          match leave (clientId conn) net r with
          | (Returned _, r1, evs) =>
              if (playerCount r1 =? 0)
                 && negb (String.eqb (roomId conn) "lobby")
              then
                let '(r2, evs') := destroy r1 in
                (Returned tt,
                 with_rooms (delete (roomId conn) (rooms srv1))
                   (store ref r2 srv1),
                 evs ++ evs')
              else (Returned tt, store ref r1 srv1, evs)
          | (Thrown, r1, evs) => (Thrown, store ref r1 srv1, evs)
          end
      | None => (Thrown, srv1, [])
      end
  end.

(** The one-second timer: [room.updateMetrics()] for every room of the
    registry. *)
Definition onMetricsTimer (now : Z) (srv : Server) : Server :=
  map_fold (fun _ ref s =>
              match deref ref s with
              | Some r => store ref (updateMetrics now r) s
              | None => s
              end)
    srv (rooms srv).

(** The ten-second timer: [rateLimiter.cleanup()]. *)
Definition onCleanupTimer (now : Z) (srv : Server) : Server :=
  with_rateLimiter (RateLimit.cleanup now (rateLimiter srv)) srv.

(** What reaches the server once it listens. *)
Inductive Request : Type :=
| ReqConnect (sock : WebSocket) (clientId roomId : string) (now : Z)
    (net : Net)
| ReqMessage (sock : WebSocket) (conn : Conn) (raw : list Z) (now : Z)
    (net : Net)
| ReqClose (conn : Conn) (net : Net)
| ReqMetrics (now : Z)
| ReqCleanup (now : Z).

(** The server a request leaves behind, whether its handler returned or
    threw. *)
Definition serve (srv : Server) (req : Request) : Server :=
  match req with
  | ReqConnect sock clientId roomId now net =>
      snd (fst (onConnection sock clientId roomId now net srv))
  | ReqMessage sock conn raw now net =>
      snd (fst (onMessage sock conn raw now net srv))
  | ReqClose conn net => snd (fst (onClose conn net srv))
  | ReqMetrics now => onMetricsTimer now srv
  | ReqCleanup now => onCleanupTimer now srv
  end.

Definition serve_all (reqs : list Request) (srv : Server) : Server :=
  fold_left serve reqs srv.

(** The call on the rate limiter that the handler of a request makes. *)
Definition limiter_call (req : Request) : option RateLimit.Call :=
  match req with
  | ReqConnect _ _ _ _ _ => None
  | ReqMessage _ conn _ now _ => Some (RateLimit.CallAllow (clientId conn) now)
  | ReqClose conn _ => Some (RateLimit.CallRemove (clientId conn))
  | ReqMetrics _ => None
  | ReqCleanup now => Some (RateLimit.CallCleanup now)
  end.

(** A room object with the id [rid], built with the configured capacity,
    holding no more peers than that, each under its own id. *)
Definition kept (rid : string) (r : Room) : Prop :=
  id r = rid /\ maxPlayers r = MAX_PLAYERS_PER_ROOM cfg
  /\ playerCount r <= MAX_PLAYERS_PER_ROOM cfg /\ keyed_by_id r.

(** Every room object was built with the configured capacity, holds no
    more peers than that, and keeps each peer under its own id. *)
Definition rooms_in_bounds (srv : Server) : Prop :=
  forall ref r,
    deref ref srv = Some r ->
    maxPlayers r = MAX_PLAYERS_PER_ROOM cfg
    /\ playerCount r <= MAX_PLAYERS_PER_ROOM cfg
    /\ keyed_by_id r.

(** A room is registered under its own id. *)
Definition registered_by_id (srv : Server) : Prop :=
  forall rid ref r,
    rooms srv !! rid = Some ref -> deref ref srv = Some r -> id r = rid.

(** The invariant of the server state: no dangling reference in the
    registry, every room registered under its own id and in bounds. *)
Definition sound (srv : Server) : Prop :=
  registry_valid srv /\ registered_by_id srv /\ rooms_in_bounds srv.
End router.

End Relay.

(** ** The upgrade handler

    [server.on('upgrade', ...)] of [index.ts], the same in both profiles,
    from the point where [new URL] has given the path of the request.  The
    list [allowed] is [ALLOWED_ORIGINS], [origin] the [Origin] header if
    the request has one, [clientId] what [randomUUID()] returns. *)
Module Upgrade.

(** [s.split(sep)] for a one-character separator. *)
Fixpoint split (sep : ascii) (s : string) : list string :=
  match s with
  | EmptyString => [EmptyString]
  | String c rest =>
      if Ascii.eqb c sep then EmptyString :: split sep rest
      else
        match split sep rest with
        | part :: parts => String c part :: parts
        | [] => [String c EmptyString]
        end
  end.

(** [url.pathname.split('/').filter(Boolean)] *)
Definition pathParts (pathname : string) : list string :=
  List.filter (fun part => negb (String.eqb part EmptyString))
    (split "/" pathname).

(** The origin check: it is skipped when the first entry is ["*"];
    a request without the header is checked as the empty string. *)
Definition origin_allowed (allowed : list string) (origin : option string)
  : bool :=
  match allowed with
  | first :: _ =>
      if negb (String.eqb first "*")
      then existsb (String.eqb (default EmptyString origin)) allowed
      else true
  | [] => false
  end.

Inductive Response : Type :=
| Forbidden
| NotFound
| Accepted (clientId roomId : string).

Definition onUpgrade (allowed : list string) (origin : option string)
    (pathname : string) (clientId : string) : Response :=
  if negb (origin_allowed allowed origin) then Forbidden
  else
    match pathParts pathname with
    | first :: rest =>
        if negb (String.eqb first "ws") then NotFound
        else Accepted clientId
               match rest with
               | roomId :: _ => roomId
               | [] => "lobby"%string
               end
    | [] => NotFound
    end.

(** Whether a string has the character. *)
Fixpoint contains (c : ascii) (s : string) : bool :=
  match s with
  | EmptyString => false
  | String c' rest => Ascii.eqb c' c || contains c rest
  end.

(** The path [/seg1/seg2/...]. *)
Fixpoint path_of (segments : list string) : string :=
  match segments with
  | [] => EmptyString
  | seg :: rest => ("/" +:+ seg +:+ path_of rest)%string
  end.

End Upgrade.

(** ** The keep-alive timer

    The flag [isAlive] of a connection, its [pong] handler and the
    callback of its ping interval, in [index.ts] of both profiles.  The
    [close] handler clears the interval, so a run of inputs ends where the
    connection closes. *)
Module KeepAlive.

(** What happens to the connection: a pong arrives, or the interval
    timer fires. *)
Inductive Input : Type :=
| Pong
| Timer.

(** The calls the callback makes on the socket. *)
Inductive Action : Type :=
| Ping
| Terminate.

(** [let isAlive = true] *)
Definition initial : bool := true.

(** [ws.on('pong', () => { isAlive = true; })] *)
Definition onPong (isAlive : bool) : bool := true.

(** The callback of [setInterval]. *)
Definition onTimer (isAlive : bool) : bool * Action :=
  if negb isAlive then (isAlive, Terminate) else (false, Ping).

(** The calls made on the socket over a run of inputs. *)
Fixpoint run (inputs : list Input) (isAlive : bool) : list Action :=
  match inputs with
  | [] => []
  | Pong :: rest => run rest (onPong isAlive)
  | Timer :: rest =>
      let '(isAlive', action) := onTimer isAlive in
      action :: run rest isAlive'
  end.

End KeepAlive.

(** ** health.ts

    [handleHealthRequest] for either profile's [Room], of which it reads
    [playerCount] and [messagesPerSecond].  The response is the status,
    the content type and the object that goes through [JSON.stringify].
    What the handler reads from the process is an argument. *)
Module Health.

Record Response : Type := mkResponse {
  status : Z;
  contentType : string;
  body : jsval
}.

(** [Date.now()], [new Date().toISOString()] and
    [process.memoryUsage()]. *)
Record Process : Type := mkProcess {
  clock : Z;
  iso : string;
  rss : Z;
  heapUsed : Z;
  heapTotal : Z
}.

Section handler.
Context {Room : Type}.
Variable playerCount : Room -> Z.
Variable messagesPerSecond : Room -> Z.

(** [totalConnections += room.playerCount], room after room. *)
Definition totalConnections (rooms : list (string * Room)) : Z :=
  fold_left (fun total '(_, room) => total + playerCount room) rooms 0.

Definition room_entry (room : Room) : jsval :=
  JObj [("players", JNum (playerCount room));
        ("messagesPerSecond", JNum (messagesPerSecond room))]%string.

(** [roomMetrics[id] = { ... }], room after room, on a plain object. *)
Definition roomMetrics (rooms : list (string * Room))
  : list (string * jsval) :=
  fold_left (fun acc '(rid, room) => Js.assign rid (room_entry room) acc)
    rooms [].

(** [Math.floor((Date.now() - startTime) / 1000)] *)
Definition uptime (startTime now : Z) : Z := (now - startTime) / 1000.

Definition handleHealthRequest (url : option string) (startTime : Z)
    (proc : Process) (rooms : list (string * Room))
  : bool * option Response :=
  match url with
  | Some u =>
      if String.eqb u "/health" then
        (true,
         Some {| status := 200; contentType := "application/json";
                 body :=
                   JObj [("status", JStr "ok");
                         ("uptime", JNum (uptime startTime (clock proc)));
                         ("rooms", JNum (Assoc.size rooms));
                         ("connections", JNum (totalConnections rooms));
                         ("timestamp", JStr (iso proc))]%string |})
      else if String.eqb u "/metrics" then
        (true,
         Some {| status := 200; contentType := "application/json";
                 body :=
                   JObj [("uptime", JNum (uptime startTime (clock proc)));
                         ("rooms", JObj (roomMetrics rooms));
                         ("totalConnections", JNum (totalConnections rooms));
                         ("memory",
                          JObj [("rss", JNum (rss proc));
                                ("heapUsed", JNum (heapUsed proc));
                                ("heapTotal", JNum (heapTotal proc))])]%string |})
      else (false, None)
  | None => (false, None)
  end.
End handler.

End Health.

(** ** Concrete runs

    Small runs of the server, used below where a statement is checked on a
    concrete input. *)
Module Scenario.

(** A network in which every socket is open. *)
Definition all_open : Net := fun _ => OPEN.

(** A network in which socket 2 has closed. *)
Definition two_closed : Net := fun s => if (s =? 2)%nat then 3 else OPEN.

(** *** Rate limiter *)

Definition limiter : RateLimit.RateLimiter := RateLimit.new 2.

Definition burst : list Z := [0; 10; 20].

Definition limiter_calls : list RateLimit.Call :=
  [RateLimit.CallAllow "a" 0; RateLimit.CallAllow "a" 1;
   RateLimit.CallAllow "a" 2; RateLimit.CallAllow "b" 3;
   RateLimit.CallCleanup 500; RateLimit.CallRemove "b";
   RateLimit.CallAllow "a" 1001]%string.

(** Two clients and a cleanup, the clock running forwards. *)
Definition mixed_calls : list RateLimit.Call :=
  [RateLimit.CallAllow "a" 0; RateLimit.CallAllow "b" 5;
   RateLimit.CallAllow "a" 10; RateLimit.CallCleanup 15;
   RateLimit.CallAllow "a" 20; RateLimit.CallAllow "a" 900]%string.

(** A limiter of two messages per second that has admitted two of [a]. *)
Definition limiter_full : RateLimit.RateLimiter :=
  RateLimit.run [RateLimit.CallAllow "a" 0; RateLimit.CallAllow "a" 10]%string
    (RateLimit.new 2).

Definition other_traffic : list RateLimit.Call :=
  [RateLimit.CallAllow "b" 12; RateLimit.CallCleanup 15;
   RateLimit.CallRemove "b"]%string.

(** *** Authoritative rooms *)

Definition ann : Auth.Player :=
  {| Auth.player_id := "a"; Auth.ws := 1%nat; Auth.displayName := JStr "Ann";
     Auth.state := Auth.neutral_state; Auth.joinedAt := 10 |}.

Definition arena_calls : list Auth.Call :=
  [Auth.CallJoin "a" 1%nat (JStr "Ann") 10 all_open;
   Auth.CallJoin "b" 2%nat (JStr "Bob") 20 all_open]%string.

(** A room of capacity 2 with players [a] and [b]. *)
Definition arena_full : Auth.Room :=
  Auth.run arena_calls (Auth.new "arena" 2 20 0).

(** A room of capacity 4 with players [a], [b] and [c]. *)
Definition arena_three : Auth.Room :=
  Auth.run [Auth.CallJoin "a" 1%nat (JStr "Ann") 10 two_closed;
            Auth.CallJoin "b" 2%nat (JStr "Bob") 20 two_closed;
            Auth.CallJoin "c" 3%nat (JStr "Cy") 30 two_closed]%string
    (Auth.new "arena" 4 20 0).

(** A room of capacity 4 with player [a]. *)
Definition arena_one : Auth.Room :=
  Auth.run [Auth.CallJoin "a" 1%nat (JStr "Ann") 10 all_open]%string
    (Auth.new "arena" 4 20 0).


(** *** Envelopes *)

Definition snapshot_envelope : Auth.ServerMessage :=
  Auth.Snapshot
    [("p1", JObj [("position", JObj [("x", JNum 3); ("y", JNum 0);
                                      ("z", JFloat 0x3FF8000000000000)]);
                  ("action", JStr "idle");
                  ("timestamp", JNum 1700000000000);
                  ("displayName", JStr "Ann")])]%string
    1700000000050.

Definition relay_envelope : Relay.ServerMessage :=
  Relay.RelayMessage "p1"
    (JObj [("type", JStr "position");
           ("pos", JArr [JNum (-300); JNull])])%string.

(** The bytes of [{ type: 42 }] and of [{}]. *)
Definition numeric_tag_bytes : list Z := [0x81; 0xa4; 116; 121; 112; 101; 42].
Definition empty_map_bytes : list Z := [0x80].

(** *** Authoritative router *)

Definition auth_config : Auth.Config :=
  {| Auth.SNAPSHOT_HZ := 20; Auth.MAX_MESSAGES_PER_SECOND := 60;
     Auth.MAX_PLAYERS_PER_ROOM := 1 |}.

Definition meta_a : Auth.Meta :=
  {| Auth.clientId := "a"; Auth.roomId := "arena"; Auth.joined := false |}.
Definition meta_b : Auth.Meta :=
  {| Auth.clientId := "b"; Auth.roomId := "lobby"; Auth.joined := false |}.
Definition meta_c : Auth.Meta :=
  {| Auth.clientId := "c"; Auth.roomId := "lobby"; Auth.joined := false |}.

Definition meta_a_joined : Auth.Meta :=
  {| Auth.clientId := "a"; Auth.roomId := "arena"; Auth.joined := true |}.
Definition meta_b_joined : Auth.Meta :=
  {| Auth.clientId := "b"; Auth.roomId := "lobby"; Auth.joined := true |}.

Definition ann_at_0 : Auth.Player :=
  {| Auth.player_id := "a"; Auth.ws := 1%nat; Auth.displayName := JStr "Ann";
     Auth.state := Auth.neutral_state; Auth.joinedAt := 0 |}.
Definition bob_at_1 : Auth.Player :=
  {| Auth.player_id := "b"; Auth.ws := 2%nat; Auth.displayName := JStr "Ann";
     Auth.state := Auth.neutral_state; Auth.joinedAt := 1 |}.

(** The bytes of [{ type: 'join', payload: { displayName: 'Ann' } }],
    of [{ type: 'state' }] and of [{ type: 'hello' }] with and without a
    version. *)
Definition join_bytes : list Z :=
  MsgPack.enc
    (JObj [("type", JStr "join");
           ("payload", JObj [("displayName", JStr "Ann")])])%string.
Definition state_bytes : list Z :=
  MsgPack.enc (JObj [("type", JStr "state")])%string.
Definition hello_bytes : list Z :=
  MsgPack.enc (JObj [("type", JStr "hello")])%string.
Definition hello_v2_bytes : list Z :=
  MsgPack.enc (JObj [("type", JStr "hello"); ("protocolVersion", JNum 2)])%string.

(** The server after [a] has joined [arena] and [b] has joined [lobby];
    both rooms are then full. *)
Definition auth_server : Auth.Server :=
  snd (fst (Auth.onMessage MsgPack.decode auth_config 2%nat meta_b
              join_bytes 1 all_open
              (snd (fst (Auth.onMessage MsgPack.decode auth_config 1%nat
                           meta_a join_bytes 0
                           all_open (Auth.start auth_config)))))).

(** The server after [a] alone has joined [arena]: it has no lobby. *)
Definition auth_arena_only : Auth.Server :=
  snd (fst (Auth.onMessage MsgPack.decode auth_config 1%nat meta_a
              join_bytes 0 all_open
              (Auth.start auth_config))).

Definition auth_arena : Auth.Room :=
  default (Auth.new EmptyString 0 0 0) (Auth.rooms auth_server !! "arena"%string).
Definition auth_lobby : Auth.Room :=
  default (Auth.new EmptyString 0 0 0) (Auth.rooms auth_server !! "lobby"%string).

(** *** Relay router *)

Definition relay_config : Relay.Config :=
  {| Relay.MAX_MESSAGES_PER_SECOND := 60; Relay.MAX_PLAYERS_PER_ROOM := 2 |}.

Definition no_floats : Z -> string := fun _ => EmptyString.

(** The server after [c1] has connected to [arena]. *)
Definition relay_one : Relay.Server :=
  snd (fst (Relay.onConnection relay_config 1%nat "c1" "arena" 0 all_open
              (Relay.start relay_config))).

(** The server after [c2] has connected to [arena] as well. *)
Definition relay_two : Relay.Server :=
  snd (fst (Relay.onConnection relay_config 2%nat "c2" "arena" 1 all_open
              relay_one)).

Definition conn_c1 : Relay.Conn :=
  {| Relay.clientId := "c1"; Relay.roomId := "arena"; Relay.room := 0%nat |}.

Definition relay_arena : Relay.Room :=
  default (Relay.new EmptyString 0 0) (Relay.deref 0 relay_one).

Definition peer_c1 : Relay.Peer :=
  {| Relay.peer_id := "c1"; Relay.ws := 1%nat; Relay.joinedAt := 0 |}.

(** The server after [c1] has connected to [arena] and [c9] to [lobby]. *)
Definition relay_with_lobby : Relay.Server :=
  snd (fst (Relay.onConnection relay_config 9%nat "c9" "lobby" 1 all_open
              relay_one)).

Definition conn_c9 : Relay.Conn :=
  {| Relay.clientId := "c9"; Relay.roomId := "lobby"; Relay.room := 1%nat |}.

(** *** Relay rooms *)

Definition duo_calls : list Relay.Call :=
  [Relay.CallJoin "c1" 1%nat 0 all_open;
   Relay.CallJoin "c2" 2%nat 1 all_open]%string.

(** A relay room of capacity 3 with peers [c1] and [c2]. *)
Definition duo : Relay.Room := Relay.run duo_calls (Relay.new "arena" 3 0).

Definition position_update : jsval :=
  JObj [("type", JStr "pos"); ("x", JNum 7)]%string.

(** The room object of [arena] once [c1] and [c2] have connected. *)
Definition relay_arena_two : Relay.Room :=
  default (Relay.new EmptyString 0 0) (Relay.deref 0 relay_two).

(** *** Requests *)

Definition auth_requests : list Auth.Request :=
  [Auth.ReqMessage 1%nat meta_a join_bytes 0 all_open;
   Auth.ReqMessage 2%nat meta_b join_bytes 1 all_open].

Definition relay_requests : list Relay.Request :=
  [Relay.ReqConnect 1%nat "c1" "arena" 0 all_open;
   Relay.ReqConnect 2%nat "c2" "arena" 1 all_open]%string.

(** A server with room for three per room, after [a] and [d] have joined
    [arena]. *)
Definition auth_config_wide : Auth.Config :=
  {| Auth.SNAPSHOT_HZ := 20; Auth.MAX_MESSAGES_PER_SECOND := 60;
     Auth.MAX_PLAYERS_PER_ROOM := 3 |}.

Definition meta_d : Auth.Meta :=
  {| Auth.clientId := "d"; Auth.roomId := "arena"; Auth.joined := false |}.

Definition busy_server : Auth.Server :=
  Auth.serve_all MsgPack.decode auth_config_wide
    [Auth.ReqMessage 1%nat meta_a join_bytes 0 all_open;
     Auth.ReqMessage 4%nat meta_d join_bytes 1 all_open]
    (Auth.start auth_config_wide).

Definition busy_arena : Auth.Room :=
  default (Auth.new EmptyString 0 0 0) (Auth.rooms busy_server !! "arena"%string).

(** A byte that starts no msgpack value. *)
Definition garbage_bytes : list Z := [0xc1].

(** The bytes of a map with the number 1 as its key, [{ "1": 2 }] once
    decoded, and of an array that holds it. *)
Definition numeric_key_bytes : list Z := [0x81; 1; 2].
Definition numeric_key_array : list Z := [0x91; 0x81; 1; 2].

Definition long_name : string := "A name of more than thirty-two bytes".

(** [{ type: 'join', payload: { displayName: long_name } }] and
    [{ type: 'join' }]. *)
Definition long_join : jsval :=
  JObj [("type", JStr "join");
        ("payload", JObj [("displayName", JStr long_name)])]%string.
Definition bare_join : jsval := JObj [("type", JStr "join")]%string.

(** [{ type: 'ping', nonce: 'n1' }] *)
Definition ping : jsval :=
  JObj [("type", JStr "ping"); ("nonce", JStr "n1")]%string.

(** [v] inside [k] one-element arrays. *)
Fixpoint nest (k : nat) (v : jsval) : jsval :=
  match k with
  | O => v
  | S k' => JArr [nest k' v]
  end.

(** [{ d: [[...[]...]] }], ninety-nine arrays deep. *)
Definition deep_message : jsval := JObj [("d"%string, nest 98 (JArr []))].
Definition deep_bytes : list Z :=
  [0x81; 0xa1; 100] ++ repeat 0x91 98 ++ [0x90].

(** *** Process readings *)

Definition process_at_9500 : Health.Process :=
  {| Health.clock := 9500; Health.iso := "1970-01-01T00:00:09.500Z";
     Health.rss := 50000000; Health.heapUsed := 9000000;
     Health.heapTotal := 12000000 |}.

End Scenario.

(** * Properties *)

(** ** Insertion-ordered maps *)
Module AssocFacts.
Section facts.
Context {V : Type}.
Implicit Types (m : list (string * V)) (k : string) (v : V).

Lemma get_set_eq k v m : Assoc.get k (Assoc.set k v m) = Some v.
Proof.
  induction m as [|[k' v'] m IH]; simpl.
  - rewrite String.eqb_refl. reflexivity.
  - destruct (String.eqb_spec k' k) as [->|Hne]; simpl.
    + rewrite String.eqb_refl. reflexivity.
    + destruct (String.eqb_spec k' k); [contradiction | exact IH].
Qed.

Lemma get_set_ne k k' v m :
  k <> k' -> Assoc.get k' (Assoc.set k v m) = Assoc.get k' m.
Proof.
  intros Hne. induction m as [|[k0 v0] m IH]; simpl.
  - destruct (String.eqb_spec k k'); [contradiction | reflexivity].
  - destruct (String.eqb_spec k0 k) as [->|Hne0]; simpl.
    + destruct (String.eqb_spec k k'); [contradiction | reflexivity].
    + destruct (String.eqb_spec k0 k'); [reflexivity | exact IH].
Qed.

Lemma get_app k m1 m2 :
  Assoc.get k (m1 ++ m2) =
    match Assoc.get k m1 with
    | Some v => Some v
    | None => Assoc.get k m2
    end.
Proof.
  induction m1 as [|[k' v'] m1 IH]; simpl; [reflexivity|].
  destruct (String.eqb k' k); [reflexivity | exact IH].
Qed.

Lemma set_fresh k v m :
  Assoc.get k m = None -> Assoc.set k v m = m ++ [(k, v)].
Proof.
  induction m as [|[k' v'] m IH]; simpl; [reflexivity|].
  destruct (String.eqb k' k); [discriminate|].
  intros H. rewrite IH by exact H. reflexivity.
Qed.

Lemma length_set k v m :
  length (Assoc.set k v m) =
    match Assoc.get k m with
    | Some _ => length m
    | None => S (length m)
    end.
Proof.
  induction m as [|[k' v'] m IH]; simpl; [reflexivity|].
  destruct (String.eqb k' k); simpl; [reflexivity|].
  rewrite IH. destruct (Assoc.get k m); reflexivity.
Qed.

Lemma length_delete k m :
  length (Assoc.delete k m) =
    match Assoc.get k m with
    | Some _ => pred (length m)
    | None => length m
    end.
Proof.
  induction m as [|[k' v'] m IH]; simpl; [reflexivity|].
  destruct (String.eqb k' k); simpl; [reflexivity|].
  rewrite IH. destruct (Assoc.get k m) eqn:E; [|reflexivity].
  destruct m; [discriminate | reflexivity].
Qed.

Lemma get_In k v m : Assoc.get k m = Some v -> In (k, v) m.
Proof.
  induction m as [|[k' v'] m IH]; simpl; [discriminate|].
  destruct (String.eqb_spec k' k) as [->|Hne].
  - intros [= ->]. left. reflexivity.
  - intros H. right. exact (IH H).
Qed.

Lemma get_None_In k v m : Assoc.get k m = None -> ~ In (k, v) m.
Proof.
  induction m as [|[k' v'] m IH]; simpl; [tauto|].
  destruct (String.eqb_spec k' k) as [->|Hne]; [discriminate|].
  intros H [[= -> ->]|Hin]; [contradiction | exact (IH H Hin)].
Qed.

Lemma existsb_false k (l : list string) :
  existsb (String.eqb k) l = false -> ~ In k l.
Proof.
  induction l as [|k' l IH]; simpl; [tauto|].
  destruct (String.eqb_spec k k') as [->|Hne]; [discriminate|].
  intros H [->|Hin]; [contradiction | exact (IH H Hin)].
Qed.

Lemma get_not_key k m : ~ In k (Assoc.keys m) -> Assoc.get k m = None.
Proof.
  unfold Assoc.keys. induction m as [|[k' v'] m IH]; simpl; [reflexivity|].
  intros H. destruct (String.eqb_spec k' k) as [->|Hne]; [tauto|].
  apply IH. tauto.
Qed.

Lemma get_key k m : In k (Assoc.keys m) -> exists v, Assoc.get k m = Some v.
Proof.
  unfold Assoc.keys. induction m as [|[k' v'] m IH]; simpl; [tauto|].
  destruct (String.eqb_spec k' k) as [->|Hne]; [eauto|].
  intros [?|Hin]; [contradiction | exact (IH Hin)].
Qed.

Lemma keys_set_present k v v' m :
  Assoc.get k m = Some v' -> Assoc.keys (Assoc.set k v m) = Assoc.keys m.
Proof.
  unfold Assoc.keys. induction m as [|[k0 v0] m IH]; simpl; [discriminate|].
  destruct (String.eqb_spec k0 k) as [->|Hne]; simpl; [reflexivity|].
  intros E. rewrite IH by exact E. reflexivity.
Qed.

End facts.

Lemma get_map {V W : Type} (f : V -> W) k (m : list (string * V)) :
  Assoc.get k (map (fun kv => (fst kv, f (snd kv))) m)
  = option_map f (Assoc.get k m).
Proof.
  induction m as [|[k0 v0] m IH]; simpl; [reflexivity|].
  destruct (String.eqb k0 k); [reflexivity | exact IH].
Qed.

(** [set] keeps the keys it finds and appends the one it does not. *)
Lemma keys_set {V : Type} k (v : V) m :
  Assoc.keys (Assoc.set k v m)
  = if Assoc.has k m then Assoc.keys m else Assoc.keys m ++ [k].
Proof.
  unfold Assoc.has, Assoc.keys.
  induction m as [|[k0 v0] m IH]; simpl; [reflexivity|].
  destruct (String.eqb_spec k0 k) as [->|_]; simpl; [reflexivity|].
  rewrite IH. destruct (Assoc.get k m); reflexivity.
Qed.

Lemma set_keys_NoDup {V : Type} k (v : V) m :
  NoDup (Assoc.keys m) -> NoDup (Assoc.keys (Assoc.set k v m)).
Proof.
  intros Hnd. rewrite keys_set. unfold Assoc.has.
  destruct (Assoc.get k m) eqn:E; [exact Hnd|].
  apply NoDup_app. split; [exact Hnd|]. split.
  - intros x Hx Hk. apply list_elem_of_singleton in Hk. subst x.
    apply list_elem_of_In, get_key in Hx. destruct Hx as [w Hw].
    congruence.
  - apply NoDup_singleton.
Qed.

Lemma delete_keys_subset {V : Type} k x (m : list (string * V)) :
  In x (Assoc.keys (Assoc.delete k m)) -> In x (Assoc.keys m).
Proof.
  unfold Assoc.keys.
  induction m as [|[k0 v0] m IH]; simpl; [tauto|].
  destruct (String.eqb k0 k); simpl; tauto.
Qed.

Lemma delete_keys_NoDup {V : Type} k (m : list (string * V)) :
  NoDup (Assoc.keys m) -> NoDup (Assoc.keys (Assoc.delete k m)).
Proof.
  induction m as [|[k0 v0] m IH]; simpl; intros Hnd; [exact Hnd|].
  apply NoDup_cons in Hnd as [Hk Hm].
  destruct (String.eqb k0 k); [exact Hm|].
  apply NoDup_cons. split; [|apply IH; exact Hm].
  intros Hin. apply Hk. apply list_elem_of_In.
  apply (delete_keys_subset k). apply list_elem_of_In. exact Hin.
Qed.

Lemma get_delete_ne {V : Type} k k' (m : list (string * V)) :
  k <> k' -> Assoc.get k' (Assoc.delete k m) = Assoc.get k' m.
Proof.
  intros Hne. induction m as [|[k0 v0] m IH]; simpl; [reflexivity|].
  destruct (String.eqb_spec k0 k) as [->|Hk].
  - destruct (String.eqb_spec k k'); [contradiction | reflexivity].
  - simpl. rewrite IH. reflexivity.
Qed.

Lemma get_delete_eq {V : Type} k (m : list (string * V)) :
  NoDup (Assoc.keys m) -> Assoc.get k (Assoc.delete k m) = None.
Proof.
  induction m as [|[k0 v0] m IH]; simpl; intros Hnd; [reflexivity|].
  apply NoDup_cons in Hnd as [Hk Hm].
  destruct (String.eqb_spec k0 k) as [->|Hne].
  - apply AssocFacts.get_not_key. intros Hin. apply Hk.
    apply list_elem_of_In. exact Hin.
  - simpl. destruct (String.eqb_spec k0 k); [contradiction|]. apply IH, Hm.
Qed.

Lemma in_set {V : Type} k (v : V) k' v' m :
  In (k', v') (Assoc.set k v m) -> (k', v') = (k, v) \/ In (k', v') m.
Proof.
  induction m as [|[k0 v0] m IH]; simpl.
  - intros [H|[]]. left. symmetry. exact H.
  - destruct (String.eqb k0 k); simpl.
    + intros [H|H]; [left; symmetry; exact H | right; right; exact H].
    + intros [H|H]; [right; left; exact H|].
      destruct (IH H); [left | right; right]; assumption.
Qed.

Lemma in_delete {V : Type} k k' (v' : V) m :
  In (k', v') (Assoc.delete k m) -> In (k', v') m.
Proof.
  induction m as [|[k0 v0] m IH]; simpl; [tauto|].
  destruct (String.eqb k0 k); simpl; [tauto|].
  intros [H|H]; [left; exact H | right; apply IH, H].
Qed.
End AssocFacts.

(** ** Properties of plain objects *)
Module JsFacts.

Lemma array_index_name k i : Js.array_index k = Some i -> k = Js.string_of_Z i.
Proof.
  unfold Js.array_index.
  destruct (NilZero.uint_of_string k) as [u|]; [|discriminate]. cbv zeta.
  destruct (String.eqb_spec (Js.string_of_Z (Z.of_uint u)) k) as [E|];
    [|discriminate].
  destruct (_ <? _); [|discriminate]. intros [= <-]. symmetry. exact E.
Qed.

Lemma get_assign_index_eq i k v o :
  Js.array_index k = Some i ->
  Assoc.get k (Js.assign_index i k v o) = Some v.
Proof.
  intros Hk. induction o as [|[k' v'] o IH]; cbn [Js.assign_index].
  - cbn. rewrite String.eqb_refl. reflexivity.
  - destruct (Js.array_index k') as [j|] eqn:Ek';
      [|cbn; rewrite String.eqb_refl; reflexivity].
    destruct (i <? j); [cbn; rewrite String.eqb_refl; reflexivity|].
    destruct (Z.eqb_spec i j); [cbn; rewrite String.eqb_refl; reflexivity|].
    cbn [Assoc.get]. destruct (String.eqb_spec k' k) as [->|_]; [congruence|].
    exact IH.
Qed.

Lemma get_assign_index_ne i k q v o :
  Js.array_index k = Some i -> k <> q ->
  Assoc.get q (Js.assign_index i k v o) = Assoc.get q o.
Proof.
  intros Hk Hne. induction o as [|[k' v'] o IH]; cbn [Js.assign_index].
  - cbn. destruct (String.eqb_spec k q); [contradiction | reflexivity].
  - assert (Hfront : Assoc.get q ((k, v) :: (k', v') :: o)
                     = Assoc.get q ((k', v') :: o)).
    { cbn [Assoc.get]. destruct (String.eqb_spec k q); [contradiction|].
      reflexivity. }
    destruct (Js.array_index k') as [j|] eqn:Ek'; [|exact Hfront].
    destruct (i <? j); [exact Hfront|].
    destruct (Z.eqb_spec i j) as [<-|_].
    + apply array_index_name in Hk, Ek'. subst k'. rewrite <- Hk. cbn [Assoc.get].
      destruct (String.eqb_spec k q); [contradiction | reflexivity].
    + cbn [Assoc.get]. destruct (String.eqb k' q); [reflexivity | exact IH].
Qed.

(** What a property holds after an assignment. *)
Lemma get_assign q k v o :
  Assoc.get q (Js.assign k v o)
  = if String.eqb k "__proto__" then Assoc.get q o
    else if String.eqb k q then Some v else Assoc.get q o.
Proof.
  unfold Js.assign. destruct (String.eqb k "__proto__"); [reflexivity|].
  destruct (String.eqb_spec k q) as [<-|Hne].
  - destruct (Js.array_index k) as [i|] eqn:Ek.
    + apply get_assign_index_eq. exact Ek.
    + apply AssocFacts.get_set_eq.
  - destruct (Js.array_index k) as [i|] eqn:Ek.
    + apply get_assign_index_ne; assumption.
    + apply AssocFacts.get_set_ne. exact Hne.
Qed.

(** The object that a loop over a map with distinct keys fills, one
    assignment per entry: it has the entry of every key but
    [__proto__]. *)
Lemma get_fold_assign {V : Type} (entry : V -> jsval)
    (ps : list (string * V)) (acc : list (string * jsval)) q :
  NoDup (Assoc.keys ps) ->
  Assoc.get q (fold_left (fun acc '(k, x) => Js.assign k (entry x) acc) ps acc)
  = if String.eqb q "__proto__" then Assoc.get q acc
    else match Assoc.get q ps with
         | Some x => Some (entry x)
         | None => Assoc.get q acc
         end.
Proof.
  revert acc. induction ps as [|[k x] ps IH]; intros acc Hnd.
  - cbn. destruct (String.eqb q "__proto__"); reflexivity.
  - unfold Assoc.keys in Hnd. cbn [map fst] in Hnd.
    apply NoDup_cons in Hnd as [Hk Hnd]. cbn [fold_left].
    rewrite (IH _ Hnd), get_assign. cbn [Assoc.get].
    destruct (String.eqb_spec q "__proto__") as [Eq|Hq].
    + destruct (String.eqb_spec k "__proto__") as [Ek|Hk']; [reflexivity|].
      destruct (String.eqb_spec k q); [congruence | reflexivity].
    + destruct (String.eqb_spec k q) as [->|Hne].
      * rewrite AssocFacts.get_not_key.
        2:{ intros Hin. apply Hk. apply list_elem_of_In. exact Hin. }
        destruct (String.eqb_spec q "__proto__"); [contradiction | reflexivity].
      * destruct (Assoc.get q ps); [reflexivity|].
        destruct (String.eqb k "__proto__"); reflexivity.
Qed.

End JsFacts.


(** ** Rate limiter *)
Module RateLimitFacts.
Import RateLimit.

Lemma with_windows_id (rl : RateLimiter) : with_windows (windows rl) rl = rl.
Proof. destruct rl; reflexivity. Qed.

Lemma prune_length (cutoff : Z) (w : list Z) :
  (length (prune cutoff w) <= length w)%nat.
Proof.
  induction w as [|t w IH]; simpl; [lia|].
  destruct (t <? cutoff); simpl; lia.
Qed.

(** What the loop removes is older than the cutoff. *)
Lemma prune_split (cutoff : Z) (w : list Z) :
  exists old, w = old ++ prune cutoff w /\ Forall (fun t => t < cutoff) old.
Proof.
  induction w as [|t w (old & Hw & Hold)]; simpl.
  - exists []. split; [reflexivity | constructor].
  - destruct (Z.ltb_spec t cutoff).
    + exists (t :: old). split; [simpl; congruence | constructor; assumption].
    + exists []. split; [reflexivity | constructor].
Qed.

Lemma prune_all_old (cutoff : Z) (w : list Z) :
  (forall t, In t w -> t < cutoff) -> prune cutoff w = [].
Proof.
  induction w as [|t w IH]; simpl; intros H; [reflexivity|].
  destruct (Z.ltb_spec t cutoff) as [_|Hge].
  - apply IH. intros; apply H; right; assumption.
  - specialize (H t (or_introl eq_refl)). lia.
Qed.

Lemma allow_maxMessages c now rl : maxMessages (snd (allow c now rl)) = maxMessages rl.
Proof. unfold allow. destruct (_ >=? _); reflexivity. Qed.

Lemma allow_windowMs c now rl : windowMs (snd (allow c now rl)) = windowMs rl.
Proof. unfold allow. destruct (_ >=? _); reflexivity. Qed.

Lemma allow_bounded c now rl :
  0 <= maxMessages rl -> bounded rl -> bounded (snd (allow c now rl)).
Proof.
  intros Hmax Hb c' w'. rewrite allow_maxMessages. unfold allow.
  set (w := prune _ _).
  assert (Hw : Z.of_nat (length w) <= maxMessages rl).
  { subst w. destruct (windows rl !! c) as [w0|] eqn:E; simpl; [|lia].
    pose proof (prune_length (now - windowMs rl) w0). specialize (Hb c w0 E). lia. }
  destruct (Z.geb_spec (Z.of_nat (length w)) (maxMessages rl)) as [Hge|Hlt];
    simpl; intros Hl.
  - destruct (decide (c = c')) as [->|Hne].
    + rewrite lookup_insert_eq in Hl. inversion Hl; subst. exact Hw.
    + rewrite lookup_insert_ne in Hl by assumption. eapply Hb; eassumption.
  - destruct (decide (c = c')) as [->|Hne].
    + rewrite lookup_insert_eq in Hl. inversion Hl; subst.
      rewrite length_app. simpl. lia.
    + rewrite lookup_insert_ne in Hl by assumption. eapply Hb; eassumption.
Qed.

Lemma remove_bounded c rl : bounded rl -> bounded (remove c rl).
Proof.
  intros Hb c' w'. unfold remove; simpl. intros Hl.
  apply lookup_delete_Some in Hl as [_ Hl]. eapply Hb; eassumption.
Qed.

Lemma cleanup_bounded now rl : bounded rl -> bounded (cleanup now rl).
Proof.
  intros Hb c' w'. unfold cleanup; simpl. rewrite lookup_omap.
  destruct (windows rl !! c') as [w0|] eqn:E; simpl; [|discriminate].
  pose proof (prune_length (now - windowMs rl) w0) as Hlen.
  destruct (prune _ w0) eqn:Ep; [discriminate|].
  intros Hl; inversion Hl; subst. specialize (Hb c' w0 E). lia.
Qed.

Lemma new_bounded N : bounded (new N).
Proof. intros c w. unfold new; simpl. rewrite lookup_empty. discriminate. Qed.

Lemma step_maxMessages rl call : maxMessages (step rl call) = maxMessages rl.
Proof. destruct call; simpl; [apply allow_maxMessages | reflexivity..]. Qed.

Lemma step_bounded rl call :
  0 <= maxMessages rl -> bounded rl -> bounded (step rl call).
Proof.
  destruct call; simpl; intros.
  - apply allow_bounded; assumption.
  - apply remove_bounded; assumption.
  - apply cleanup_bounded; assumption.
Qed.

Lemma step_windowMs rl call : windowMs (step rl call) = windowMs rl.
Proof. destruct call; simpl; [apply allow_windowMs | reflexivity..]. Qed.

(** The window is one second in every state a limiter reaches. *)
Lemma run_windowMs calls N : windowMs (run calls (new N)) = 1000.
Proof.
  change 1000 with (windowMs (new N)). generalize (new N).
  induction calls as [|call calls IH]; simpl; intros rl; [reflexivity|].
  rewrite IH. apply step_windowMs.
Qed.

Lemma run_bounded calls rl :
  0 <= maxMessages rl -> bounded rl ->
  bounded (run calls rl) /\ maxMessages (run calls rl) = maxMessages rl.
Proof.
  revert rl. induction calls as [|call calls IH]; simpl; intros rl Hmax Hb.
  - split; [assumption | reflexivity].
  - destruct (IH (step rl call)) as [H1 H2].
    + rewrite step_maxMessages; assumption.
    + apply step_bounded; assumption.
    + split; [exact H1 | rewrite H2; apply step_maxMessages].
Qed.

Lemma live_count_app cutoff w1 w2 :
  live_count cutoff (w1 ++ w2) = live_count cutoff w1 + live_count cutoff w2.
Proof. unfold live_count. rewrite List.filter_app, length_app. lia. Qed.

Lemma live_count_old cutoff w :
  Forall (fun t => t < cutoff) w -> live_count cutoff w = 0.
Proof.
  unfold live_count. induction 1 as [|t w Ht _ IH]; simpl; [reflexivity|].
  destruct (Z.leb_spec cutoff t); [lia | exact IH].
Qed.

Lemma live_count_le_length cutoff w : live_count cutoff w <= Z.of_nat (length w).
Proof.
  unfold live_count. induction w as [|t w IH]; simpl; [lia|].
  destruct (cutoff <=? t); simpl; lia.
Qed.

(** A window whose entries are all live is left alone by the loop. *)
Lemma prune_all_live cutoff w :
  live_count cutoff w = Z.of_nat (length w) -> prune cutoff w = w.
Proof.
  destruct w as [|t w]; simpl; [reflexivity|]. unfold live_count; simpl.
  destruct (Z.leb_spec cutoff t) as [Hle|Hlt].
  - destruct (Z.ltb_spec t cutoff); [lia | reflexivity].
  - pose proof (live_count_le_length cutoff w) as H. unfold live_count in H.
    simpl. lia.
Qed.

Lemma live_count_prune cutoff cutoff' w :
  cutoff' <= cutoff -> live_count cutoff (prune cutoff' w) = live_count cutoff w.
Proof.
  intros Hle. destruct (prune_split cutoff' w) as (old & Hw & Hold).
  rewrite Hw at 2. rewrite live_count_app, (live_count_old cutoff old); [lia|].
  eapply Forall_impl; [exact Hold | simpl; intros; lia].
Qed.

Lemma window_of_allow c now rl :
  window_of c (snd (allow c now rl)) =
    prune (now - windowMs rl) (window_of c rl)
      ++ (if fst (allow c now rl) then [now] else []).
Proof.
  unfold allow, window_of.
  destruct (_ >=? _); simpl; rewrite lookup_insert_eq; simpl;
    [rewrite app_nil_r|]; reflexivity.
Qed.

Lemma allow_each_invariants c times rl :
  0 <= maxMessages rl -> bounded rl ->
  bounded (snd (allow_each c times rl))
  /\ maxMessages (snd (allow_each c times rl)) = maxMessages rl
  /\ windowMs (snd (allow_each c times rl)) = windowMs rl.
Proof.
  revert rl. induction times as [|t times IH]; simpl; intros rl Hmax Hb.
  - auto.
  - pose proof (allow_bounded c t rl Hmax Hb) as Hb1.
    pose proof (allow_maxMessages c t rl) as Hm1.
    pose proof (allow_windowMs c t rl) as Hw1.
    destruct (allow c t rl) as [ok rl1]; simpl in *.
    destruct (IH rl1) as (H1 & H2 & H3); [lia | assumption |].
    destruct (allow_each c times rl1) as [oks rl2]; simpl in *.
    repeat split; [assumption | congruence | congruence].
Qed.

(** Every call admitted at [cutoff] or later is still in the stored window,
    as long as no call was made later than [cutoff + windowMs]. *)
Lemma allow_each_live c cutoff times rl :
  (forall t, In t times -> t - windowMs rl <= cutoff) ->
  live_count cutoff (window_of c rl)
    + admitted_since cutoff times (fst (allow_each c times rl))
  <= live_count cutoff (window_of c (snd (allow_each c times rl))).
Proof.
  revert rl. induction times as [|t times IH]; simpl; intros rl Hle; [lia|].
  pose proof (window_of_allow c t rl) as Hw.
  pose proof (allow_windowMs c t rl) as Hms.
  destruct (allow c t rl) as [ok rl1]; simpl in *.
  specialize (IH rl1). rewrite Hms in IH.
  specialize (IH (fun t' H => Hle t' (or_intror H))).
  destruct (allow_each c times rl1) as [oks rl2]; simpl in *.
  rewrite Hw, live_count_app, live_count_prune in IH
    by (apply Hle; left; reflexivity).
  assert (Hone : (if ok && (cutoff <=? t) then 1 else 0)
                 <= live_count cutoff (if ok then [t] else [])).
  { destruct ok; simpl; unfold live_count; simpl;
      destruct (cutoff <=? t); simpl; lia. }
  lia.
Qed.

(** C2.  Take a limiter built with a maximum N > 0, in whatever state a
    sequence of calls has left it.  After any run of [allow] calls for a
    client, none made later than [now], in which N or more calls at
    [now - 1000] or later were admitted, the call at [now] returns false
    and leaves the limiter as it was (the attempt is not recorded); and
    at a time [later] by which every stored timestamp of the client is
    more than 1000 ms old, [allow] returns true and the stored window is
    exactly [[later]]. *)
Theorem allow_rejects_full_window_then_recovers
    (N : Z) (calls : list Call) (c : string) (times : list Z)
    (now later : Z) :
  0 < N ->
  let rl0 := run calls (new N) in
  (forall t, In t times -> t <= now) ->
  N <= admitted_since (now - 1000) times (fst (allow_each c times rl0)) ->
  (forall t, In t (window_of c (snd (allow_each c times rl0))) ->
             t < later - 1000) ->
  let rl1 := snd (allow_each c times rl0) in
  allow c now rl1 = (false, rl1)
  /\ allow c later rl1
     = (true, with_windows (<[c := [later]]> (windows rl1)) rl1).
Proof.
  intros HN rl0 Hnow Hadm Hlater rl1.
  assert (Hms : windowMs rl0 = 1000) by apply run_windowMs.
  destruct (run_bounded calls (new N)) as [Hb Hmax];
    [simpl; lia | apply new_bounded |]. fold rl0 in Hb, Hmax.
  change (maxMessages (new N)) with N in Hmax.
  assert (Hpos : 0 < maxMessages rl0) by lia.
  rewrite <- Hmax in Hadm.
  destruct (allow_each_invariants c times rl0) as (Hb1 & Hm1 & Hw1);
    [lia | assumption |]. fold rl1 in Hb1, Hm1, Hw1, Hlater.
  pose proof (allow_each_live c (now - 1000) times rl0) as Hlive.
  fold rl1 in Hlive. rewrite Hms in Hlive.
  specialize (Hlive (fun t H => ltac:(specialize (Hnow t H); lia))).
  assert (0 <= live_count (now - 1000) (window_of c rl0))
    by (unfold live_count; lia).
  pose proof (live_count_le_length (now - 1000) (window_of c rl1)) as Hle.
  destruct (windows rl1 !! c) as [w|] eqn:Ew.
  - assert (Hwin : window_of c rl1 = w) by (unfold window_of; rewrite Ew; reflexivity).
    rewrite Hwin in *. specialize (Hb1 c w Ew).
    split.
    + unfold allow. rewrite Ew, Hw1, Hms; simpl.
      rewrite prune_all_live by lia.
      destruct (Z.geb_spec (Z.of_nat (length w)) (maxMessages rl1)); [|lia].
      rewrite insert_id by assumption. rewrite with_windows_id. reflexivity.
    + unfold allow. rewrite Ew, Hw1, Hms; simpl.
      rewrite prune_all_old by assumption. simpl.
      destruct (Z.geb_spec (Z.of_nat 0) (maxMessages rl1)); [lia | reflexivity].
  - assert (Hwin : window_of c rl1 = [])
      by (unfold window_of; rewrite Ew; reflexivity).
    rewrite Hwin in Hlive. change (live_count (now - 1000) []) with 0 in Hlive.
    lia.
Qed.

Lemma allow_rejects_full_window_then_recovers_witness :
  fst (allow_each "a" Scenario.burst Scenario.limiter) = [true; true; false]
  /\ allow "a" 500 (snd (allow_each "a" Scenario.burst Scenario.limiter))
     = (false, snd (allow_each "a" Scenario.burst Scenario.limiter))
  /\ fst (allow "a" 2000 (snd (allow_each "a" Scenario.burst Scenario.limiter)))
     = true.
Proof.
  destruct (allow_rejects_full_window_then_recovers
              2 [] "a" Scenario.burst 500 2000) as [H1 H2].
  - lia.
  - simpl. intros t [<-|[<-|[<-|[]]]]; lia.
  - vm_compute. discriminate.
  - vm_compute. intros t [<-|[<-|[]]]; reflexivity.
  - split; [reflexivity | split; [exact H1 | exact (f_equal fst H2)]].
Defined.

(** C9.  Whatever sequence of [allow], [remove] and [cleanup] calls a
    limiter built with a maximum N >= 0 receives, at whatever clock
    readings, no client's stored window ever holds more than N
    timestamps. *)
Theorem window_never_exceeds_max
    (N : Z) (calls : list Call) (clientId : string) (w : list Z) :
  0 <= N ->
  windows (run calls (new N)) !! clientId = Some w ->
  Z.of_nat (length w) <= N.
Proof.
  intros HN Hl.
  destruct (run_bounded calls (new N) HN (new_bounded N)) as [Hb Hm].
  specialize (Hb clientId w Hl). rewrite Hm in Hb. exact Hb.
Qed.

Lemma window_never_exceeds_max_witness :
  windows (run Scenario.limiter_calls (new 2)) !! "a" = Some [1; 1001]
  /\ Z.of_nat (length [1; 1001]) <= 2.
Proof.
  assert (H : windows (run Scenario.limiter_calls (new 2)) !! "a"
              = Some [1; 1001]) by reflexivity.
  split; [exact H|].
  apply (window_never_exceeds_max 2 Scenario.limiter_calls "a" [1; 1001]);
    [lia | exact H].
Defined.

(** *** Admissions in a run of calls *)

Lemma window_of_cleanup c now rl :
  window_of c (cleanup now rl) = prune (now - windowMs rl) (window_of c rl).
Proof.
  unfold window_of, cleanup. simpl. rewrite lookup_omap.
  destruct (windows rl !! c) as [w|]; simpl; [|reflexivity].
  destruct (prune _ w); reflexivity.
Qed.

Lemma step_live c cutoff call rl :
  removes c call = false ->
  (forall t, clock_of call = Some t -> t - windowMs rl <= cutoff) ->
  live_count cutoff (window_of c rl)
    + admitted_in_run c cutoff [call] rl
  = live_count cutoff (window_of c (step rl call)).
Proof.
  intros Hr Ht. destruct call as [c' t|c'|t]; simpl in *.
  - specialize (Ht t eq_refl).
    destruct (String.eqb_spec c' c) as [->|Hne]; simpl.
    + rewrite window_of_allow, live_count_app, live_count_prune by exact Ht.
      destruct (fst (allow c t rl)); simpl; unfold live_count; simpl;
        destruct (cutoff <=? t); simpl; lia.
    + unfold window_of at 2, allow.
      destruct (_ >=? _); simpl; rewrite lookup_insert_ne by exact Hne;
        fold (window_of c rl); lia.
  - apply String.eqb_neq in Hr. unfold window_of at 2, remove. simpl.
    rewrite lookup_delete_ne by exact Hr. fold (window_of c rl). lia.
  - rewrite window_of_cleanup, live_count_prune by (apply Ht; reflexivity). lia.
Qed.

Lemma run_live c cutoff calls rl :
  (forall call, In call calls -> removes c call = false) ->
  (forall t, In t (clocks calls) -> t - windowMs rl <= cutoff) ->
  live_count cutoff (window_of c rl) + admitted_in_run c cutoff calls rl
  = live_count cutoff (window_of c (run calls rl)).
Proof.
  revert rl. induction calls as [|call calls IH]; intros rl Hr Ht.
  - simpl. lia.
  - pose proof (step_live c cutoff call rl (Hr call (or_introl eq_refl))) as Hs.
    assert (Hclock : forall t, clock_of call = Some t -> t - windowMs rl <= cutoff).
    { intros t E. apply Ht. unfold clocks. simpl. rewrite E. left. reflexivity. }
    specialize (Hs Hclock).
    specialize (IH (step rl call) (fun call' H => Hr call' (or_intror H))).
    rewrite step_windowMs in IH.
    assert (Hrest : forall t, In t (clocks calls) -> t - windowMs rl <= cutoff).
    { intros t Hin. apply Ht. unfold clocks. simpl.
      destruct (clock_of call); [right|]; exact Hin. }
    specialize (IH Hrest).
    change (run (call :: calls) rl) with (run calls (step rl call)).
    cbn [admitted_in_run] in Hs |- *. lia.
Qed.

(** X1.  Take a limiter built with a maximum N >= 0, in whatever state a
    sequence of calls has left it, and any further run of calls ([allow]
    and [remove] for any client, [cleanup]) that does not remove client
    [c] and reads no clock later than [now].  Of the [allow] calls of
    that run for [c] made at [now - 1000] or later, at most N returned
    true, whatever the order of the clock readings. *)
Theorem never_admits_more_than_max
    (N : Z) (before calls : list Call) (c : string) (now : Z) :
  0 <= N ->
  (forall call, In call calls -> removes c call = false) ->
  (forall t, In t (clocks calls) -> t <= now) ->
  admitted_in_run c (now - 1000) calls (run before (new N)) <= N.
Proof.
  intros HN Hr Ht. set (rl0 := run before (new N)).
  pose proof (run_live c (now - 1000) calls rl0 Hr) as Hlive.
  assert (Hms : windowMs rl0 = 1000) by apply run_windowMs.
  rewrite Hms in Hlive.
  specialize (Hlive (fun t H => ltac:(specialize (Ht t H); lia))).
  assert (0 <= live_count (now - 1000) (window_of c rl0))
    by (unfold live_count; lia).
  pose proof (live_count_le_length (now - 1000) (window_of c (run calls rl0))) as Hle.
  destruct (run_bounded (before ++ calls) (new N)) as [Hb Hm];
    [simpl; lia | apply new_bounded |].
  unfold run in Hb, Hm. rewrite fold_left_app in Hb, Hm.
  fold (run before (new N)) in Hb, Hm. fold rl0 in Hb, Hm.
  fold (run calls rl0) in Hb, Hm.
  assert (Z.of_nat (length (window_of c (run calls rl0))) <= N).
  { unfold window_of. destruct (windows (run calls rl0) !! c) as [w|] eqn:E; simpl; [|lia].
    specialize (Hb c w E). simpl in Hm. lia. }
  lia.
Qed.

Lemma never_admits_more_than_max_witness :
  admitted_in_run "a" (900 - 1000) Scenario.mixed_calls (run [] (new 2)) = 2
  /\ admitted_in_run "a" (900 - 1000) Scenario.mixed_calls (run [] (new 2)) <= 2.
Proof.
  split; [reflexivity|].
  apply (never_admits_more_than_max 2 [] Scenario.mixed_calls "a" 900).
  - lia.
  - intros call Hin. simpl in Hin.
    repeat (destruct Hin as [<-|Hin]; [reflexivity|]). destruct Hin.
  - intros t Hin. simpl in Hin.
    repeat (destruct Hin as [<-|Hin]; [lia|]). destruct Hin.
Defined.

(** *** Other traffic *)

Lemma prune_prune c1 c2 w : c1 <= c2 -> prune c2 (prune c1 w) = prune c2 w.
Proof.
  intros Hle. induction w as [|t w IH]; simpl; [reflexivity|].
  destruct (Z.ltb_spec t c1) as [Hlt|Hge].
  - destruct (Z.ltb_spec t c2); [exact IH | lia].
  - reflexivity.
Qed.

Lemma allow_fst c now rl :
  fst (allow c now rl)
  = (Z.of_nat (length (prune (now - windowMs rl) (window_of c rl)))
       <? maxMessages rl).
Proof.
  unfold allow, window_of. rewrite Z.geb_leb, Z.ltb_antisym.
  destruct (_ <=? _); reflexivity.
Qed.

Lemma pruned_window_step c now call rl :
  names c call = false ->
  (forall t, clock_of call = Some t -> t <= now) ->
  prune (now - windowMs rl) (window_of c (step rl call))
  = prune (now - windowMs rl) (window_of c rl).
Proof.
  intros Hn Ht. destruct call as [c' t|c'|t]; simpl in *.
  - apply String.eqb_neq in Hn. unfold window_of at 1, allow.
    destruct (_ >=? _); simpl; rewrite lookup_insert_ne by exact Hn; reflexivity.
  - apply String.eqb_neq in Hn. unfold window_of at 1, remove. simpl.
    rewrite lookup_delete_ne by exact Hn. reflexivity.
  - rewrite window_of_cleanup. apply prune_prune. specialize (Ht t eq_refl). lia.
Qed.

Lemma pruned_window_run c now calls rl :
  (forall call, In call calls -> names c call = false) ->
  (forall t, In t (clocks calls) -> t <= now) ->
  prune (now - windowMs rl) (window_of c (run calls rl))
  = prune (now - windowMs rl) (window_of c rl)
  /\ windowMs (run calls rl) = windowMs rl
  /\ maxMessages (run calls rl) = maxMessages rl.
Proof.
  revert rl. induction calls as [|call calls IH]; intros rl Hn Ht; [auto|].
  change (run (call :: calls) rl) with (run calls (step rl call)).
  destruct (IH (step rl call)) as (H1 & H2 & H3).
  - intros call' H. apply Hn. right. exact H.
  - intros t Hin. apply Ht. unfold clocks. simpl.
    destruct (clock_of call); [right|]; exact Hin.
  - rewrite step_windowMs in H1, H2. rewrite step_maxMessages in H3.
    split; [|auto]. rewrite H1. apply pruned_window_step.
    + apply Hn. left. reflexivity.
    + intros t E. apply Ht. unfold clocks. simpl. rewrite E. left. reflexivity.
Qed.

(** X2.  What [allow] answers a client, and the window it then stores
    for that client, do not depend on the calls made in between that do
    not name the client: [allow] and [remove] for other clients, and
    [cleanup], none of them reading a clock later than the call's own. *)
Theorem allow_ignores_other_traffic
    (rl : RateLimiter) (calls : list Call) (c : string) (now : Z) :
  (forall call, In call calls -> names c call = false) ->
  (forall t, In t (clocks calls) -> t <= now) ->
  fst (allow c now (run calls rl)) = fst (allow c now rl)
  /\ window_of c (snd (allow c now (run calls rl)))
     = window_of c (snd (allow c now rl)).
Proof.
  intros Hn Ht.
  destruct (pruned_window_run c now calls rl Hn Ht) as (Hp & Hw & Hm).
  assert (Hfst : fst (allow c now (run calls rl)) = fst (allow c now rl)).
  { rewrite !allow_fst, Hw, Hm, Hp. reflexivity. }
  split; [exact Hfst|].
  rewrite !window_of_allow, Hfst, Hw, Hp. reflexivity.
Qed.

Lemma allow_ignores_other_traffic_witness :
  fst (allow "a" 20 (run Scenario.other_traffic Scenario.limiter_full)) = false
  /\ fst (allow "a" 20 Scenario.limiter_full) = false
  /\ window_of "a"
       (snd (allow "a" 20 (run Scenario.other_traffic Scenario.limiter_full)))
     = [0; 10].
Proof.
  destruct (allow_ignores_other_traffic Scenario.limiter_full
              Scenario.other_traffic "a" 20) as [H1 H2].
  - intros call Hin. simpl in Hin.
    repeat (destruct Hin as [<-|Hin]; [reflexivity|]). destruct Hin.
  - intros t Hin. simpl in Hin.
    repeat (destruct Hin as [<-|Hin]; [lia|]). destruct Hin.
  - split; [rewrite H1; reflexivity|]. split; [reflexivity|].
    rewrite H2. reflexivity.
Defined.

(** *** A clock that never runs backwards *)

Lemma nondecreasing_cons a l :
  nondecreasing (a :: l) = true <->
  nondecreasing l = true /\ forall t, In t l -> a <= t.
Proof.
  revert a. induction l as [|b l IH]; intros a.
  - simpl. split; [intros _; split; [reflexivity | intros t []] | reflexivity].
  - change (nondecreasing (a :: b :: l))
      with ((a <=? b) && nondecreasing (b :: l)).
    rewrite andb_true_iff, Z.leb_le. split.
    + intros [Hab Hs]. split; [exact Hs|]. intros t [<-|Hin]; [exact Hab|].
      apply IH in Hs as [_ Hs]. specialize (Hs t Hin). lia.
    + intros [Hs Hall]. split; [apply Hall; left; reflexivity | exact Hs].
Qed.

Lemma nondecreasing_snoc l T :
  nondecreasing (l ++ [T]) = true <->
  nondecreasing l = true /\ forall t, In t l -> t <= T.
Proof.
  induction l as [|a l IH].
  - simpl. split; [intros _; split; [reflexivity | intros t []] | reflexivity].
  - change ((a :: l) ++ [T]) with (a :: (l ++ [T])).
    rewrite !nondecreasing_cons, IH. split.
    + intros [[Hs Hle] Ha]. split; [split; [exact Hs|]|].
      * intros t Hin. apply Ha. apply in_or_app. left. exact Hin.
      * intros t [<-|Hin]; [apply Ha, in_or_app; right; left; reflexivity | auto].
    + intros [[Hs Ha] Hle]. split; [split; [exact Hs | intros t Hin; apply Hle; right; exact Hin]|].
      intros t Hin. apply in_app_or in Hin as [Hin|[<-|[]]]; [auto|].
      apply Hle. left. reflexivity.
Qed.

Lemma prune_sorted cutoff w :
  nondecreasing w = true ->
  nondecreasing (prune cutoff w) = true
  /\ (forall t, In t (prune cutoff w) -> In t w /\ cutoff <= t).
Proof.
  induction w as [|a w IH]; intros Hs.
  - split; [reflexivity | intros t []].
  - simpl. apply nondecreasing_cons in Hs as Hs'. destruct Hs' as [Hw Ha].
    destruct (Z.ltb_spec a cutoff) as [Hlt|Hge].
    + destruct (IH Hw) as [H1 H2]. split; [exact H1|].
      intros t Hin. destruct (H2 t Hin). split; [right|]; assumption.
    + split; [exact Hs|]. intros t Hin. split; [exact Hin|].
      destruct Hin as [<-|Hin]; [exact Hge|]. specialize (Ha t Hin). lia.
Qed.

Lemma in_order_later T T' rl : T <= T' -> in_order T rl -> in_order T' rl.
Proof.
  intros Hle H c w Hw. specialize (H c w Hw).
  apply nondecreasing_snoc in H as [Hs Hall]. apply nondecreasing_snoc.
  split; [exact Hs|]. intros t Hin. specialize (Hall t Hin). lia.
Qed.

Lemma in_order_window T c rl :
  in_order T rl -> nondecreasing (window_of c rl ++ [T]) = true.
Proof.
  intros H. unfold window_of. destruct (windows rl !! c) as [w|] eqn:E; simpl.
  - apply (H c w E).
  - reflexivity.
Qed.

Lemma pruned_in_order cutoff T w :
  nondecreasing (w ++ [T]) = true ->
  nondecreasing (prune cutoff w ++ [T]) = true.
Proof.
  intros H. apply nondecreasing_snoc in H as [Hs Hall].
  destruct (prune_sorted cutoff w Hs) as [H1 H2].
  apply nondecreasing_snoc. split; [exact H1|].
  intros t Hin. apply Hall. apply (H2 t Hin).
Qed.

Lemma step_in_order T call rl :
  in_order T rl ->
  (forall t, clock_of call = Some t -> T <= t) ->
  in_order (default T (clock_of call)) (step rl call).
Proof.
  intros Hinv Ht. destruct call as [c t|c|t]; simpl.
  - specialize (Ht t eq_refl).
    pose proof (in_order_later T t rl Ht Hinv) as Hinv'.
    intros c' w'. unfold allow.
    pose proof (pruned_in_order (t - windowMs rl) t _ (in_order_window t c rl Hinv')) as Hp.
    fold (window_of c rl).
    destruct (_ >=? _); simpl; intros Hl.
    + apply lookup_insert_Some in Hl as [[_ <-]|[_ Hl]]; [exact Hp | eapply Hinv'; exact Hl].
    + apply lookup_insert_Some in Hl as [[_ <-]|[_ Hl]]; [|eapply Hinv'; exact Hl].
      apply nondecreasing_snoc. split; [exact Hp|].
      intros x Hin. apply nondecreasing_snoc in Hp as [_ Hall].
      apply in_app_or in Hin as [Hin|[<-|[]]]; [auto | lia].
  - intros c' w'. unfold remove. simpl. intros Hl.
    apply lookup_delete_Some in Hl as [_ Hl]. eapply Hinv. exact Hl.
  - specialize (Ht t eq_refl).
    pose proof (in_order_later T t rl Ht Hinv) as Hinv'.
    intros c' w'. unfold cleanup. simpl. rewrite lookup_omap.
    destruct (windows rl !! c') as [w0|] eqn:E; simpl; [|discriminate].
    pose proof (pruned_in_order (t - windowMs rl) t w0 (Hinv' c' w0 E)) as Hp.
    destruct (prune _ w0); [discriminate|]. intros [= <-]. exact Hp.
Qed.

Lemma run_in_order calls : forall T now rl,
  in_order T rl ->
  nondecreasing (T :: clocks calls ++ [now]) = true ->
  in_order now (run calls rl).
Proof.
  induction calls as [|call calls IH]; intros T now rl Hinv Hs.
  - simpl in *. apply (in_order_later T); [|exact Hinv].
    apply andb_true_iff in Hs as [Hs _]. apply Z.leb_le. exact Hs.
  - change (run (call :: calls) rl) with (run calls (step rl call)).
    unfold clocks in Hs. simpl in Hs. fold (clocks calls) in Hs.
    destruct (clock_of call) as [t|] eqn:E.
    + change (T :: (t :: clocks calls) ++ [now])
        with (T :: t :: (clocks calls ++ [now])) in Hs.
      change (nondecreasing (T :: t :: clocks calls ++ [now]))
        with ((T <=? t) && nondecreasing (t :: clocks calls ++ [now])) in Hs.
      apply andb_true_iff in Hs as [Hle Hs]. apply Z.leb_le in Hle.
      apply (IH t); [|exact Hs].
      pose proof (step_in_order T call rl Hinv) as H. rewrite E in H. simpl in H.
      apply H. intros t' [= <-]. exact Hle.
    + apply (IH T); [|exact Hs].
      pose proof (step_in_order T call rl Hinv) as H. rewrite E in H. simpl in H.
      apply H. intros t' [=].
Qed.

Lemma new_in_order T N : in_order T (new N).
Proof. intros c w. unfold new; simpl. rewrite lookup_empty. discriminate. Qed.

(** X3.  When the clock never runs backwards over the calls a new limiter
    receives, every timestamp that [allow] at [now] leaves stored for its
    client lies in the second that ends at [now]; and after [cleanup] at
    [now] no client has an empty window left and every stored timestamp
    of every client lies in that second. *)
Theorem monotone_clock_keeps_trailing_second
    (N : Z) (calls : list Call) (c : string) (now : Z) :
  nondecreasing (clocks calls ++ [now]) = true ->
  let rl := run calls (new N) in
  (forall t, In t (window_of c (snd (allow c now rl))) ->
             now - 1000 <= t <= now)
  /\ (forall c' w, windows (cleanup now rl) !! c' = Some w ->
        w <> [] /\ forall t, In t w -> now - 1000 <= t <= now).
Proof.
  intros Hs rl.
  assert (Hinv : in_order now rl).
  { destruct (clocks calls ++ [now]) as [|h l] eqn:E.
    - destruct (clocks calls); discriminate.
    - apply (run_in_order calls h now); [apply new_in_order|].
      rewrite E. apply nondecreasing_cons. split; [exact Hs|].
      intros t [<-|Hin]; [lia|]. apply nondecreasing_cons in Hs as [_ Hs]. auto. }
  assert (Hms : windowMs rl = 1000) by apply run_windowMs.
  assert (Hrange : forall w, nondecreasing (w ++ [now]) = true ->
            forall t, In t (prune (now - 1000) w) -> now - 1000 <= t <= now).
  { intros w Hw t Hin. apply nondecreasing_snoc in Hw as [Hw Hall].
    destruct (prune_sorted (now - 1000) w Hw) as [_ H].
    destruct (H t Hin) as [Hin' Hge]. specialize (Hall t Hin'). lia. }
  split.
  - intros t. rewrite window_of_allow, Hms. intros Hin.
    apply in_app_or in Hin as [Hin|Hin].
    + apply (Hrange _ (in_order_window now c rl Hinv)). exact Hin.
    + destruct (fst (allow c now rl)); [destruct Hin as [<-|[]]; lia | destruct Hin].
  - intros c' w. unfold cleanup. simpl. rewrite lookup_omap, Hms.
    destruct (windows rl !! c') as [w0|] eqn:E; simpl; [|discriminate].
    pose proof (Hrange w0 (Hinv c' w0 E)) as Hr.
    destruct (prune (now - 1000) w0) as [|a l]; [discriminate|].
    intros [= <-]. split; [discriminate | exact Hr].
Qed.

Lemma monotone_clock_keeps_trailing_second_witness :
  window_of "a" (snd (allow "a" 1005 (run Scenario.mixed_calls (new 2))))
  = [10; 1005]
  /\ forall t,
       In t (window_of "a"
               (snd (allow "a" 1005 (run Scenario.mixed_calls (new 2))))) ->
       1005 - 1000 <= t <= 1005.
Proof.
  split; [reflexivity|].
  apply (monotone_clock_keeps_trailing_second 2 Scenario.mixed_calls "a" 1005).
  reflexivity.
Defined.


Lemma live_count_all cutoff w :
  (forall t, In t w -> cutoff <= t) -> live_count cutoff w = Z.of_nat (length w).
Proof.
  unfold live_count. induction w as [|a w IH]; intros H; [reflexivity|].
  cbn [List.filter]. destruct (Z.leb_spec cutoff a) as [_|Hlt].
  - cbn [length]. rewrite !Nat2Z.inj_succ.
    rewrite IH by (intros; apply H; right; assumption). reflexivity.
  - specialize (H a (or_introl eq_refl)). lia.
Qed.

Lemma length_prune_sorted cutoff w :
  nondecreasing w = true ->
  Z.of_nat (length (prune cutoff w)) = live_count cutoff w.
Proof.
  intros Hs. rewrite <- (live_count_prune cutoff cutoff w) by lia.
  symmetry. apply live_count_all. intros t Hin.
  apply (prune_sorted cutoff w Hs). exact Hin.
Qed.

(** X4.  When the clock never runs backwards and the client has not been
    removed, [allow] at [now] returns true exactly when fewer than N of
    the client's earlier calls made at [now - 1000] or later were
    admitted. *)
Theorem admitted_iff_budget_left
    (N : Z) (calls : list Call) (c : string) (now : Z) :
  nondecreasing (clocks calls ++ [now]) = true ->
  (forall call, In call calls -> removes c call = false) ->
  fst (allow c now (run calls (new N)))
  = (admitted_in_run c (now - 1000) calls (new N) <? N).
Proof.
  intros Hs Hr. set (rl := run calls (new N)).
  assert (Hinv : in_order now rl).
  { destruct (clocks calls ++ [now]) as [|h l] eqn:E.
    - destruct (clocks calls); discriminate.
    - apply (run_in_order calls h now); [apply new_in_order|].
      rewrite E. apply nondecreasing_cons. split; [exact Hs|].
      intros t [<-|Hin]; [lia|]. apply nondecreasing_cons in Hs as [_ Hs]. auto. }
  assert (Hms : windowMs rl = 1000) by apply run_windowMs.
  assert (Hmax : maxMessages rl = N).
  { unfold rl. clear. change N with (maxMessages (new N)) at 2.
    generalize (new N). induction calls as [|call calls IH]; intros r; [reflexivity|].
    simpl. unfold run in IH. rewrite IH. apply step_maxMessages. }
  rewrite allow_fst, Hms, Hmax.
  pose proof (in_order_window now c rl Hinv) as Hw.
  apply nondecreasing_snoc in Hw as [Hw _].
  rewrite (length_prune_sorted _ _ Hw).
  apply nondecreasing_snoc in Hs as [_ Hle].
  pose proof (run_live c (now - 1000) calls (new N) Hr) as Hlive.
  change (windowMs (new N)) with 1000 in Hlive.
  fold rl in Hlive.
  rewrite <- Hlive by (intros t Hin; specialize (Hle t Hin); lia).
  reflexivity.
Qed.

Lemma admitted_iff_budget_left_witness :
  fst (allow "a" 1005 (run Scenario.mixed_calls (new 2))) = true
  /\ admitted_in_run "a" (1005 - 1000) Scenario.mixed_calls (new 2) = 1.
Proof.
  split; [|reflexivity].
  rewrite (admitted_iff_budget_left 2 Scenario.mixed_calls "a" 1005).
  - reflexivity.
  - reflexivity.
  - intros call Hin. simpl in Hin.
    repeat (destruct Hin as [<-|Hin]; [reflexivity|]). destruct Hin.
Defined.

End RateLimitFacts.

(** ** Codec *)
Module MsgPackFacts.
Import MsgPack.

(** *** Big-endian integers *)

Lemma length_be k n : length (be k n) = k.
Proof.
  revert n. induction k as [|k IH]; simpl; intros n; [reflexivity|].
  rewrite length_app, IH. simpl. lia.
Qed.

Lemma rd_be_snoc l x : rd_be (l ++ [x]) = rd_be l * 256 + x.
Proof. unfold rd_be. rewrite fold_left_app. reflexivity. Qed.

Lemma rd_be_be k n : rd_be (be k n) = n mod 256 ^ Z.of_nat k.
Proof.
  revert n. induction k as [|k IH]; intros n.
  - simpl. rewrite Z.mod_1_r. reflexivity.
  - cbn [be]. rewrite rd_be_snoc, IH.
    rewrite Nat2Z.inj_succ, Z.pow_succ_r by lia.
    rewrite Z.rem_mul_r by lia. lia.
Qed.

Lemma rd_be_be_small k n :
  0 <= n < 256 ^ Z.of_nat k -> rd_be (be k n) = n.
Proof. intros H. rewrite rd_be_be. apply Z.mod_small. exact H. Qed.

Lemma mod_negative n m : - m <= n < 0 -> n mod m = n + m.
Proof.
  intros H. symmetry. apply (Z.mod_unique n m (-1)); lia.
Qed.

Lemma pow256 k : 256 ^ Z.of_nat k = 2 ^ (8 * Z.of_nat k).
Proof. change 256 with (2 ^ 8). rewrite <- Z.pow_mul_r by lia. reflexivity. Qed.

Lemma rd_be_signed_be k n :
  (0 < k)%nat ->
  - 2 ^ (8 * Z.of_nat k - 1) <= n < 2 ^ (8 * Z.of_nat k - 1) ->
  rd_be_signed k (be k n) = n.
Proof.
  intros Hk H. unfold rd_be_signed. rewrite rd_be_be, pow256.
  assert (Hp : 2 ^ (8 * Z.of_nat k) = 2 * 2 ^ (8 * Z.of_nat k - 1)).
  { rewrite <- Z.pow_succ_r by lia. f_equal. lia. }
  destruct (Z.neg_nonneg_cases n) as [Hneg|Hpos].
  - rewrite mod_negative by lia.
    destruct (Z.ltb_spec (n + 2 ^ (8 * Z.of_nat k)) (2 ^ (8 * Z.of_nat k - 1)));
      lia.
  - rewrite Z.mod_small by lia.
    destruct (Z.ltb_spec n (2 ^ (8 * Z.of_nat k - 1))); lia.
Qed.

(** *** Reading from the front of a buffer *)

Lemma take_bytes_app h r :
  take_bytes (Z.of_nat (length h)) (h ++ r) = Some (h, r).
Proof.
  unfold take_bytes. rewrite length_app, Nat2Z.id.
  destruct (Z.leb_spec 0 (Z.of_nat (length h))); [|lia].
  destruct (Z.leb_spec (Z.of_nat (length h)) (Z.of_nat (length h + length r)));
    [|lia].
  simpl. rewrite take_app_length, drop_app_length. reflexivity.
Qed.

Lemma take_bytes_length n bs h r :
  take_bytes n bs = Some (h, r) ->
  (length r <= length bs)%nat /\ bs = h ++ r /\ Z.of_nat (length h) = n.
Proof.
  unfold take_bytes.
  destruct (Z.leb_spec 0 n); [|discriminate].
  destruct (Z.leb_spec n (Z.of_nat (length bs))); [|discriminate].
  simpl. intros [= <- <-].
  rewrite length_drop, length_take, take_drop. split; [lia|]. split; [reflexivity|].
  lia.
Qed.

Lemma rd_uint_be k n r :
  0 <= n < 256 ^ Z.of_nat k -> rd_uint k (be k n ++ r) = Some (n, r).
Proof.
  intros H. unfold rd_uint.
  rewrite <- (length_be k n) at 1. rewrite take_bytes_app, rd_be_be_small by exact H.
  reflexivity.
Qed.

Lemma rd_int_be k n r :
  (0 < k)%nat ->
  - 2 ^ (8 * Z.of_nat k - 1) <= n < 2 ^ (8 * Z.of_nat k - 1) ->
  rd_int k (be k n ++ r) = Some (n, r).
Proof.
  intros Hk H. unfold rd_int.
  rewrite <- (length_be k n) at 1. rewrite take_bytes_app, rd_be_signed_be by assumption.
  reflexivity.
Qed.

(** *** Strings *)

Lemma length_str_bytes s : length (str_bytes s) = String.length s.
Proof.
  unfold str_bytes. rewrite length_map.
  induction s as [|a s IH]; simpl; [reflexivity | rewrite IH; reflexivity].
Qed.

Lemma bytes_str_bytes s : bytes_str (str_bytes s) = s.
Proof.
  unfold bytes_str, str_bytes. rewrite map_map.
  rewrite (map_ext _ (fun a => a)), map_id.
  - apply string_of_list_ascii_of_string.
  - intros a. rewrite N2Z.id. apply ascii_N_embedding.
Qed.

(** *** Heads *)

Ltac zif :=
  match goal with
  | |- context [if ?c then _ else _] =>
      let E := fresh "E" in
      destruct c eqn:E; [try (exfalso; lia) | try (exfalso; lia)]
  end.

Lemma hval_le v r h :
  hval v r = Some h -> (length (rest_of h) <= length r)%nat.
Proof. intros [= <-]. simpl. lia. Qed.

Lemma harr_le n r h :
  harr n r = Some h -> (length (rest_of h) <= length r)%nat.
Proof. intros [= <-]. simpl. lia. Qed.

Lemma hmap_le n r h :
  hmap n r = Some h -> (length (rest_of h) <= length r)%nat.
Proof. intros [= <-]. simpl. lia. Qed.

Lemma dec_str_le n r h :
  dec_str n r = Some h -> (length (rest_of h) <= length r)%nat.
Proof.
  unfold dec_str. destruct (take_bytes n r) as [[d r']|] eqn:E; [|discriminate].
  intros [= <-]. simpl. apply take_bytes_length in E. lia.
Qed.

Lemma dec_bin_le n r h :
  dec_bin n r = Some h -> (length (rest_of h) <= length r)%nat.
Proof.
  unfold dec_bin. destruct (take_bytes n r) as [[d r']|] eqn:E; [|discriminate].
  intros [= <-]. simpl. apply take_bytes_length in E. lia.
Qed.

Lemma with_uint_le k r f h :
  (forall n r', f n r' = Some h -> (length (rest_of h) <= length r')%nat) ->
  with_uint k r f = Some h -> (length (rest_of h) <= length r)%nat.
Proof.
  intros Hf. unfold with_uint, rd_uint.
  destruct (take_bytes _ r) as [[d r']|] eqn:E; [|discriminate].
  intros H. apply Hf in H. apply take_bytes_length in E. lia.
Qed.

Lemma with_int_le k r f h :
  (forall n r', f n r' = Some h -> (length (rest_of h) <= length r')%nat) ->
  with_int k r f = Some h -> (length (rest_of h) <= length r)%nat.
Proof.
  intros Hf. unfold with_int, rd_int.
  destruct (take_bytes _ r) as [[d r']|] eqn:E; [|discriminate].
  intros H. apply Hf in H. apply take_bytes_length in E. lia.
Qed.

Lemma dec_ext_le n r h :
  dec_ext n r = Some h -> (length (rest_of h) <= length r)%nat.
Proof.
  unfold dec_ext, rd_int.
  destruct (take_bytes _ r) as [[d r']|] eqn:E; [|discriminate].
  destruct (take_bytes n r') as [[d' r'']|] eqn:E'; [|discriminate].
  destruct (_ && _); [discriminate|]. intros [= <-]. simpl.
  apply take_bytes_length in E, E'. lia.
Qed.

Ltac leaf :=
  first [ discriminate
        | apply hval_le | apply harr_le | apply hmap_le
        | apply dec_str_le | apply dec_bin_le | apply dec_ext_le
        | (apply with_uint_le; intros ? ?; cbv beta; leaf)
        | (apply with_int_le; intros ? ?; cbv beta; leaf) ].

(** Every head takes at least its head byte. *)
Lemma dec_head_consumes bs h :
  dec_head bs = Some h -> (length (rest_of h) < length bs)%nat.
Proof.
  destruct bs as [|b r]; [discriminate|].
  cut (dec_head (b :: r) = Some h -> (length (rest_of h) <= length r)%nat).
  { intros H1 H2. specialize (H1 H2). simpl. lia. }
  unfold dec_head. repeat (destruct (_ : bool); [leaf|]). leaf.
Qed.

(** *** Fuel *)

Lemma dec_S F bs :
  dec (S F) bs =
    match dec_head bs with
    | Some (HVal v r) => Some (v, r)
    | Some (HArr n r) =>
        match dec_items F n r with
        | Some (l, r') => Some (JArr l, r')
        | None => None
        end
    | Some (HMap n r) =>
        match dec_pairs F n r with
        | Some (ps, r') => Some (JObj (build_obj ps), r')
        | None => None
        end
    | None => None
    end.
Proof. reflexivity. Qed.

Lemma dec_items_S F n bs :
  dec_items (S F) n bs =
    if n <=? 0 then Some ([], bs)
    else
      match dec F bs with
      | Some (v, r) =>
          match dec_items F (n - 1) r with
          | Some (l, r') => Some (v :: l, r')
          | None => None
          end
      | None => None
      end.
Proof. reflexivity. Qed.

Lemma dec_pairs_S F n bs :
  dec_pairs (S F) n bs =
    if n <=? 0 then Some ([], bs)
    else
      match dec F bs with
      | Some (key, r) =>
          match map_key key with
          | Some k =>
              match dec F r with
              | Some (v, r') =>
                  match dec_pairs F (n - 1) r' with
                  | Some (ps, r'') => Some ((k, v) :: ps, r'')
                  | None => None
                  end
              | None => None
              end
          | None => None
          end
      | None => None
      end.
Proof. reflexivity. Qed.

Lemma dec_items_O n bs :
  dec_items O n bs = if n <=? 0 then Some ([], bs) else None.
Proof. reflexivity. Qed.

Lemma dec_pairs_O n bs :
  dec_pairs O n bs = if n <=? 0 then Some ([], bs) else None.
Proof. reflexivity. Qed.

(** A value takes at least one byte; a sequence may take none. *)
Lemma dec_consumes F :
  (forall bs v r, dec F bs = Some (v, r) -> (length r < length bs)%nat)
  /\ (forall n bs l r,
        dec_items F n bs = Some (l, r) -> (length r <= length bs)%nat)
  /\ (forall n bs ps r,
        dec_pairs F n bs = Some (ps, r) -> (length r <= length bs)%nat).
Proof.
  induction F as [|F (IHd & IHi & IHp)].
  - split; [discriminate|]. split; intros n bs l r.
    + rewrite dec_items_O. destruct (n <=? 0); [|discriminate].
      intros [= <- <-]. lia.
    + rewrite dec_pairs_O. destruct (n <=? 0); [|discriminate].
      intros [= <- <-]. lia.
  - split; [|split].
    + intros bs v r. rewrite dec_S.
      destruct (dec_head bs) as [[v' r'|n r'|n r']|] eqn:E; [| | |discriminate];
        apply dec_head_consumes in E; simpl in E.
      * intros [= <- <-]. exact E.
      * destruct (dec_items F n r') as [[l r'']|] eqn:E'; [|discriminate].
        intros [= <- <-]. apply IHi in E'. lia.
      * destruct (dec_pairs F n r') as [[l r'']|] eqn:E'; [|discriminate].
        intros [= <- <-]. apply IHp in E'. lia.
    + intros n bs l r. rewrite dec_items_S.
      destruct (n <=? 0); [intros [= <- <-]; lia|].
      destruct (dec F bs) as [[v r1]|] eqn:E1; [|discriminate].
      destruct (dec_items F (n - 1) r1) as [[l' r2]|] eqn:E2; [|discriminate].
      intros [= <- <-]. apply IHd in E1. apply IHi in E2. lia.
    + intros n bs ps r. rewrite dec_pairs_S.
      destruct (n <=? 0); [intros [= <- <-]; lia|].
      destruct (dec F bs) as [[k r1]|] eqn:E1; [|discriminate].
      destruct (map_key k) as [name|]; [|discriminate].
      destruct (dec F r1) as [[v r2]|] eqn:E2; [|discriminate].
      destruct (dec_pairs F (n - 1) r2) as [[ps' r3]|] eqn:E3; [|discriminate].
      intros [= <- <-]. apply IHd in E1, E2. apply IHp in E3. lia.
Qed.

(** Beyond twice the length of the buffer, more fuel changes nothing. *)
Lemma dec_stable F :
  (forall bs, (2 * length bs < F)%nat -> dec (S F) bs = dec F bs)
  /\ (forall n bs, (2 * length bs + 1 < F)%nat ->
                   dec_items (S F) n bs = dec_items F n bs)
  /\ (forall n bs, (2 * length bs + 1 < F)%nat ->
                   dec_pairs (S F) n bs = dec_pairs F n bs).
Proof.
  induction F as [|F (IHd & IHi & IHp)].
  - repeat split; intros; lia.
  - destruct (dec_consumes F) as (Cd & Ci & Cp).
    split; [|split].
    + intros bs Hlen. rewrite (dec_S (S F)), (dec_S F).
      destruct (dec_head bs) as [[v' r'|n r'|n r']|] eqn:E; [| | |reflexivity];
        apply dec_head_consumes in E; simpl in E.
      * reflexivity.
      * rewrite IHi by lia. reflexivity.
      * rewrite IHp by lia. reflexivity.
    + intros n bs Hlen. rewrite (dec_items_S (S F)), (dec_items_S F).
      destruct (n <=? 0); [reflexivity|].
      rewrite IHd by lia.
      destruct (dec F bs) as [[v r1]|] eqn:E1; [|reflexivity].
      apply Cd in E1. rewrite IHi by lia. reflexivity.
    + intros n bs Hlen. rewrite (dec_pairs_S (S F)), (dec_pairs_S F).
      destruct (n <=? 0); [reflexivity|].
      rewrite IHd by lia.
      destruct (dec F bs) as [[k r1]|] eqn:E1; [|reflexivity].
      apply Cd in E1. destruct (map_key k) as [name|]; [|reflexivity].
      rewrite IHd by lia.
      destruct (dec F r1) as [[v r2]|] eqn:E2; [|reflexivity].
      apply Cd in E2. rewrite IHp by lia. reflexivity.
Qed.

(** The fuel that [decode] supplies is enough: no larger amount changes
    what comes out of a buffer. *)
Lemma dec_fuel_enough F bs :
  (fuel_for bs <= F)%nat -> dec F bs = dec (fuel_for bs) bs.
Proof.
  induction F as [|F IH]; intros HF; [unfold fuel_for in HF; lia|].
  destruct (Nat.eq_dec (S F) (fuel_for bs)) as [->|Hne]; [reflexivity|].
  rewrite <- IH by lia. apply dec_stable. unfold fuel_for in *. lia.
Qed.

(** *** What the decoder makes of the encoder's heads *)

Lemma tag_c0 r : dec_head (0xc0 :: r) = hval JNull r.
Proof. reflexivity. Qed.

Lemma tag_c2 r : dec_head (0xc2 :: r) = hval (JBool false) r.
Proof. reflexivity. Qed.

Lemma tag_c3 r : dec_head (0xc3 :: r) = hval (JBool true) r.
Proof. reflexivity. Qed.

Lemma tag_c4 r : dec_head (0xc4 :: r) = with_uint 1 r dec_bin.
Proof. reflexivity. Qed.

Lemma tag_c5 r : dec_head (0xc5 :: r) = with_uint 2 r dec_bin.
Proof. reflexivity. Qed.

Lemma tag_c6 r : dec_head (0xc6 :: r) = with_uint 4 r dec_bin.
Proof. reflexivity. Qed.

Lemma tag_c7 r : dec_head (0xc7 :: r) = with_uint 1 r dec_ext.
Proof. reflexivity. Qed.

Lemma tag_c8 r : dec_head (0xc8 :: r) = with_uint 2 r dec_ext.
Proof. reflexivity. Qed.

Lemma tag_c9 r : dec_head (0xc9 :: r) = with_uint 4 r dec_ext.
Proof. reflexivity. Qed.

Lemma tag_cb r : dec_head (0xcb :: r) = with_uint 8 r (fun b => hval (num_of_f64 b)).
Proof. reflexivity. Qed.

Lemma tag_cc r : dec_head (0xcc :: r) = with_uint 1 r (fun n => hval (num_of_int n)).
Proof. reflexivity. Qed.

Lemma tag_cd r : dec_head (0xcd :: r) = with_uint 2 r (fun n => hval (num_of_int n)).
Proof. reflexivity. Qed.

Lemma tag_ce r : dec_head (0xce :: r) = with_uint 4 r (fun n => hval (num_of_int n)).
Proof. reflexivity. Qed.

Lemma tag_cf r : dec_head (0xcf :: r) = with_uint 8 r (fun n => hval (num_of_int n)).
Proof. reflexivity. Qed.

Lemma tag_d0 r : dec_head (0xd0 :: r) = with_int 1 r (fun n => hval (num_of_int n)).
Proof. reflexivity. Qed.

Lemma tag_d1 r : dec_head (0xd1 :: r) = with_int 2 r (fun n => hval (num_of_int n)).
Proof. reflexivity. Qed.

Lemma tag_d2 r : dec_head (0xd2 :: r) = with_int 4 r (fun n => hval (num_of_int n)).
Proof. reflexivity. Qed.

Lemma tag_d3 r : dec_head (0xd3 :: r) = with_int 8 r (fun n => hval (num_of_int n)).
Proof. reflexivity. Qed.

Lemma tag_d4 r : dec_head (0xd4 :: r) = dec_ext 1 r.
Proof. reflexivity. Qed.

Lemma tag_d5 r : dec_head (0xd5 :: r) = dec_ext 2 r.
Proof. reflexivity. Qed.

Lemma tag_d6 r : dec_head (0xd6 :: r) = dec_ext 4 r.
Proof. reflexivity. Qed.

Lemma tag_d7 r : dec_head (0xd7 :: r) = dec_ext 8 r.
Proof. reflexivity. Qed.

Lemma tag_d8 r : dec_head (0xd8 :: r) = dec_ext 16 r.
Proof. reflexivity. Qed.

Lemma tag_d9 r : dec_head (0xd9 :: r) = with_uint 1 r dec_str.
Proof. reflexivity. Qed.

Lemma tag_da r : dec_head (0xda :: r) = with_uint 2 r dec_str.
Proof. reflexivity. Qed.

Lemma tag_db r : dec_head (0xdb :: r) = with_uint 4 r dec_str.
Proof. reflexivity. Qed.

Lemma tag_dc r : dec_head (0xdc :: r) = with_uint 2 r harr.
Proof. reflexivity. Qed.

Lemma tag_dd r : dec_head (0xdd :: r) = with_uint 4 r harr.
Proof. reflexivity. Qed.

Lemma tag_de r : dec_head (0xde :: r) = with_uint 2 r hmap.
Proof. reflexivity. Qed.

Lemma tag_df r : dec_head (0xdf :: r) = with_uint 4 r hmap.
Proof. reflexivity. Qed.

Lemma head_fixpos h r : 0 <= h < 0x80 -> dec_head (h :: r) = hval (JNum h) r.
Proof. intros H. unfold dec_head. repeat zif. reflexivity. Qed.

Lemma head_fixmap h r :
  0x80 <= h < 0x90 -> dec_head (h :: r) = hmap (h - 0x80) r.
Proof. intros H. unfold dec_head. repeat zif. reflexivity. Qed.

Lemma head_fixarray h r :
  0x90 <= h < 0xa0 -> dec_head (h :: r) = harr (h - 0x90) r.
Proof. intros H. unfold dec_head. repeat zif. reflexivity. Qed.

Lemma head_fixstr h r :
  0xa0 <= h < 0xc0 -> dec_head (h :: r) = dec_str (h - 0xa0) r.
Proof. intros H. unfold dec_head. repeat zif. reflexivity. Qed.

Lemma head_fixneg h r :
  0xe0 <= h < 0x100 -> dec_head (h :: r) = hval (JNum (h - 0x100)) r.
Proof. intros H. unfold dec_head. repeat zif. reflexivity. Qed.

Lemma with_uint_be k n r f :
  0 <= n < 256 ^ Z.of_nat k -> with_uint k (be k n ++ r) f = f n r.
Proof. intros H. unfold with_uint. rewrite rd_uint_be by exact H. reflexivity. Qed.

Lemma with_int_be k n r f :
  (0 < k)%nat ->
  - 2 ^ (8 * Z.of_nat k - 1) <= n < 2 ^ (8 * Z.of_nat k - 1) ->
  with_int k (be k n ++ r) f = f n r.
Proof.
  intros Hk H. unfold with_int. rewrite rd_int_be by assumption. reflexivity.
Qed.

Lemma lor_e0 x : 0 <= x < 32 -> Z.lor 0xe0 x = 0xe0 + x.
Proof.
  intros H.
  assert (Hx : exists k : nat, x = Z.of_nat k /\ (k < 32)%nat)
    by (exists (Z.to_nat x); lia).
  destruct Hx as (k & -> & Hk).
  do 32 (destruct k as [|k]; [reflexivity|]). lia.
Qed.

Lemma num_of_int_safe n : is_safe_integer n = true -> num_of_int n = JNum n.
Proof. unfold num_of_int. intros ->. reflexivity. Qed.

Lemma dec_head_enc_int n r :
  is_safe_integer n = true ->
  dec_head (enc_int n ++ r) = Some (HVal (JNum n) r).
Proof.
  intros Hs. pose proof Hs as Hr. unfold is_safe_integer, MAX_SAFE_INTEGER in Hr.
  unfold enc_int. repeat zif; cbn [app].
  - apply head_fixpos. lia.
  - rewrite tag_cc, (with_uint_be 1) by (change (256 ^ Z.of_nat 1) with 256; lia).
    unfold hval. rewrite num_of_int_safe by exact Hs. reflexivity.
  - rewrite tag_cd, (with_uint_be 2) by (change (256 ^ Z.of_nat 2) with 65536; lia).
    unfold hval. rewrite num_of_int_safe by exact Hs. reflexivity.
  - rewrite tag_ce, (with_uint_be 4)
      by (change (256 ^ Z.of_nat 4) with 4294967296; lia).
    unfold hval. rewrite num_of_int_safe by exact Hs. reflexivity.
  - rewrite tag_cf, (with_uint_be 8)
      by (change (256 ^ Z.of_nat 8) with 18446744073709551616; lia).
    unfold hval. rewrite num_of_int_safe by exact Hs. reflexivity.
  - rewrite lor_e0 by lia. rewrite head_fixneg by lia.
    unfold hval. do 3 f_equal. lia.
  - rewrite tag_d0, (with_int_be 1)
      by (try lia; change (2 ^ (8 * Z.of_nat 1 - 1)) with 128; lia).
    unfold hval. rewrite num_of_int_safe by exact Hs. reflexivity.
  - rewrite tag_d1, (with_int_be 2)
      by (try lia; change (2 ^ (8 * Z.of_nat 2 - 1)) with 32768; lia).
    unfold hval. rewrite num_of_int_safe by exact Hs. reflexivity.
  - rewrite tag_d2, (with_int_be 4)
      by (try lia; change (2 ^ (8 * Z.of_nat 4 - 1)) with 2147483648; lia).
    unfold hval. rewrite num_of_int_safe by exact Hs. reflexivity.
  - rewrite tag_d3, (with_int_be 8)
      by (try lia;
          change (2 ^ (8 * Z.of_nat 8 - 1)) with 9223372036854775808; lia).
    unfold hval. rewrite num_of_int_safe by exact Hs. reflexivity.
Qed.

Lemma dec_head_enc_float b r :
  wf (JFloat b) = true ->
  dec_head ((0xcb :: be 8 b) ++ r) = Some (HVal (JFloat b) r).
Proof.
  cbn [wf]. intros H.
  apply andb_prop in H as [H Hnan]. apply andb_prop in H as [H Hint].
  apply andb_prop in H as [H0 H1].
  cbn [app]. rewrite tag_cb, (with_uint_be 8)
    by (change (256 ^ Z.of_nat 8) with 18446744073709551616; lia).
  unfold hval, num_of_f64.
  destruct (f64_to_safe_int b); [discriminate|].
  destruct (Js.is_nan b); [|reflexivity].
  simpl in Hnan. apply Z.eqb_eq in Hnan. subst b. reflexivity.
Qed.

Lemma dec_str_bytes s r :
  dec_str (Z.of_nat (String.length s)) (str_bytes s ++ r)
  = Some (HVal (JStr s) r).
Proof.
  unfold dec_str. rewrite <- length_str_bytes, take_bytes_app, bytes_str_bytes.
  reflexivity.
Qed.

Lemma dec_bin_bytes d r :
  dec_bin (Z.of_nat (length d)) (d ++ r) = Some (HVal (JBin d) r).
Proof. unfold dec_bin. rewrite take_bytes_app. reflexivity. Qed.

Lemma dec_head_enc_str s r :
  size_ok (String.length s) = true ->
  dec_head (enc_str s ++ r) = Some (HVal (JStr s) r).
Proof.
  unfold size_ok. intros Hs. unfold enc_str, str_header.
  rewrite <- app_assoc. repeat zif; cbn [app].
  - rewrite head_fixstr by lia.
    replace (0xa0 + Z.of_nat (String.length s) - 0xa0)
      with (Z.of_nat (String.length s)) by lia.
    apply dec_str_bytes.
  - rewrite tag_d9, (with_uint_be 1) by (change (256 ^ Z.of_nat 1) with 256; lia).
    apply dec_str_bytes.
  - rewrite tag_da, (with_uint_be 2) by (change (256 ^ Z.of_nat 2) with 65536; lia).
    apply dec_str_bytes.
  - rewrite tag_db, (with_uint_be 4)
      by (change (256 ^ Z.of_nat 4) with 4294967296; lia).
    apply dec_str_bytes.
Qed.

Lemma dec_head_enc_bin d r :
  size_ok (length d) = true ->
  dec_head ((bin_header (Z.of_nat (length d)) ++ d) ++ r)
  = Some (HVal (JBin d) r).
Proof.
  unfold size_ok. intros Hs. unfold bin_header.
  rewrite <- app_assoc. repeat zif; cbn [app].
  - rewrite tag_c4, (with_uint_be 1) by (change (256 ^ Z.of_nat 1) with 256; lia).
    apply dec_bin_bytes.
  - rewrite tag_c5, (with_uint_be 2) by (change (256 ^ Z.of_nat 2) with 65536; lia).
    apply dec_bin_bytes.
  - rewrite tag_c6, (with_uint_be 4)
      by (change (256 ^ Z.of_nat 4) with 4294967296; lia).
    apply dec_bin_bytes.
Qed.

Lemma dec_ext_bytes t d r :
  -128 <= t < 128 -> t <> -1 ->
  dec_ext (Z.of_nat (length d)) (be 1 t ++ d ++ r) = Some (HVal (JExt t d) r).
Proof.
  intros Ht Hne. unfold dec_ext.
  rewrite rd_int_be by (try lia; change (2 ^ (8 * Z.of_nat 1 - 1)) with 128; lia).
  rewrite take_bytes_app.
  destruct (Z.eqb_spec t (-1)); [contradiction | reflexivity].
Qed.

Lemma dec_head_enc_ext t d r :
  wf (JExt t d) = true ->
  dec_head ((ext_header (Z.of_nat (length d)) ++ be 1 t ++ d) ++ r)
  = Some (HVal (JExt t d) r).
Proof.
  cbn [wf]. unfold size_ok. intros H.
  assert (Ht : -128 <= t < 128) by lia.
  assert (Hne : t <> -1) by lia.
  assert (Hs : Z.of_nat (length d) < 2 ^ 32) by lia. clear H.
  unfold ext_header. rewrite <- !app_assoc.
  repeat zif; cbn [app].
  - rewrite tag_d4. apply Z.eqb_eq in E. rewrite <- E. apply dec_ext_bytes; assumption.
  - rewrite tag_d5. apply Z.eqb_eq in E0. rewrite <- E0. apply dec_ext_bytes; assumption.
  - rewrite tag_d6. apply Z.eqb_eq in E1. rewrite <- E1. apply dec_ext_bytes; assumption.
  - rewrite tag_d7. apply Z.eqb_eq in E2. rewrite <- E2. apply dec_ext_bytes; assumption.
  - rewrite tag_d8. apply Z.eqb_eq in E3. rewrite <- E3. apply dec_ext_bytes; assumption.
  - rewrite tag_c7, (with_uint_be 1) by (change (256 ^ Z.of_nat 1) with 256; lia).
    apply dec_ext_bytes; assumption.
  - rewrite tag_c8, (with_uint_be 2) by (change (256 ^ Z.of_nat 2) with 65536; lia).
    apply dec_ext_bytes; assumption.
  - rewrite tag_c9, (with_uint_be 4)
      by (change (256 ^ Z.of_nat 4) with 4294967296; lia).
    apply dec_ext_bytes; assumption.
Qed.

Lemma dec_head_array_header n t :
  0 <= n < 2 ^ 32 -> dec_head (array_header n ++ t) = Some (HArr n t).
Proof.
  intros H. unfold array_header. repeat zif; cbn [app].
  - rewrite head_fixarray by lia. unfold harr. do 2 f_equal. lia.
  - rewrite tag_dc, (with_uint_be 2) by (change (256 ^ Z.of_nat 2) with 65536; lia).
    reflexivity.
  - rewrite tag_dd, (with_uint_be 4)
      by (change (256 ^ Z.of_nat 4) with 4294967296; lia).
    reflexivity.
Qed.

Lemma dec_head_map_header n t :
  0 <= n < 2 ^ 32 -> dec_head (map_header n ++ t) = Some (HMap n t).
Proof.
  intros H. unfold map_header. repeat zif; cbn [app].
  - rewrite head_fixmap by lia. unfold hmap. do 2 f_equal. lia.
  - rewrite tag_de, (with_uint_be 2) by (change (256 ^ Z.of_nat 2) with 65536; lia).
    reflexivity.
  - rewrite tag_df, (with_uint_be 4)
      by (change (256 ^ Z.of_nat 4) with 4294967296; lia).
    reflexivity.
Qed.

(** *** Objects *)

Lemma assign_index_last i k v acc rest :
  Js.array_index k = Some i ->
  Js.key_order (map fst (acc ++ (k, v) :: rest)) = true ->
  Js.assign_index i k v acc = acc ++ [(k, v)].
Proof.
  intros Hk. induction acc as [|[k' v'] acc IH]; intros Ho; [reflexivity|].
  cbn [app map fst Js.key_order] in Ho. apply andb_prop in Ho as [Hhead Ho].
  cbn [Js.assign_index app]. rewrite map_app in Hhead.
  destruct (Js.array_index k') as [j|]; rewrite forallb_app in Hhead;
    apply andb_prop in Hhead as [_ Hhead]; cbn [map fst forallb] in Hhead;
    apply andb_prop in Hhead as [Hhead _]; rewrite Hk in Hhead;
    [|discriminate].
  apply Z.ltb_lt in Hhead.
  destruct (Z.ltb_spec i j); [lia|]. destruct (Z.eqb_spec i j); [lia|].
  rewrite IH by exact Ho. reflexivity.
Qed.

Lemma set_last k (v : jsval) acc rest :
  Js.array_index k = None ->
  Js.key_order (map fst (acc ++ (k, v) :: rest)) = true ->
  Assoc.set k v acc = acc ++ [(k, v)].
Proof.
  intros Hk. induction acc as [|[k' v'] acc IH]; intros Ho; [reflexivity|].
  cbn [app map fst Js.key_order] in Ho. apply andb_prop in Ho as [Hhead Ho].
  cbn [Assoc.set app]. rewrite map_app in Hhead.
  destruct (Js.array_index k') as [j|] eqn:Ek'; rewrite forallb_app in Hhead;
    apply andb_prop in Hhead as [_ Hhead]; cbn [map fst forallb] in Hhead;
    apply andb_prop in Hhead as [Hhead _]; rewrite Hk in Hhead.
  - destruct (String.eqb_spec k' k) as [->|_]; [congruence|].
    rewrite IH by exact Ho. reflexivity.
  - apply negb_true_iff in Hhead. rewrite Hhead, IH by exact Ho. reflexivity.
Qed.

Lemma assign_last k v acc rest :
  String.eqb k "__proto__" = false ->
  Js.key_order (map fst (acc ++ (k, v) :: rest)) = true ->
  Js.assign k v acc = acc ++ [(k, v)].
Proof.
  intros Hp Ho. unfold Js.assign. rewrite Hp.
  destruct (Js.array_index k) as [i|] eqn:Ek.
  - eapply assign_index_last; eassumption.
  - eapply set_last; eassumption.
Qed.

Lemma build_obj_acc (fs acc : list (string * jsval)) :
  Js.key_order (map fst (acc ++ fs)) = true ->
  forallb (fun kv => negb (String.eqb (fst kv) "__proto__")) fs = true ->
  fold_left (fun o kv => Js.assign (fst kv) (snd kv) o) fs acc = acc ++ fs.
Proof.
  revert acc. induction fs as [|[k v] fs IH]; intros acc Ho Hp.
  - rewrite app_nil_r. reflexivity.
  - cbn [forallb fst] in Hp. apply andb_prop in Hp as [Hk Hp].
    apply negb_true_iff in Hk. cbn [fold_left fst snd].
    rewrite (assign_last k v acc fs Hk Ho).
    rewrite IH; [rewrite <- app_assoc; reflexivity | | exact Hp].
    rewrite <- app_assoc. exact Ho.
Qed.

Lemma build_obj_ordered fs :
  Js.key_order (map fst fs) = true ->
  forallb (fun kv => negb (String.eqb (fst kv) "__proto__")) fs = true ->
  build_obj fs = fs.
Proof. intros Ho Hp. unfold build_obj. apply (build_obj_acc fs []); assumption. Qed.

(** *** Round trip *)

Lemma reads_back_scalar v :
  (forall r, dec_head (enc v ++ r) = Some (HVal v r)) -> reads_back v.
Proof.
  intros H. exists 1%nat. intros [|F] r HF; [lia|].
  rewrite dec_S, H. reflexivity.
Qed.

Lemma dec_items_enc l :
  Forall reads_back l ->
  exists F0, forall F r,
    (F0 <= F)%nat ->
    dec_items F (Z.of_nat (length l)) (concat (map enc l) ++ r) = Some (l, r).
Proof.
  induction 1 as [|x l [Fx Hx] _ [Fl Hl]].
  - exists 0%nat. intros [|F] r _; reflexivity.
  - exists (S (Nat.max Fx Fl)). intros [|F] r HF; [lia|].
    rewrite dec_items_S.
    destruct (Z.leb_spec (Z.of_nat (length (x :: l))) 0) as [Hle|_];
      [simpl in Hle; lia|].
    cbn [map concat]. rewrite <- app_assoc, Hx by lia.
    replace (Z.of_nat (length (x :: l)) - 1) with (Z.of_nat (length l))
      by (simpl length; lia).
    rewrite Hl by lia. reflexivity.
Qed.

Lemma dec_pairs_enc (fs : list (string * jsval)) :
  Forall (fun kv => reads_back (snd kv)) fs ->
  forallb (fun kv => match kv with
                     | (k, x) =>
                         negb (String.eqb k "__proto__")
                         && size_ok (String.length k) && wf x
                     end) fs = true ->
  exists F0, forall F r,
    (F0 <= F)%nat ->
    dec_pairs F (Z.of_nat (length fs))
      (concat (map (fun kv => match kv with
                              | (k, x) => enc_str k ++ enc x
                              end) fs) ++ r)
    = Some (fs, r).
Proof.
  induction 1 as [|[k x] fs [Fx Hx] _ IH]; intros Hall.
  - exists 0%nat. intros [|F] r _; reflexivity.
  - cbn [forallb] in Hall. apply andb_prop in Hall as [Hk Hall].
    apply andb_prop in Hk as [Hk _]. apply andb_prop in Hk as [Hproto Hsize].
    apply negb_true_iff in Hproto.
    destruct (IH Hall) as [Fl Hl].
    exists (S (S (Nat.max Fx Fl))). intros [|F] r HF; [lia|].
    rewrite dec_pairs_S.
    destruct (Z.leb_spec (Z.of_nat (length ((k, x) :: fs))) 0) as [Hle|_];
      [simpl in Hle; lia|].
    cbn [map concat]. rewrite <- !app_assoc.
    destruct F as [|F]; [lia|].
    rewrite (dec_S F), dec_head_enc_str by exact Hsize.
    cbn [map_key]. rewrite Hproto. simpl snd in Hx. rewrite Hx by lia.
    replace (Z.of_nat (length ((k, x) :: fs)) - 1) with (Z.of_nat (length fs))
      by (simpl length; lia).
    rewrite Hl by lia. reflexivity.
Qed.

Lemma wf_reads_back v : wf v = true -> reads_back v.
Proof.
  induction v as [| |b|n|b|s|d|l IH|fs IH|t d] using jsval_nested_ind;
    intros Hwf.
  - discriminate.
  - apply reads_back_scalar. reflexivity.
  - apply reads_back_scalar. destruct b; reflexivity.
  - apply reads_back_scalar. intros r. cbn [enc wf] in *.
    unfold enc_num. rewrite Hwf. apply dec_head_enc_int. exact Hwf.
  - apply reads_back_scalar. intros r. apply dec_head_enc_float. exact Hwf.
  - apply reads_back_scalar. intros r. apply dec_head_enc_str. exact Hwf.
  - apply reads_back_scalar. intros r. apply dec_head_enc_bin. exact Hwf.
  - cbn [wf] in Hwf. apply andb_prop in Hwf as [Hsize Hall].
    assert (Hrb : Forall reads_back l).
    { rewrite forallb_forall in Hall. rewrite List.Forall_forall in IH |- *.
      intros x Hx. apply IH; [exact Hx | apply Hall; exact Hx]. }
    destruct (dec_items_enc l Hrb) as [F0 HF0].
    exists (S F0). intros [|F] r HF; [lia|].
    cbn [enc]. rewrite <- app_assoc, dec_S, dec_head_array_header
      by (unfold size_ok in Hsize; lia).
    rewrite HF0 by lia. reflexivity.
  - cbn [wf] in Hwf. apply andb_prop in Hwf as [Hsize Hall].
    apply andb_prop in Hsize as [Hsize Horder].
    apply andb_prop in Hsize as [Hsize Hdistinct].
    assert (Hrb : Forall (fun kv => reads_back (snd kv)) fs).
    { rewrite forallb_forall in Hall. rewrite List.Forall_forall in IH |- *.
      intros [k x] Hx. apply IH; [exact Hx|].
      specialize (Hall _ Hx). simpl in Hall.
      apply andb_prop in Hall as [_ Hall]. exact Hall. }
    destruct (dec_pairs_enc fs Hrb Hall) as [F0 HF0].
    exists (S F0). intros [|F] r HF; [lia|].
    cbn [enc]. rewrite <- app_assoc, dec_S, dec_head_map_header
      by (unfold size_ok in Hsize; lia).
    rewrite HF0 by lia. rewrite build_obj_ordered; [reflexivity | exact Horder |].
    rewrite forallb_forall in Hall |- *. intros [k x] Hin.
    specialize (Hall _ Hin). cbn [fst].
    apply andb_prop in Hall as [Hall _]. apply andb_prop in Hall as [Hall _].
    exact Hall.
  - apply reads_back_scalar. intros r. apply dec_head_enc_ext. exact Hwf.
Qed.

(** [decode] undoes [enc] on every well-formed value. *)
Lemma decode_enc v : wf v = true -> decode (enc v) = Some v.
Proof.
  intros Hwf. destruct (wf_reads_back v Hwf) as [F0 HF0].
  unfold decode.
  rewrite <- (dec_fuel_enough (Nat.max F0 (fuel_for (enc v)))) by lia.
  rewrite <- (app_nil_r (enc v)) at 2. rewrite HF0 by lia. reflexivity.
Qed.

(** [decode] undoes [encode] whenever [encode] returns. *)
Lemma decode_encode v data :
  wf v = true -> encode v = Some data -> decode data = Some v.
Proof.
  unfold encode. intros Hwf. destruct (encodable 1 v); [|discriminate].
  intros [= <-]. apply decode_enc. exact Hwf.
Qed.

End MsgPackFacts.

(** ** Wire codec of the two profiles *)
Module ProtocolFacts.

Lemma auth_accepts_envelope (msg : Auth.ServerMessage) data :
  MsgPack.decode data = Some (Auth.to_js msg) ->
  Auth.decodeMessage data = Some (Auth.to_js msg).
Proof.
  intros H. unfold Auth.decodeMessage, Auth.decodeMessage_with. rewrite H.
  destruct msg; reflexivity.
Qed.

Lemma relay_accepts_envelope (msg : Relay.ServerMessage) data :
  MsgPack.decode data = Some (Relay.to_js msg) ->
  Relay.decodeMessage data = Some (Relay.to_js msg).
Proof.
  intros H. unfold Relay.decodeMessage, Relay.decodeMessage_with. rewrite H.
  destruct msg; reflexivity.
Qed.

(** C7.  For an envelope of either profile whose object is valid for the
    codec (no [undefined], numbers in normal form, sizes below 2^32, the
    properties of every object in the engine's order with no duplicate
    and no [__proto__], nesting within the encoder's depth limit),
    [encodeMessage] returns bytes and [decodeMessage] on these bytes
    returns the object of the envelope. *)
Theorem encode_then_decode_round_trip
    (a : Auth.ServerMessage) (b : Relay.ServerMessage) :
  MsgPack.valid (Auth.to_js a) = true ->
  MsgPack.valid (Relay.to_js b) = true ->
  (exists data,
      Auth.encodeMessage a = Some data
      /\ Auth.decodeMessage data = Some (Auth.to_js a))
  /\ (exists data,
        Relay.encodeMessage b = Some data
        /\ Relay.decodeMessage data = Some (Relay.to_js b)).
Proof.
  unfold MsgPack.valid. intros Ha Hb.
  apply andb_prop in Ha as [Hwa Hea]. apply andb_prop in Hb as [Hwb Heb].
  split.
  - exists (MsgPack.enc (Auth.to_js a)). split.
    + unfold Auth.encodeMessage, MsgPack.encode. rewrite Hea. reflexivity.
    + apply auth_accepts_envelope, MsgPackFacts.decode_enc. exact Hwa.
  - exists (MsgPack.enc (Relay.to_js b)). split.
    + unfold Relay.encodeMessage, MsgPack.encode. rewrite Heb. reflexivity.
    + apply relay_accepts_envelope, MsgPackFacts.decode_enc. exact Hwb.
Qed.

Lemma encode_then_decode_round_trip_witness :
  (exists data,
      Auth.encodeMessage Scenario.snapshot_envelope = Some data
      /\ Auth.decodeMessage data
         = Some (Auth.to_js Scenario.snapshot_envelope))
  /\ (exists data,
        Relay.encodeMessage Scenario.relay_envelope = Some data
        /\ Relay.decodeMessage data
           = Some (Relay.to_js Scenario.relay_envelope)).
Proof.
  apply (encode_then_decode_round_trip
           Scenario.snapshot_envelope Scenario.relay_envelope);
    reflexivity.
Defined.

Lemma auth_decodeMessage_Some decode data v :
  Auth.decodeMessage_with decode data = Some v <->
  decode data = Some v /\ Auth.has_type_property v.
Proof.
  unfold Auth.decodeMessage_with, Auth.has_type_property.
  destruct (decode data) as [w|]; [|split; [discriminate | intros [[=] _]]].
  split.
  - destruct w as [| |b|n|b|s|d|l|fs|ty d]; simpl; rewrite ?orb_true_r;
      try discriminate.
    + destruct (Assoc.get "type" fs) as [x|] eqn:E; simpl; [|discriminate].
      intros [= <-]. split; [reflexivity|]. left. exists fs. split; [reflexivity|].
      apply AssocFacts.get_In in E. unfold Assoc.keys.
      apply (in_map fst) in E. exact E.
    + unfold Js.ext_fields. destruct (Z.eqb_spec ty (-1)); simpl; [discriminate|].
      intros [= <-]. split; [reflexivity|]. right. eauto.
  - intros [[= ->] [(fs & -> & Hin)|(t & d & -> & Hne)]]; simpl.
    + apply AssocFacts.get_key in Hin as [x ->]. reflexivity.
    + unfold Js.ext_fields. destruct (Z.eqb_spec t (-1)); [contradiction|].
      reflexivity.
Qed.

Lemma relay_decodeMessage_Some decode data v :
  Relay.decodeMessage_with decode data = Some v <->
  decode data = Some v /\ Relay.non_array_object v.
Proof.
  unfold Relay.decodeMessage_with, Relay.non_array_object.
  destruct (decode data) as [w|]; [|split; [discriminate | intros [[=] _]]].
  split.
  - destruct w; simpl; rewrite ?orb_true_r; try discriminate;
      intros [= <-]; split; eauto.
  - intros [[= ->] [(fs & ->)|[(d & ->)|(t & d & ->)]]]; reflexivity.
Qed.

(** C3, as the code has it.  [decodeMessage] never throws: whatever the
    package's [decode] does with the buffer ([decode data] is the value
    it returns, [None] where it throws), the [try] turns a thrown
    decoding error into [null].  In the authoritative profile the result
    is the decoded value when that value has a property [type], and
    [null] otherwise; in the relay profile the result is the decoded value
    when that value is an object that is not an array, and [null]
    otherwise.  The value of [type] is not looked at.  The decoder of
    the model is a total function of the bytes as well: its answer is the
    same with any larger fuel. *)
Theorem decodeMessage_null_cases
    (decode : list Z -> option jsval) (data : list Z) (extra : nat)
    (v : jsval) :
  MsgPack.dec (MsgPack.fuel_for data + extra) data
  = MsgPack.dec (MsgPack.fuel_for data) data
  /\ (Auth.decodeMessage_with decode data = Some v <->
      decode data = Some v /\ Auth.has_type_property v)
  /\ (Auth.decodeMessage_with decode data = None <->
      decode data = None
      \/ exists w, decode data = Some w /\ ~ Auth.has_type_property w)
  /\ (Relay.decodeMessage_with decode data = Some v <->
      decode data = Some v /\ Relay.non_array_object v)
  /\ (Relay.decodeMessage_with decode data = None <->
      decode data = None
      \/ exists w, decode data = Some w /\ ~ Relay.non_array_object w).
Proof.
  split; [apply MsgPackFacts.dec_fuel_enough; lia|].
  split; [apply auth_decodeMessage_Some|].
  split.
  { split.
    - intros Hnone. destruct (decode data) as [w|] eqn:E; [|left; reflexivity].
      right. exists w. split; [reflexivity|]. intros Hw.
      assert (Auth.decodeMessage_with decode data = Some w)
        by (apply auth_decodeMessage_Some; split; assumption).
      congruence.
    - intros [Hd|(w & Hd & Hw)].
      + unfold Auth.decodeMessage_with. rewrite Hd. reflexivity.
      + destruct (Auth.decodeMessage_with decode data) as [u|] eqn:E;
          [|reflexivity].
        apply auth_decodeMessage_Some in E as [E1 E2]. congruence. }
  split; [apply relay_decodeMessage_Some|].
  split.
  - intros Hnone. destruct (decode data) as [w|] eqn:E; [|left; reflexivity].
    right. exists w. split; [reflexivity|]. intros Hw.
    assert (Relay.decodeMessage_with decode data = Some w)
      by (apply relay_decodeMessage_Some; split; assumption).
    congruence.
  - intros [Hd|(w & Hd & Hw)].
    + unfold Relay.decodeMessage_with. rewrite Hd. reflexivity.
    + destruct (Relay.decodeMessage_with decode data) as [u|] eqn:E;
        [|reflexivity].
      apply relay_decodeMessage_Some in E as [E1 E2]. congruence.
Qed.

(** C3 as stated fails.  The bytes of [{ type: 42 }] decode to a keyed
    structure whose tag is a number, and the authoritative
    [decodeMessage] returns it; the byte of [{}] decodes to a keyed
    structure with no tag, and the relay [decodeMessage] returns it.
    Neither value is a tagged keyed structure and neither result is
    [null]. *)
Lemma decodeMessage_returns_untagged :
  MsgPack.decode Scenario.numeric_tag_bytes
  = Some (JObj [("type"%string, JNum 42)])
  /\ ~ tagged_keyed_structure (JObj [("type"%string, JNum 42)])
  /\ Auth.decodeMessage Scenario.numeric_tag_bytes
     = Some (JObj [("type"%string, JNum 42)])
  /\ MsgPack.decode Scenario.empty_map_bytes = Some (JObj [])
  /\ ~ tagged_keyed_structure (JObj [])
  /\ Relay.decodeMessage Scenario.empty_map_bytes = Some (JObj []).
Proof.
  split; [reflexivity|]. split.
  { intros (fs & s & [= <-] & H). discriminate H. }
  split; [reflexivity|]. split; [reflexivity|]. split.
  { intros (fs & s & [= <-] & H). discriminate H. }
  reflexivity.
Qed.

(** *** Client messages *)

(** A buffer that goes on after a complete value is refused. *)
Lemma decode_with_trailing_bytes v extra :
  MsgPack.wf v = true -> extra <> [] ->
  MsgPack.decode (MsgPack.enc v ++ extra) = None.
Proof.
  intros Hwf Hne. destruct (MsgPackFacts.wf_reads_back v Hwf) as [F0 HF0].
  unfold MsgPack.decode.
  rewrite <- (MsgPackFacts.dec_fuel_enough
                (Nat.max F0 (MsgPack.fuel_for (MsgPack.enc v ++ extra)))) by lia.
  rewrite HF0 by lia. destruct extra; [contradiction | reflexivity].
Qed.

(** X5.  The bytes of a well-formed object whose strings are ASCII, as a
    client's encoder writes them, are what [decodeMessage] accepts: the
    relay profile returns the object whatever its properties, the
    authoritative profile returns it when it has a property [type] and
    [null] otherwise.  The same bytes with anything after them are
    malformed in both profiles: a frame holds one message. *)
Theorem encoded_objects_are_accepted_whole
    (fields : list (string * jsval)) (extra : list Z) :
  MsgPack.wf (JObj fields) = true ->
  Js.ascii_text (JObj fields) = true ->
  let bytes := MsgPack.enc (JObj fields) in
  Relay.decodeMessage bytes = Some (JObj fields)
  /\ Auth.decodeMessage bytes
     = (if Assoc.has "type" fields then Some (JObj fields) else None)
  /\ (extra <> [] ->
      Relay.decodeMessage (bytes ++ extra) = None
      /\ Auth.decodeMessage (bytes ++ extra) = None).
Proof.
  intros Hwf _ bytes.
  pose proof (MsgPackFacts.decode_enc (JObj fields) Hwf) as Hdec.
  fold bytes in Hdec.
  unfold Relay.decodeMessage, Auth.decodeMessage.
  split; [|split].
  - unfold Relay.decodeMessage_with. rewrite Hdec. reflexivity.
  - unfold Auth.decodeMessage_with. rewrite Hdec.
    cbn [Js.truthy Js.typeof_object negb orb Js.has_prop].
    unfold Assoc.has. destruct (Assoc.get "type" fields); reflexivity.
  - intros Hne. unfold Relay.decodeMessage_with, Auth.decodeMessage_with, bytes.
    rewrite decode_with_trailing_bytes by assumption. split; reflexivity.
Qed.

Lemma encoded_objects_are_accepted_whole_witness :
  Relay.decodeMessage Scenario.state_bytes
  = Some (JObj [("type"%string, JStr "state")])
  /\ Auth.decodeMessage Scenario.state_bytes
     = Some (JObj [("type"%string, JStr "state")])
  /\ Relay.decodeMessage (Scenario.state_bytes ++ [0]) = None
  /\ Auth.decodeMessage (Scenario.state_bytes ++ [0]) = None.
Proof.
  destruct (encoded_objects_are_accepted_whole
              [("type"%string, JStr "state")] [0] eq_refl eq_refl)
    as (H1 & H2 & H3).
  destruct H3 as [H3 H4]; [discriminate|].
  split; [exact H1|]. split; [exact H2|]. split; [exact H3 | exact H4].
Defined.

End ProtocolFacts.

(** ** The authoritative room *)
Module AuthRoomFacts.
Import Auth.

Lemma encodeMessage_Error code message :
  encodeMessage (Error code message)
  = Some (MsgPack.enc (to_js (Error code message))).
Proof. reflexivity. Qed.

Lemma encodeMessage_PlayerJoined pid name :
  encodeMessage (PlayerJoined pid (JStr name))
  = Some (MsgPack.enc (to_js (PlayerJoined pid (JStr name)))).
Proof. reflexivity. Qed.

Lemma encodeMessage_PlayerLeft pid :
  encodeMessage (PlayerLeft pid) = Some (MsgPack.enc (to_js (PlayerLeft pid))).
Proof. reflexivity. Qed.

Lemma stopTickLoop_players r : players (stopTickLoop r) = players r.
Proof. unfold stopTickLoop. destruct (tickInterval r); reflexivity. Qed.

Lemma stopTickLoop_maxPlayers r : maxPlayers (stopTickLoop r) = maxPlayers r.
Proof. unfold stopTickLoop. destruct (tickInterval r); reflexivity. Qed.

Lemma stopTickLoop_id r : id (stopTickLoop r) = id r.
Proof. unfold stopTickLoop. destruct (tickInterval r); reflexivity. Qed.

Lemma delete_absent {V} pid (m : list (string * V)) :
  Assoc.get pid m = None -> Assoc.delete pid m = m.
Proof.
  induction m as [|[k v] m IH]; simpl; [reflexivity|].
  destruct (String.eqb k pid); [discriminate|].
  intros E. rewrite IH by exact E. reflexivity.
Qed.

(** What [join] leaves in the membership map, on every path. *)
Lemma join_players pid sock name now net r :
  players (room_after (join pid sock name now net r))
  = if isFull r then players r
    else Assoc.set pid
           {| player_id := pid; ws := sock; displayName := name;
              state := neutral_state; joinedAt := now |} (players r).
Proof.
  unfold join, room_after. destruct (isFull r).
  - destruct (encodeMessage _); reflexivity.
  - destruct (broadcast _ _ _ _); [|reflexivity]. simpl.
    destruct (_ && _); reflexivity.
Qed.

Lemma leave_players pid net r :
  players (room_after (leave pid net r)) = Assoc.delete pid (players r).
Proof.
  unfold leave, room_after.
  destruct (Assoc.get pid (players r)) eqn:E.
  - destruct (broadcast _ _ _ _); [|reflexivity]. cbn [fst snd].
    destruct (_ =? 0); [apply stopTickLoop_players | reflexivity].
  - symmetry. apply delete_absent. exact E.
Qed.

(** No call changes the id or the capacity of a room. *)
Lemma step_constants r c :
  maxPlayers (step r c) = maxPlayers r /\ id (step r c) = id r.
Proof.
  destruct c; simpl; unfold room_after.
  - unfold join. destruct (isFull r).
    + destruct (encodeMessage _); auto.
    + destruct (broadcast _ _ _ _); [|auto]. simpl.
      destruct (_ && _); auto.
  - unfold leave. destruct (Assoc.get _ _); [|auto].
    destruct (broadcast _ _ _ _); [|auto]. simpl.
    destruct (_ =? 0); [|auto].
    rewrite stopTickLoop_maxPlayers, stopTickLoop_id. auto.
  - unfold updatePlayerState. destruct (Assoc.get _ _); auto.
  - unfold chat. destruct (Assoc.get _ _); [|auto].
    destruct (Js.slice _ _); [|auto].
    destruct (broadcast _ _ _ _); auto.
  - unfold tick. destruct (_ =? 0); [auto|].
    destruct (broadcast _ _ _ _); [|auto]. simpl.
    destruct (_ >=? _); auto.
  - rewrite stopTickLoop_maxPlayers, stopTickLoop_id. auto.
Qed.

Lemma step_within_capacity r c :
  playerCount r <= maxPlayers r ->
  playerCount (step r c) <= maxPlayers (step r c).
Proof.
  intros Hinv. rewrite (proj1 (step_constants r c)). revert Hinv.
  unfold playerCount, Assoc.size. destruct c; simpl.
  - rewrite join_players. unfold isFull, Assoc.size.
    destruct (Z.geb_spec (Z.of_nat (length (players r))) (maxPlayers r));
      [tauto|].
    rewrite AssocFacts.length_set. destruct (Assoc.get pid (players r)); lia.
  - rewrite leave_players, AssocFacts.length_delete.
    destruct (Assoc.get pid (players r)); lia.
  - unfold updatePlayerState.
    destruct (Assoc.get pid (players r)) eqn:E; [|tauto]. simpl.
    rewrite AssocFacts.length_set, E. tauto.
  - unfold chat, room_after. destruct (Assoc.get _ _); [|tauto].
    destruct (Js.slice _ _); [|tauto].
    destruct (broadcast _ _ _ _); tauto.
  - unfold tick, room_after. destruct (_ =? 0); [tauto|].
    destruct (broadcast _ _ _ _); [|tauto]. simpl.
    destruct (_ >=? _); tauto.
  - lia.
Qed.

Lemma run_within_capacity calls r :
  playerCount r <= maxPlayers r ->
  playerCount (run calls r) <= maxPlayers (run calls r)
  /\ maxPlayers (run calls r) = maxPlayers r
  /\ id (run calls r) = id r.
Proof.
  revert r. induction calls as [|c calls IH]; simpl; intros r Hinv; [auto|].
  destruct (IH (step r c) (step_within_capacity r c Hinv)) as (H1 & H2 & H3).
  destruct (step_constants r c) as [Hm Hi].
  split; [exact H1|]. split; congruence.
Qed.

(** No call puts an id into the membership map twice. *)
Lemma step_distinct_ids r c :
  NoDup (Assoc.keys (players r)) -> NoDup (Assoc.keys (players (step r c))).
Proof.
  intros Hnd. destruct c; simpl.
  - rewrite join_players. destruct (isFull r); [exact Hnd|].
    apply AssocFacts.set_keys_NoDup. exact Hnd.
  - rewrite leave_players. apply AssocFacts.delete_keys_NoDup. exact Hnd.
  - unfold updatePlayerState. destruct (Assoc.get pid (players r)); [|exact Hnd].
    simpl. apply AssocFacts.set_keys_NoDup. exact Hnd.
  - unfold chat, room_after. destruct (Assoc.get _ _); [|exact Hnd].
    destruct (Js.slice _ _); [|exact Hnd].
    destruct (broadcast _ _ _ _); exact Hnd.
  - unfold tick, room_after. destruct (_ =? 0); [exact Hnd|].
    destruct (broadcast _ _ _ _); [|exact Hnd]. simpl.
    destruct (_ >=? _); exact Hnd.
  - apply NoDup_nil_2.
Qed.

Lemma run_distinct_ids calls r :
  NoDup (Assoc.keys (players r)) -> NoDup (Assoc.keys (players (run calls r))).
Proof.
  revert r. induction calls as [|c calls IH]; simpl; intros r Hnd; [exact Hnd|].
  apply IH, step_distinct_ids, Hnd.
Qed.

(** C1.  Take any room that a sequence of calls has made of a new room of
    capacity [cap >= 0], and any [join] on it with a string name.  The
    room holds at most [cap] players before the call and after it.  When
    it holds exactly [cap], [join] returns false, the room is unchanged,
    and the one thing sent is the ROOM_FULL error envelope, with the
    room's id and capacity in its text, to the socket of the caller.
    When it holds fewer, [join] returns true and the caller is a
    member. *)
Theorem join_never_exceeds_capacity
    (rid : string) (cap hz now0 : Z) (calls : list Call)
    (pid : string) (sock : WebSocket) (name : string) (now : Z) (net : Net) :
  0 <= cap ->
  let r := run calls (new rid cap hz now0) in
  let result := join pid sock (JStr name) now net r in
  playerCount r <= cap
  /\ playerCount (room_after result) <= cap
  /\ (playerCount r = cap ->
      result
      = (Returned false, r,
         [EvSend sock
            (MsgPack.enc
               (to_js
                  (Error "ROOM_FULL"
                     ("Room " +:+ Js.dquote +:+ rid +:+ Js.dquote
                        +:+ " is full (" +:+ Js.string_of_Z cap
                        +:+ " players)"))))]))
  /\ (playerCount r < cap ->
      fst (fst result) = Returned true
      /\ hasPlayer pid (room_after result) = true).
Proof.
  intros Hcap r result.
  destruct (run_within_capacity calls (new rid cap hz now0)) as (Hinv & Hmax & Hid);
    [simpl; exact Hcap|].
  fold r in Hinv, Hmax, Hid. simpl in Hmax, Hid. rewrite Hmax in Hinv.
  split; [exact Hinv|]. split; [|split].
  - pose proof (step_within_capacity r (CallJoin pid sock (JStr name) now net)) as H.
    rewrite (proj1 (step_constants r _)), Hmax in H. apply H. exact Hinv.
  - intros Hfull. subst result. unfold join, isFull.
    change (Assoc.size (players r)) with (playerCount r).
    destruct (Z.geb_spec (playerCount r) (maxPlayers r)) as [_|Hlt]; [|lia].
    rewrite encodeMessage_Error. unfold full_message, ErrorCodes.ROOM_FULL.
    rewrite Hid, Hmax. reflexivity.
  - intros Hroom. subst result. unfold join, isFull.
    change (Assoc.size (players r)) with (playerCount r).
    destruct (Z.geb_spec (playerCount r) (maxPlayers r)) as [Hge|_]; [lia|].
    unfold broadcast. rewrite encodeMessage_PlayerJoined. simpl.
    split; [reflexivity|]. unfold room_after, hasPlayer, Assoc.has. simpl.
    destruct (_ && _); simpl; rewrite AssocFacts.get_set_eq; reflexivity.
Qed.

Lemma join_never_exceeds_capacity_witness :
  playerCount Scenario.arena_full = 2
  /\ fst (fst (join "c" 3%nat (JStr "Cy") 30 Scenario.all_open
                 Scenario.arena_full))
     = Returned false
  /\ room_after (join "c" 3%nat (JStr "Cy") 30 Scenario.all_open
                   Scenario.arena_full)
     = Scenario.arena_full.
Proof.
  destruct (join_never_exceeds_capacity "arena" 2 20 0 Scenario.arena_calls
              "c" 3%nat "Cy" 30 Scenario.all_open)
    as (_ & _ & Hfull & _); [lia|].
  fold Scenario.arena_full in Hfull. specialize (Hfull eq_refl).
  split; [reflexivity|]. rewrite Hfull. split; reflexivity.
Defined.

(** *** Fan-out *)

Lemma fanout_set_excluded data pid p net m :
  fanout data (Some pid) net (Assoc.set pid p m) = fanout data (Some pid) net m.
Proof.
  unfold fanout. induction m as [|[k v] m IH]; simpl.
  - rewrite String.eqb_refl. reflexivity.
  - destruct (String.eqb_spec k pid) as [->|Hne]; simpl.
    + rewrite String.eqb_refl. reflexivity.
    + destruct (String.eqb_spec k pid); [contradiction|]. rewrite IH. reflexivity.
Qed.

Lemma in_fanout_excluding data pid net m ev :
  In ev (fanout data (Some pid) net m) <->
  exists k p,
    In (k, p) m /\ k <> pid /\ net (ws p) = OPEN /\ ev = EvSend (ws p) data.
Proof.
  unfold fanout. rewrite in_flat_map. split.
  - intros ([k p] & Hin & Hev).
    destruct (String.eqb_spec k pid); [destruct Hev|].
    destruct (Z.eqb_spec (net (ws p)) OPEN); [|destruct Hev].
    destruct Hev as [<-|[]]. exists k, p. auto.
  - intros (k & p & Hin & Hne & Hopen & ->). exists (k, p). split; [exact Hin|].
    destruct (String.eqb_spec k pid); [contradiction|].
    rewrite Hopen. simpl. left. reflexivity.
Qed.

(** C8.  A [join] with a string name for an id that is already a member.
    In a room with fewer players than its capacity it returns true; the
    member's record is replaced in place by a fresh one (the new socket,
    the neutral state, the time of the call), so the count is unchanged;
    and [player_joined] is sent to exactly the other members whose socket
    is open.  In a room that holds as many players as its capacity it
    returns false, changes nothing and sends the ROOM_FULL error to the
    caller's socket. *)
Theorem duplicate_join_replaces_or_is_rejected
    (r : Room) (pid : string) (old : Player) (sock : WebSocket)
    (name : string) (now : Z) (net : Net) :
  Assoc.get pid (players r) = Some old ->
  let result := join pid sock (JStr name) now net r in
  let fresh :=
    {| player_id := pid; ws := sock; displayName := JStr name;
       state := neutral_state; joinedAt := now |} in
  let joined := MsgPack.enc (to_js (PlayerJoined pid (JStr name))) in
  (playerCount r < maxPlayers r ->
     fst (fst result) = Returned true
     /\ players (room_after result) = Assoc.set pid fresh (players r)
     /\ Assoc.get pid (players (room_after result)) = Some fresh
     /\ Assoc.keys (players (room_after result)) = Assoc.keys (players r)
     /\ playerCount (room_after result) = playerCount r
     /\ (forall ev,
           In ev (snd result) <->
           exists k p,
             In (k, p) (players r) /\ k <> pid /\ net (ws p) = OPEN
             /\ ev = EvSend (ws p) joined))
  /\ (playerCount r = maxPlayers r ->
       result
       = (Returned false, r,
          [EvSend sock
             (MsgPack.enc (to_js (Error "ROOM_FULL" (full_message r))))])).
Proof.
  intros Hold result fresh joined. split.
  - intros Hroom. subst result. unfold join, isFull.
    change (Assoc.size (players r)) with (playerCount r).
    destruct (Z.geb_spec (playerCount r) (maxPlayers r)) as [Hge|_]; [lia|].
    unfold broadcast. rewrite encodeMessage_PlayerJoined. fold joined fresh.
    cbn [fst snd room_after players with_players].
    assert (Hp : forall b : bool,
               players (if b
                        then startTickLoop (with_players (Assoc.set pid fresh (players r)) r)
                        else with_players (Assoc.set pid fresh (players r)) r)
               = Assoc.set pid fresh (players r))
      by (intros []; reflexivity).
    unfold room_after. cbn [fst snd]. rewrite Hp.
    split; [reflexivity|]. split; [reflexivity|].
    split; [apply AssocFacts.get_set_eq|].
    split; [eapply AssocFacts.keys_set_present; exact Hold|].
    split.
    + unfold playerCount, Assoc.size. rewrite Hp, AssocFacts.length_set, Hold.
      reflexivity.
    + intros ev. rewrite fanout_set_excluded. apply in_fanout_excluding.
  - intros Hfull. subst result. unfold join, isFull.
    change (Assoc.size (players r)) with (playerCount r).
    destruct (Z.geb_spec (playerCount r) (maxPlayers r)) as [_|Hlt]; [|lia].
    rewrite encodeMessage_Error. reflexivity.
Qed.

Lemma duplicate_join_replaces_or_is_rejected_witness :
  join "a" 7%nat (JStr "Ann2") 40 Scenario.two_closed Scenario.arena_three
  = (Returned true,
     with_players
       (Assoc.set "a"
          {| player_id := "a"; ws := 7%nat; displayName := JStr "Ann2";
             state := neutral_state; joinedAt := 40 |}
          (players Scenario.arena_three))
       Scenario.arena_three,
     [EvSend 3%nat (MsgPack.enc (to_js (PlayerJoined "a" (JStr "Ann2"))))])
  /\ playerCount
       (room_after (join "a" 7%nat (JStr "Ann2") 40 Scenario.two_closed
                      Scenario.arena_three))
     = playerCount Scenario.arena_three.
Proof.
  destruct (duplicate_join_replaces_or_is_rejected Scenario.arena_three "a"
              Scenario.ann 7%nat "Ann2" 40 Scenario.two_closed eq_refl)
    as [Hroom _].
  destruct (Hroom eq_refl) as (_ & _ & _ & _ & Hcount & _).
  split; [reflexivity | exact Hcount].
Defined.

(** *** Snapshots *)




(** *** Leaving *)

Lemma new_distinct rid cap hz now0 calls :
  NoDup (Assoc.keys (players (run calls (new rid cap hz now0)))).
Proof. apply run_distinct_ids. apply NoDup_nil_2. Qed.

Lemma stopTickLoop_off r : tickInterval (stopTickLoop r) = false.
Proof.
  unfold stopTickLoop. destruct (tickInterval r) eqn:E; [reflexivity | exact E].
Qed.

(** X6.  Take any room that a sequence of calls has made of a new room.
    [leave] never throws and leaves the id out of the room, with every
    other member's record as it was.  For an id that is not a member it
    changes nothing and sends nothing.  For a member the count goes down
    by one and [player_left] is sent to every remaining member whose
    socket is open, in join order, and to nobody else; when the last
    member leaves, the tick loop is stopped. *)
Theorem leave_notifies_the_rest
    (rid : string) (cap hz now0 : Z) (calls : list Call)
    (pid : string) (net : Net) :
  let r := run calls (new rid cap hz now0) in
  let result := leave pid net r in
  let r' := room_after result in
  fst (fst result) = Returned tt
  /\ players r' = Assoc.delete pid (players r)
  /\ hasPlayer pid r' = false
  /\ (forall q, q <> pid -> Assoc.get q (players r') = Assoc.get q (players r))
  /\ (hasPlayer pid r = false -> result = (Returned tt, r, []))
  /\ (hasPlayer pid r = true ->
      playerCount r' = playerCount r - 1
      /\ snd result
         = fanout (MsgPack.enc (to_js (PlayerLeft pid))) None net (players r')
      /\ (playerCount r = 1 -> isRunning r' = false)).
Proof.
  intros r result r'.
  assert (Hnd : NoDup (Assoc.keys (players r))) by apply new_distinct.
  assert (Hp : players r' = Assoc.delete pid (players r)) by apply leave_players.
  assert (Hres : fst (fst result) = Returned tt).
  { subst result. unfold leave. destruct (Assoc.get pid (players r)); [|reflexivity].
    unfold broadcast. rewrite encodeMessage_PlayerLeft. reflexivity. }
  split; [exact Hres|]. split; [exact Hp|]. split; [|split; [|split]].
  - unfold hasPlayer, Assoc.has. rewrite Hp, AssocFacts.get_delete_eq by exact Hnd.
    reflexivity.
  - intros q Hq. rewrite Hp. apply AssocFacts.get_delete_ne. congruence.
  - unfold hasPlayer, Assoc.has. subst result. unfold leave.
    destruct (Assoc.get pid (players r)); [discriminate | reflexivity].
  - unfold hasPlayer, Assoc.has. intros Hmem.
    destruct (Assoc.get pid (players r)) as [p|] eqn:E; [clear Hmem | discriminate].
    split; [|split].
    + unfold playerCount, Assoc.size. rewrite Hp, AssocFacts.length_delete, E.
      apply AssocFacts.get_In in E. destruct (players r); [destruct E|].
      simpl length. lia.
    + subst r' result. unfold leave, room_after. rewrite E.
      unfold broadcast. rewrite encodeMessage_PlayerLeft. cbn [fst snd].
      destruct (_ =? 0); [rewrite stopTickLoop_players|]; reflexivity.
    + intros Hone. subst r' result. unfold leave, room_after. rewrite E.
      unfold broadcast. rewrite encodeMessage_PlayerLeft. cbn [fst snd].
      assert (Hz : Assoc.size (players (with_players (Assoc.delete pid (players r)) r)) = 0).
      { cbn [players with_players]. unfold Assoc.size.
        rewrite AssocFacts.length_delete, E. unfold playerCount, Assoc.size in Hone.
        apply AssocFacts.get_In in E. destruct (players r); [destruct E|].
        simpl length in *. lia. }
      rewrite Hz. cbn [Z.eqb]. apply stopTickLoop_off.
Qed.

(** *** The tick loop *)

Lemma size_set_pos pid (p : Player) m : 0 < Assoc.size (Assoc.set pid p m).
Proof.
  unfold Assoc.size. destruct m as [|[k v] m]; simpl; [lia|].
  destruct (String.eqb k pid); simpl; lia.
Qed.

Lemma step_tick_loop r c :
  string_name c = true ->
  tickInterval r = negb (playerCount r =? 0) ->
  tickInterval (step r c) = negb (playerCount (step r c) =? 0).
Proof.
  intros Hname Hinv. unfold playerCount in *. destruct c; simpl in *.
  - destruct name as [| |b|n|b|s|d|l|fs|ty d]; try discriminate.
    unfold join, room_after. destruct (isFull r).
    + rewrite encodeMessage_Error. exact Hinv.
    + unfold broadcast. rewrite encodeMessage_PlayerJoined. cbn [fst snd].
      set (ps := Assoc.set pid _ (players r)).
      pose proof (size_set_pos pid
        {| player_id := pid; ws := sock; displayName := JStr s;
           state := neutral_state; joinedAt := now |} (players r)) as Hpos.
      fold ps in Hpos. cbn [players with_players tickInterval].
      assert (Hnz : (Assoc.size ps =? 0) = false) by (apply Z.eqb_neq; lia).
      destruct (Z.eqb_spec (Assoc.size ps) 1) as [Hone|Hmore]; cbn [andb].
      * destruct (tickInterval r) eqn:Et; cbn [negb];
          cbn [players with_players tickInterval startTickLoop with_tickInterval];
          rewrite Hnz; [exact Et | reflexivity].
      * cbn [players with_players tickInterval]. rewrite Hnz, Hinv.
        f_equal. apply Z.eqb_neq. intros Hz.
        apply Hmore. unfold ps, Assoc.size in *.
        rewrite AssocFacts.length_set.
        destruct (players r); [reflexivity | simpl in Hz; lia].
  - unfold leave, room_after.
    destruct (Assoc.get pid (players r)) as [p|] eqn:E; [|exact Hinv].
    unfold broadcast. rewrite encodeMessage_PlayerLeft. cbn [fst snd].
    cbn [players with_players].
    destruct (Z.eqb_spec (Assoc.size (Assoc.delete pid (players r))) 0) as [Hz|Hnz].
    + rewrite stopTickLoop_off, stopTickLoop_players. cbn [players with_players].
      rewrite Hz. reflexivity.
    + cbn [players with_players tickInterval]. rewrite Hinv.
      apply Z.eqb_neq in Hnz. rewrite Hnz. f_equal. apply Z.eqb_neq.
      apply AssocFacts.get_In in E. unfold Assoc.size.
      destruct (players r); [destruct E | simpl; lia].
  - unfold updatePlayerState.
    destruct (Assoc.get pid (players r)) as [p|] eqn:E; [|exact Hinv].
    cbn [players with_players with_metrics tickInterval]. rewrite Hinv.
    unfold Assoc.size. rewrite AssocFacts.length_set, E. reflexivity.
  - unfold chat, room_after. destruct (Assoc.get _ _); [|exact Hinv].
    destruct (Js.slice _ _); [|exact Hinv].
    destruct (broadcast _ _ _ _); exact Hinv.
  - unfold tick, room_after.
    destruct (Assoc.size (players r) =? 0) eqn:Ez;
      [cbn [fst snd]; rewrite Ez; exact Hinv|].
    destruct (broadcast _ _ _ _); [|cbn [fst snd]; rewrite Ez; exact Hinv].
    cbn [fst snd].
    destruct (_ >=? _); cbn [players with_metrics tickInterval];
      rewrite Ez; exact Hinv.
  - unfold destroy. cbn [fst players with_players tickInterval].
    apply stopTickLoop_off.
Qed.

Lemma run_tick_loop rid cap hz now0 calls :
  forallb string_name calls = true ->
  tickInterval (run calls (new rid cap hz now0))
  = negb (playerCount (run calls (new rid cap hz now0)) =? 0).
Proof.
  assert (H0 : tickInterval (new rid cap hz now0)
               = negb (playerCount (new rid cap hz now0) =? 0)) by reflexivity.
  revert H0. generalize (new rid cap hz now0).
  induction calls as [|c calls IH]; intros r Hinv Hnames; [exact Hinv|].
  simpl in Hnames. apply andb_true_iff in Hnames as [Hc Hrest].
  apply (IH (step r c)); [|exact Hrest].
  apply step_tick_loop; assumption.
Qed.

(** X7.  As long as every [join] is given a string for a display name,
    as its signature says, the interval timer of a room is armed exactly
    while the room has players, whatever calls the room receives: the
    first join arms it, the last leave and [destroy] clear it, and no
    second timer is armed on top of a running one. *)
Theorem tick_loop_runs_iff_occupied
    (rid : string) (cap hz now0 : Z) (calls : list Call) :
  forallb string_name calls = true ->
  isRunning (run calls (new rid cap hz now0))
  = negb (playerCount (run calls (new rid cap hz now0)) =? 0).
Proof.
  unfold isRunning.
  assert (H0 : tickInterval (new rid cap hz now0)
               = negb (playerCount (new rid cap hz now0) =? 0)) by reflexivity.
  revert H0. generalize (new rid cap hz now0).
  induction calls as [|c calls IH]; intros r Hinv Hnames; [exact Hinv|].
  simpl in Hnames. apply andb_true_iff in Hnames as [Hc Hrest].
  apply (IH (step r c)); [|exact Hrest].
  apply step_tick_loop; assumption.
Qed.

Lemma tick_loop_runs_iff_occupied_witness :
  forallb string_name Scenario.arena_calls = true
  /\ isRunning Scenario.arena_full
     = negb (playerCount Scenario.arena_full =? 0).
Proof.
  split; [reflexivity|].
  apply (tick_loop_runs_iff_occupied "arena" 2 20 0 Scenario.arena_calls).
  reflexivity.
Defined.

(** *** Chat *)

Lemma substring_length n s : (String.length (String.substring 0 n s) <= n)%nat.
Proof.
  revert s. induction n as [|n IH]; intros s; destruct s as [|c s]; simpl;
    try lia. specialize (IH s). lia.
Qed.

Lemma substring_prefix n s : exists rest, s = (String.substring 0 n s +:+ rest)%string.
Proof.
  revert s. induction n as [|n IH]; intros s.
  - exists s. destruct s; reflexivity.
  - destruct s as [|c s]; simpl; [exists EmptyString; reflexivity|].
    destruct (IH s) as [rest Hr]. exists rest.
    change (String c s = String c (String.substring 0 n s +:+ rest)%string).
    f_equal. exact Hr.
Qed.

Lemma substring_short n s :
  (String.length s <= n)%nat -> String.substring 0 n s = s.
Proof.
  revert s. induction n as [|n IH]; intros s; destruct s as [|c s]; simpl;
    intros H; try reflexivity; [lia|].
  rewrite IH by lia. reflexivity.
Qed.

Lemma in_fanout_all data net m k p :
  In (k, p) m -> net (ws p) = OPEN -> In (EvSend (ws p) data) (fanout data None net m).
Proof.
  intros Hin Hopen. unfold fanout. apply in_flat_map. exists (k, p).
  split; [exact Hin|]. rewrite Hopen. left. reflexivity.
Qed.

Lemma encodeMessage_Chat pid text :
  encodeMessage (Chat pid (JStr text))
  = Some (MsgPack.enc (to_js (Chat pid (JStr text)))).
Proof. reflexivity. Qed.

(** X8.  [chat] by a member with a message that is an ASCII string
    sends one [chat] envelope, with the sender's id and the first 500
    characters of the message, to every member whose socket is open, the
    sender included, and counts one message.  The text sent is a prefix
    of the message of at most 500 characters, the message itself when
    that is no longer.  [chat] by an id that is not a member does
    nothing.  A message that has no [slice] method (a number, an object,
    [null], no message at all) makes the call throw before anything is
    sent. *)
Theorem chat_reaches_every_member
    (r : Room) (pid : string) (p : Player) (text : string) (net : Net) :
  Assoc.get pid (players r) = Some p ->
  let sent := String.substring 0 500 text in
  let data := MsgPack.enc (to_js (Chat pid (JStr sent))) in
  (Js.ascii text = true ->
   chat pid (JStr text) net r
   = (Returned tt,
      with_metrics (messageCount r + 1) (lastMessageCountReset r)
        (messagesPerSecond r) r,
      fanout data None net (players r))
   /\ (String.length sent <= 500)%nat
   /\ (exists rest, text = (sent +:+ rest)%string)
   /\ ((String.length text <= 500)%nat -> sent = text)
   /\ (net (ws p) = OPEN ->
       In (EvSend (ws p) data) (fanout data None net (players r))))
  /\ (forall q m, Assoc.get q (players r) = None ->
                  chat q m net r = (Returned tt, r, []))
  /\ (forall m, Js.slice 500 m = None -> chat pid m net r = (Thrown, r, [])).
Proof.
  intros Hp sent data.
  split; [intros _; split|].
  { unfold chat. rewrite Hp. cbn [Js.slice]. unfold broadcast.
    rewrite encodeMessage_Chat. reflexivity. }
  { split; [apply substring_length|].
    split; [apply substring_prefix|].
    split; [apply substring_short|].
    intros Hopen. apply (in_fanout_all data net (players r) pid p); [|exact Hopen].
    apply AssocFacts.get_In. exact Hp. }
  split.
  - intros q m Hq. unfold chat. rewrite Hq. reflexivity.
  - intros m Hm. unfold chat. rewrite Hp, Hm. reflexivity.
Qed.

Lemma chat_reaches_every_member_witness :
  chat "a" (JStr "hi") Scenario.two_closed Scenario.arena_three
  = (Returned tt, with_metrics 1 0 0 Scenario.arena_three,
     [EvSend 1%nat (MsgPack.enc (to_js (Chat "a" (JStr "hi"))));
      EvSend 3%nat (MsgPack.enc (to_js (Chat "a" (JStr "hi"))))]).
Proof.
  destruct (chat_reaches_every_member Scenario.arena_three "a" Scenario.ann
              "hi" Scenario.two_closed eq_refl) as [H _].
  destruct (H eq_refl) as [H1 _].
  rewrite H1. reflexivity.
Defined.

(** *** What a snapshot shows of a player *)



(** *** A first join *)

Lemma fanout_not_member data pid net m :
  Assoc.get pid m = None -> fanout data (Some pid) net m = fanout data None net m.
Proof.
  unfold fanout. induction m as [|[k v] m IH]; simpl; [reflexivity|].
  destruct (String.eqb k pid); [discriminate|]. intros E.
  rewrite IH by exact E. reflexivity.
Qed.

Lemma with_tickInterval_id r : with_tickInterval (tickInterval r) r = r.
Proof. destruct r; reflexivity. Qed.

(** X10.  Take a room that calls with string display names have made of
    a new room, and a [join] with a string name for an id that is not a
    member while the room has fewer players than its capacity.  The call
    returns true; the new player is the last in join order, with the
    given socket and name, the neutral state and the time of the call;
    [player_joined] goes to every earlier member whose socket is open and
    to nobody else, the new player included; and the tick loop runs
    afterwards. *)
Theorem new_member_is_appended_and_announced
    (rid : string) (cap hz now0 : Z) (calls : list Call)
    (pid : string) (sock : WebSocket) (name : string) (now : Z) (net : Net) :
  forallb string_name calls = true ->
  let r := run calls (new rid cap hz now0) in
  let fresh :=
    {| player_id := pid; ws := sock; displayName := JStr name;
       state := neutral_state; joinedAt := now |} in
  hasPlayer pid r = false ->
  playerCount r < cap ->
  join pid sock (JStr name) now net r
  = (Returned true,
     with_tickInterval true (with_players (players r ++ [(pid, fresh)]) r),
     fanout (MsgPack.enc (to_js (PlayerJoined pid (JStr name)))) None net
       (players r)).
Proof.
  intros Hnames r fresh Hnew Hroom.
  assert (Hget : Assoc.get pid (players r) = None).
  { unfold hasPlayer, Assoc.has in Hnew.
    destruct (Assoc.get pid (players r)); [discriminate | reflexivity]. }
  pose proof (run_tick_loop rid cap hz now0 calls Hnames) as Htick.
  fold r in Htick.
  destruct (run_within_capacity calls (new rid cap hz now0)) as (_ & Hmax & _).
  { unfold playerCount, Assoc.size in *. simpl in *.
    assert (0 <= Z.of_nat (length (players r))) by lia. lia. }
  fold r in Hmax. simpl in Hmax.
  unfold join, isFull. change (Assoc.size (players r)) with (playerCount r).
  destruct (Z.geb_spec (playerCount r) (maxPlayers r)) as [Hge|_]; [lia|].
  unfold broadcast. rewrite encodeMessage_PlayerJoined.
  cbn [players with_players tickInterval].
  rewrite fanout_set_excluded, (fanout_not_member _ _ _ _ Hget).
  fold fresh. rewrite (AssocFacts.set_fresh pid fresh (players r) Hget).
  f_equal. f_equal.
  destruct (Z.eqb_spec (Assoc.size (players r ++ [(pid, fresh)])) 1) as [Hone|Hmore];
    cbn [andb].
  - destruct (tickInterval r) eqn:Et; cbn [negb]; [|reflexivity].
    rewrite <- (with_tickInterval_id (with_players _ r)) at 1.
    cbn [tickInterval with_players]. rewrite Et. reflexivity.
  - assert (Ht : tickInterval r = true).
    { rewrite Htick. apply negb_true_iff, Z.eqb_neq. intros Hz. apply Hmore.
      unfold playerCount, Assoc.size in *. rewrite length_app. simpl. lia. }
    rewrite <- (with_tickInterval_id (with_players _ r)) at 1.
    cbn [tickInterval with_players]. rewrite Ht. reflexivity.
Qed.

Lemma new_member_is_appended_and_announced_witness :
  join "b" 2%nat (JStr "Bob") 20 Scenario.all_open Scenario.arena_one
  = (Returned true,
     with_tickInterval true
       (with_players
          (players Scenario.arena_one
             ++ [("b"%string,
                  {| player_id := "b"; ws := 2%nat; displayName := JStr "Bob";
                     state := neutral_state; joinedAt := 20 |})])
          Scenario.arena_one),
     [EvSend 1%nat (MsgPack.enc (to_js (PlayerJoined "b" (JStr "Bob"))))]).
Proof.
  exact (new_member_is_appended_and_announced "arena" 4 20 0
           [CallJoin "a" 1%nat (JStr "Ann") 10 Scenario.all_open]
           "b" 2%nat "Bob" 20 Scenario.all_open eq_refl eq_refl eq_refl).
Defined.

End AuthRoomFacts.

(** ** The relay room *)
Module RelayRoomFacts.
Import Relay.

(** *** Encoding never fails on the room's own envelopes *)

Lemma encodable_strings depth (l : list string) :
  (S depth <= MsgPack.maxDepth)%nat ->
  forallb (MsgPack.encodable (S depth)) (map JStr l) = true.
Proof.
  intros Hd. induction l as [|s l IH]; simpl; [reflexivity|].
  rewrite IH, andb_true_r.
  destruct depth as [|depth]; [reflexivity|].
  apply andb_true_iff. split; [|reflexivity].
  apply Nat.leb_le. unfold MsgPack.maxDepth in *. lia.
Qed.

Lemma encodeMessage_Welcome v pid l :
  encodeMessage (Welcome v pid l) = Some (MsgPack.enc (to_js (Welcome v pid l))).
Proof.
  unfold encodeMessage, MsgPack.encode.
  assert (H : MsgPack.encodable 1 (to_js (Welcome v pid l)) = true).
  { cbn -[MsgPack.maxDepth]. 
    pose proof (encodable_strings 2 l) as Hl.
    cbn -[MsgPack.maxDepth] in Hl |- *.
    rewrite Hl by (unfold MsgPack.maxDepth; lia). reflexivity. }
  rewrite H. reflexivity.
Qed.

Lemma encodeMessage_PeerJoined pid :
  encodeMessage (PeerJoined pid) = Some (MsgPack.enc (to_js (PeerJoined pid))).
Proof. reflexivity. Qed.

Lemma encodeMessage_PeerLeft pid :
  encodeMessage (PeerLeft pid) = Some (MsgPack.enc (to_js (PeerLeft pid))).
Proof. reflexivity. Qed.

Lemma relay_encodes_Error code message :
  encodeMessage (Error code message)
  = Some (MsgPack.enc (to_js (Error code message))).
Proof. reflexivity. Qed.

Lemma send_Welcome sock v pid l net :
  send sock (Welcome v pid l) net
  = Some (if net sock =? OPEN
          then [EvSend sock (MsgPack.enc (to_js (Welcome v pid l)))]
          else []).
Proof.
  unfold send. rewrite encodeMessage_Welcome. destruct (_ =? _); reflexivity.
Qed.

(** *** What the calls return *)

(** What [join] returns, on both paths. *)
Lemma join_result pid sock now net r :
  join pid sock now net r
  = if isFull r
    then (Returned false, r,
          [EvSend sock
             (MsgPack.enc (to_js (Error "ROOM_FULL" (full_message r))))])
    else (Returned true,
          with_peers
            (Assoc.set pid {| peer_id := pid; ws := sock; joinedAt := now |}
               (peers r)) r,
          (if net sock =? OPEN
           then [EvSend sock
                   (MsgPack.enc
                      (to_js (Welcome PROTOCOL_VERSION pid
                                (map (fun '(_, peer) => peer_id peer) (peers r)))))]
           else [])
          ++ fanout (MsgPack.enc (to_js (PeerJoined pid))) (Some pid) net
               (Assoc.set pid {| peer_id := pid; ws := sock; joinedAt := now |}
                  (peers r))).
Proof.
  unfold join. destruct (isFull r).
  - rewrite relay_encodes_Error. reflexivity.
  - rewrite send_Welcome. unfold broadcast. rewrite encodeMessage_PeerJoined.
    reflexivity.
Qed.

Lemma leave_result pid net r :
  leave pid net r
  = match Assoc.get pid (peers r) with
    | None => (Returned tt, r, [])
    | Some _ =>
        (Returned tt, with_peers (Assoc.delete pid (peers r)) r,
         fanout (MsgPack.enc (to_js (PeerLeft pid))) None net
           (Assoc.delete pid (peers r)))
    end.
Proof.
  unfold leave. destruct (Assoc.get pid (peers r)); [|reflexivity].
  unfold broadcast. rewrite encodeMessage_PeerLeft. reflexivity.
Qed.

Lemma relay_peers fromId data net r :
  peers (room_after (relay fromId data net r)) = peers r.
Proof.
  unfold relay, room_after. destruct (Assoc.get _ _); [|reflexivity].
  destruct (broadcast _ _ _ _); reflexivity.
Qed.

Lemma relay_step_constants r c :
  maxPlayers (step r c) = maxPlayers r /\ id (step r c) = id r.
Proof.
  destruct c; simpl; unfold room_after.
  - rewrite join_result. destruct (isFull r); auto.
  - rewrite leave_result. destruct (Assoc.get _ _); auto.
  - unfold relay. destruct (Assoc.get _ _); [|auto].
    destruct (broadcast _ _ _ _); auto.
  - unfold updateMetrics. destruct (_ >=? _); auto.
  - auto.
Qed.

Lemma step_peers r c :
  peers (step r c)
  = match c with
    | CallJoin pid sock now net =>
        if isFull r then peers r
        else Assoc.set pid {| peer_id := pid; ws := sock; joinedAt := now |}
               (peers r)
    | CallLeave pid net => Assoc.delete pid (peers r)
    | CallDestroy => []
    | _ => peers r
    end.
Proof.
  destruct c; simpl; unfold room_after.
  - rewrite join_result. destruct (isFull r); reflexivity.
  - rewrite leave_result. destruct (Assoc.get pid (peers r)) eqn:E; [reflexivity|].
    simpl. symmetry. apply AuthRoomFacts.delete_absent. exact E.
  - apply relay_peers.
  - unfold updateMetrics. destruct (_ >=? _); reflexivity.
  - reflexivity.
Qed.

Lemma relay_step_within_capacity r c :
  playerCount r <= maxPlayers r ->
  playerCount (step r c) <= maxPlayers (step r c).
Proof.
  intros Hinv. rewrite (proj1 (relay_step_constants r c)). revert Hinv.
  unfold playerCount, Assoc.size. rewrite step_peers. destruct c.
  - unfold isFull, Assoc.size.
    destruct (Z.geb_spec (Z.of_nat (length (peers r))) (maxPlayers r)); [tauto|].
    rewrite AssocFacts.length_set. destruct (Assoc.get pid (peers r)); lia.
  - rewrite AssocFacts.length_delete. destruct (Assoc.get pid (peers r)); lia.
  - tauto.
  - tauto.
  - simpl. lia.
Qed.

Lemma step_keyed_by_id r c : keyed_by_id r -> keyed_by_id (step r c).
Proof.
  intros [Hnd Hid]. unfold keyed_by_id. rewrite step_peers. destruct c.
  - destruct (isFull r); [split; assumption|]. split.
    + apply AssocFacts.set_keys_NoDup. exact Hnd.
    + intros k peer Hin. apply AssocFacts.in_set in Hin as [[= -> ->]|Hin];
        [reflexivity | apply Hid, Hin].
  - split.
    + apply AssocFacts.delete_keys_NoDup. exact Hnd.
    + intros k peer Hin. apply Hid. eapply AssocFacts.in_delete. exact Hin.
  - split; assumption.
  - split; assumption.
  - split; [apply NoDup_nil_2 | intros k peer []].
Qed.

Lemma run_invariants calls r :
  playerCount r <= maxPlayers r -> keyed_by_id r ->
  playerCount (run calls r) <= maxPlayers r
  /\ maxPlayers (run calls r) = maxPlayers r
  /\ id (run calls r) = id r
  /\ keyed_by_id (run calls r).
Proof.
  revert r. induction calls as [|c calls IH]; simpl; intros r Hinv Hk; [auto|].
  destruct (relay_step_constants r c) as [Hm Hi].
  destruct (IH (step r c) (relay_step_within_capacity r c Hinv) (step_keyed_by_id r c Hk))
    as (H1 & H2 & H3 & H4).
  rewrite Hm in H1. split; [exact H1|]. split; [congruence|]. split; [congruence|].
  exact H4.
Qed.

Lemma run_constants calls r :
  maxPlayers (run calls r) = maxPlayers r /\ id (run calls r) = id r
  /\ (keyed_by_id r -> keyed_by_id (run calls r)).
Proof.
  revert r. induction calls as [|c calls IH]; simpl; intros r; [auto|].
  destruct (relay_step_constants r c) as [Hm Hi].
  destruct (IH (step r c)) as (H1 & H2 & H3).
  split; [congruence|]. split; [congruence|].
  intros Hk. apply H3, step_keyed_by_id, Hk.
Qed.

Lemma new_keyed_by_id rid cap now0 : keyed_by_id (new rid cap now0).
Proof. split; [apply NoDup_nil_2 | intros k peer []]. Qed.

Lemma keys_of_ids r :
  keyed_by_id r -> map (fun '(_, peer) => peer_id peer) (peers r) = Assoc.keys (peers r).
Proof.
  intros [_ Hid]. unfold Assoc.keys. apply map_ext_in.
  intros [k peer] Hin. simpl. apply Hid. exact Hin.
Qed.

(** X11.  Take any room that a sequence of calls has made of a new relay
    room of capacity [cap >= 0].  It holds at most [cap] peers; its id
    and capacity are those it was built with; no id is in it twice; and
    the peer stored under an id carries that id. *)
Theorem relay_room_never_exceeds_capacity
    (rid : string) (cap now0 : Z) (calls : list Call) :
  0 <= cap ->
  let r := run calls (new rid cap now0) in
  playerCount r <= cap
  /\ maxPlayers r = cap
  /\ id r = rid
  /\ NoDup (Assoc.keys (peers r))
  /\ forall k peer, Assoc.get k (peers r) = Some peer -> peer_id peer = k.
Proof.
  intros Hcap r.
  destruct (run_invariants calls (new rid cap now0)) as (H1 & H2 & H3 & H4 & H5);
    [simpl; exact Hcap | apply new_keyed_by_id |].
  split; [exact H1|]. split; [exact H2|]. split; [exact H3|]. split; [exact H4|].
  intros k peer Hget. apply H5. apply AssocFacts.get_In. exact Hget.
Qed.

Lemma relay_room_never_exceeds_capacity_witness :
  playerCount Scenario.duo <= 3
  /\ Assoc.keys (peers Scenario.duo) = ["c1"; "c2"]%string.
Proof.
  destruct (relay_room_never_exceeds_capacity "arena" 3 0 Scenario.duo_calls)
    as (Hcount & _); [lia|].
  split; [exact Hcount | reflexivity].
Defined.

(** *** Fan-out *)

Lemma relay_fanout_set_excluded data pid p net m :
  fanout data (Some pid) net (Assoc.set pid p m) = fanout data (Some pid) net m.
Proof.
  unfold fanout. induction m as [|[k v] m IH]; simpl.
  - rewrite String.eqb_refl. reflexivity.
  - destruct (String.eqb_spec k pid) as [->|Hne]; simpl.
    + rewrite String.eqb_refl. reflexivity.
    + destruct (String.eqb_spec k pid); [contradiction|]. rewrite IH. reflexivity.
Qed.

Lemma relay_in_fanout_excluding data pid net m ev :
  In ev (fanout data (Some pid) net m) <->
  exists k p,
    In (k, p) m /\ k <> pid /\ net (ws p) = OPEN /\ ev = EvSend (ws p) data.
Proof.
  unfold fanout. rewrite in_flat_map. split.
  - intros ([k p] & Hin & Hev).
    destruct (String.eqb_spec k pid); [destruct Hev|].
    destruct (Z.eqb_spec (net (ws p)) OPEN); [|destruct Hev].
    destruct Hev as [<-|[]]. exists k, p. auto.
  - intros (k & p & Hin & Hne & Hopen & ->). exists (k, p). split; [exact Hin|].
    destruct (String.eqb_spec k pid); [contradiction|].
    rewrite Hopen. simpl. left. reflexivity.
Qed.

(** X12.  Take any room that a sequence of calls has made of a new relay
    room, holding fewer peers than its capacity.  [join] returns true
    and stores the peer under its id with the given socket and the time
    of the call.  If the socket is open it is first sent [welcome] with
    protocol version 1, the peer's id and the ids of the peers that were
    in the room before the call, in join order (its own id among them
    when it joins a second time); then [peer_joined] goes to every other
    peer whose socket is open. *)
Theorem join_welcomes_then_announces
    (rid : string) (cap now0 : Z) (calls : list Call)
    (pid : string) (sock : WebSocket) (now : Z) (net : Net) :
  let r := run calls (new rid cap now0) in
  playerCount r < cap ->
  join pid sock now net r
  = (Returned true,
     with_peers
       (Assoc.set pid {| peer_id := pid; ws := sock; joinedAt := now |}
          (peers r)) r,
     (if net sock =? OPEN
      then [EvSend sock
              (MsgPack.enc (to_js (Welcome 1 pid (Assoc.keys (peers r)))))]
      else [])
     ++ fanout (MsgPack.enc (to_js (PeerJoined pid))) (Some pid) net (peers r)).
Proof.
  intros r Hroom.
  destruct (run_constants calls (new rid cap now0)) as (Hmax & _ & Hk).
  fold r in Hmax, Hk. simpl in Hmax. specialize (Hk (new_keyed_by_id _ _ _)).
  rewrite join_result. unfold isFull.
  change (Assoc.size (peers r)) with (playerCount r).
  destruct (Z.geb_spec (playerCount r) (maxPlayers r)) as [Hge|_]; [lia|].
  rewrite relay_fanout_set_excluded, (keys_of_ids r Hk). reflexivity.
Qed.

Lemma join_welcomes_then_announces_witness :
  join "c2" 2%nat 1 Scenario.all_open
    (run [CallJoin "c1" 1%nat 0 Scenario.all_open] (new "arena" 3 0))
  = (Returned true, Scenario.duo,
     [EvSend 2%nat (MsgPack.enc (to_js (Welcome 1 "c2" ["c1"%string])));
      EvSend 1%nat (MsgPack.enc (to_js (PeerJoined "c2")))]).
Proof.
  exact (join_welcomes_then_announces "arena" 3 0
           [CallJoin "c1" 1%nat 0 Scenario.all_open] "c2" 2%nat 1
           Scenario.all_open eq_refl).
Defined.

(** X13.  Take any room that a sequence of calls has made of a new relay
    room.  [leave] never throws and leaves the id out of the room, with
    every other peer's record as it was.  For an id that is not a peer
    it changes nothing and sends nothing.  For a peer the count goes
    down by one and [peer_left] is sent to every remaining peer whose
    socket is open, in join order, and to nobody else. *)
Theorem peer_leave_notifies_the_rest
    (rid : string) (cap now0 : Z) (calls : list Call) (pid : string) (net : Net) :
  let r := run calls (new rid cap now0) in
  let result := leave pid net r in
  let r' := room_after result in
  fst (fst result) = Returned tt
  /\ peers r' = Assoc.delete pid (peers r)
  /\ hasPeer pid r' = false
  /\ (forall q, q <> pid -> Assoc.get q (peers r') = Assoc.get q (peers r))
  /\ (hasPeer pid r = false -> result = (Returned tt, r, []))
  /\ (hasPeer pid r = true ->
      playerCount r' = playerCount r - 1
      /\ snd result
         = fanout (MsgPack.enc (to_js (PeerLeft pid))) None net (peers r')).
Proof.
  intros r result r'.
  destruct (run_constants calls (new rid cap now0)) as (_ & _ & Hk).
  fold r in Hk. destruct (Hk (new_keyed_by_id _ _ _)) as [Hnd _].
  assert (Hp : peers r' = Assoc.delete pid (peers r))
    by apply (step_peers r (CallLeave pid net)).
  subst r' result. rewrite leave_result in *.
  unfold hasPeer, Assoc.has.
  split; [destruct (Assoc.get pid (peers r)); reflexivity|].
  split; [exact Hp|]. split; [|split; [|split]].
  - rewrite Hp, AssocFacts.get_delete_eq by exact Hnd. reflexivity.
  - intros q Hq. rewrite Hp. apply AssocFacts.get_delete_ne. congruence.
  - destruct (Assoc.get pid (peers r)); [discriminate | reflexivity].
  - destruct (Assoc.get pid (peers r)) as [p|] eqn:E; [intros _ | discriminate].
    split; [|reflexivity].
    unfold playerCount, Assoc.size, room_after. cbn [fst snd peers with_peers].
    rewrite AssocFacts.length_delete, E.
    apply AssocFacts.get_In in E. destruct (peers r); [destruct E|].
    simpl length. lia.
Qed.

Lemma encodable_RelayMessage fromId data :
  MsgPack.encodable 1 (to_js (RelayMessage fromId data))
  = MsgPack.encodable 2 data.
Proof. cbn -[MsgPack.encodable]. simpl. rewrite andb_true_r. reflexivity. Qed.

(** *** Relaying *)

(** What [relay] returns for a peer when the envelope can be encoded. *)
Lemma relay_result r fromId peer data net :
  Assoc.get fromId (peers r) = Some peer ->
  MsgPack.encodable 1 (to_js (RelayMessage fromId data)) = true ->
  relay fromId data net r
  = (Returned tt,
     with_metrics (messageCount r + 1) (lastMessageCountReset r)
       (messagesPerSecond r) r,
     fanout (MsgPack.enc (to_js (RelayMessage fromId data))) (Some fromId) net
       (peers r)).
Proof.
  intros Hp Henc. unfold relay. rewrite Hp.
  unfold broadcast, encodeMessage, MsgPack.encode. rewrite Henc. reflexivity.
Qed.

(** X14.  [relay] by a peer, with data that the codec can carry, sends
    one [relay] envelope with the sender's id and the data to every
    other peer whose socket is open, in join order, and to nobody else:
    not to the sender, not to a closed socket; it counts one message.
    The bytes sent decode, by the same [decodeMessage], to the envelope
    with the data unchanged. *)
Theorem relay_reaches_every_other_peer
    (r : Room) (fromId : string) (peer : Peer) (data : jsval) (net : Net) :
  Assoc.get fromId (peers r) = Some peer ->
  MsgPack.valid (to_js (RelayMessage fromId data)) = true ->
  let bytes := MsgPack.enc (to_js (RelayMessage fromId data)) in
  relay fromId data net r
  = (Returned tt,
     with_metrics (messageCount r + 1) (lastMessageCountReset r)
       (messagesPerSecond r) r,
     fanout bytes (Some fromId) net (peers r))
  /\ (forall ev,
        In ev (fanout bytes (Some fromId) net (peers r)) <->
        exists k p,
          In (k, p) (peers r) /\ k <> fromId /\ net (ws p) = OPEN
          /\ ev = EvSend (ws p) bytes)
  /\ decodeMessage bytes
     = Some (JObj [("type", JStr "relay"); ("from", JStr fromId);
                   ("data", data)]%string).
Proof.
  intros Hp Hvalid bytes. unfold MsgPack.valid in Hvalid.
  apply andb_true_iff in Hvalid as [Hwf Henc].
  split; [|split].
  - apply (relay_result r fromId peer data net Hp Henc).
  - intros ev. apply relay_in_fanout_excluding.
  - apply (ProtocolFacts.relay_accepts_envelope (RelayMessage fromId data)).
    apply MsgPackFacts.decode_enc. exact Hwf.
Qed.

Lemma relay_reaches_every_other_peer_witness :
  relay "c1" Scenario.position_update Scenario.all_open Scenario.duo
  = (Returned tt, with_metrics 1 0 0 Scenario.duo,
     [EvSend 2%nat
        (MsgPack.enc (to_js (RelayMessage "c1" Scenario.position_update)))])
  /\ decodeMessage
       (MsgPack.enc (to_js (RelayMessage "c1" Scenario.position_update)))
     = Some (JObj [("type", JStr "relay"); ("from", JStr "c1");
                   ("data", Scenario.position_update)]%string).
Proof.
  destruct (relay_reaches_every_other_peer Scenario.duo "c1"
              {| peer_id := "c1"; ws := 1%nat; joinedAt := 0 |}
              Scenario.position_update Scenario.all_open eq_refl eq_refl)
    as (H1 & _ & H2).
  split; [exact H1 | exact H2].
Defined.

End RelayRoomFacts.

(** ** The session routers *)
Module RouterFacts.

Lemma relay_encodeMessage_Error code message :
  Relay.encodeMessage (Relay.Error code message)
  = Some (MsgPack.enc (Relay.to_js (Relay.Error code message))).
Proof. reflexivity. Qed.

Lemma relay_encodeMessage_PeerJoined pid :
  Relay.encodeMessage (Relay.PeerJoined pid)
  = Some (MsgPack.enc (Relay.to_js (Relay.PeerJoined pid))).
Proof. reflexivity. Qed.

Lemma relay_encodeMessage_Welcome version pid peers :
  Relay.encodeMessage (Relay.Welcome version pid peers)
  = Some (MsgPack.enc (Relay.to_js (Relay.Welcome version pid peers))).
Proof.
  unfold Relay.encodeMessage, MsgPack.encode.
  assert (H : MsgPack.encodable 1 (Relay.to_js (Relay.Welcome version pid peers)) = true).
  { cbn. rewrite andb_true_r.
    induction peers as [|x peers IH]; [reflexivity | exact IH]. }
  rewrite H. reflexivity.
Qed.

(** [join] on a full relay room: the error goes to the caller, nothing
    else happens. *)
Lemma relay_join_full pid sock now net r :
  Relay.isFull r = true ->
  Relay.join pid sock now net r
  = (Returned false, r,
     [EvSend sock
        (MsgPack.enc
           (Relay.to_js
              (Relay.Error "ROOM_FULL" (Relay.full_message r))))]).
Proof.
  intros H. unfold Relay.join. rewrite H, relay_encodeMessage_Error. reflexivity.
Qed.

(** [join] on a relay room with a free place returns true and registers
    the peer. *)
Lemma relay_join_free pid sock now net r :
  Relay.isFull r = false ->
  exists evs,
    Relay.join pid sock now net r
    = (Returned true,
       Relay.with_peers
         (Assoc.set pid
            {| Relay.peer_id := pid; Relay.ws := sock; Relay.joinedAt := now |}
            (Relay.peers r)) r,
       evs).
Proof.
  intros H. unfold Relay.join, Relay.send, Relay.broadcast. rewrite H.
  rewrite relay_encodeMessage_Welcome, relay_encodeMessage_PeerJoined.
  destruct (net sock =? OPEN); eexists; reflexivity.
Qed.

Lemma getOrCreateRoom_deref cfg rid now srv :
  Relay.registry_valid srv ->
  exists r,
    Relay.deref (fst (Relay.getOrCreateRoom cfg rid now srv))
      (snd (Relay.getOrCreateRoom cfg rid now srv)) = Some r
    /\ Relay.maxPlayers r
       = match Relay.rooms srv !! rid with
         | Some ref =>
             match Relay.deref ref srv with
             | Some r0 => Relay.maxPlayers r0
             | None => 0
             end
         | None => Relay.MAX_PLAYERS_PER_ROOM cfg
         end.
Proof.
  intros Hv. unfold Relay.getOrCreateRoom, Relay.deref.
  destruct (Relay.rooms srv !! rid) as [ref|] eqn:E; simpl.
  - apply Hv in E. apply lookup_lt_is_Some in E as [r Hr].
    exists r. rewrite Hr. auto.
  - exists (Relay.new rid (Relay.MAX_PLAYERS_PER_ROOM cfg) now).
    rewrite lookup_app_r, Nat.sub_diag by lia. auto.
Qed.

(** *** Explicit join and auto-join *)

(** The [message] handler of the authoritative profile on a connection
    that has not joined, for an admitted, well-formed message that is not
    a [join]. *)
Lemma auth_message_before_join (decode : list Z -> option jsval)
    cfg sock meta data now net srv message :
  Auth.joined meta = false ->
  fst (RateLimit.allow (Auth.clientId meta) now (Auth.rateLimiter srv)) = true ->
  Auth.decodeMessage_with decode data = Some message ->
  Js.eq_str (default JUndefined (Js.get "type" message)) "join" = false ->
  Auth.onMessage decode cfg sock meta data now net srv
  = (Returned tt, meta,
     Auth.with_rooms
       (match Auth.rooms srv !! Auth.roomId meta with
        | Some _ => Auth.rooms srv
        | None =>
            <[Auth.roomId meta :=
                Auth.new (Auth.roomId meta) (Auth.MAX_PLAYERS_PER_ROOM cfg)
                  (Auth.SNAPSHOT_HZ cfg) now]> (Auth.rooms srv)
        end)
       (Auth.with_rateLimiter
          (snd (RateLimit.allow (Auth.clientId meta) now (Auth.rateLimiter srv)))
          srv),
     if Js.eq_str (default JUndefined (Js.get "type" message)) "state"
     then [EvSend sock
             (MsgPack.enc
                (Auth.to_js
                   (Auth.Error "NOT_JOINED"
                      ("Send a " +:+ Js.dquote +:+ "join" +:+ Js.dquote
                         +:+ " message first"))))]
     else []).
Proof.
  intros Hj Hallow Hdec Htype. unfold Auth.onMessage.
  destruct (RateLimit.allow _ _ _) as [ok rl]. simpl in Hallow. subst ok.
  cbn [negb snd]. rewrite Hdec.
  unfold Auth.getOrCreateRoom. cbn [Auth.rooms Auth.with_rateLimiter].
  unfold Auth.dispatch. rewrite Htype, Hj. cbn [negb].
  destruct (Auth.rooms srv !! Auth.roomId meta) as [room|] eqn:E;
    destruct (Js.eq_str _ "state"); cbn;
    try destruct (Js.eq_str _ "chat"); cbn;
    rewrite ?insert_insert_eq, ?(insert_id _ _ _ E); reflexivity.
Qed.

Lemma relay_connection cfg sock clientId roomId now net srv :
  Relay.registry_valid srv ->
  let created := Relay.getOrCreateRoom cfg roomId now srv in
  let result := Relay.onConnection cfg sock clientId roomId now net srv in
  exists r,
    Relay.deref (fst created) (snd created) = Some r
    /\ (Relay.maxPlayers r <= Relay.playerCount r ->
        result
        = (Returned None, snd created,
           [EvSend sock
              (MsgPack.enc
                 (Relay.to_js
                    (Relay.Error "ROOM_FULL" (Relay.full_message r))));
            EvClose sock 1013 "Room full"]))
    /\ (Relay.playerCount r < Relay.maxPlayers r ->
        fst (fst result)
        = Returned (Some {| Relay.clientId := clientId;
                            Relay.roomId := roomId;
                            Relay.room := fst created |})
        /\ exists r',
             Relay.deref (fst created) (snd (fst result)) = Some r'
             /\ Relay.hasPeer clientId r' = true).
Proof.
  intros Hv created result.
  destruct (getOrCreateRoom_deref cfg roomId now srv Hv) as (r & Hr & _).
  fold created in Hr. exists r. split; [exact Hr|].
  subst result. unfold Relay.onConnection. fold created.
  destruct created as [ref srv1]. cbn [fst snd] in *. rewrite Hr.
  split.
  - intros Hfull. rewrite relay_join_full
      by (unfold Relay.isFull; apply Z.geb_le; exact Hfull).
    cbn. unfold Relay.store, Relay.with_heap.
    unfold Relay.deref in Hr. rewrite list_insert_id by exact Hr.
    destruct srv1; reflexivity.
  - intros Hfree.
    destruct (relay_join_free clientId sock now net r) as [evs ->].
    { unfold Relay.isFull. destruct (Z.geb_spec (Assoc.size (Relay.peers r))
                                       (Relay.maxPlayers r)) as [Hge|_];
        [unfold Relay.playerCount in Hfree; lia | reflexivity]. }
    cbn. split; [reflexivity|].
    eexists. split.
    + unfold Relay.deref, Relay.store. cbn.
      apply list_lookup_insert_eq. unfold Relay.deref in Hr.
      apply lookup_lt_Some in Hr. exact Hr.
    + unfold Relay.hasPeer, Assoc.has. cbn.
      rewrite AssocFacts.get_set_eq. reflexivity.
Qed.

(** C5, as the code has it.  It is the authoritative profile that waits
    for an explicit join: on a connection that has not joined, an
    admitted message that decodes and is not a [join] changes neither the
    connection nor any room (its room is created if it did not exist),
    closes nothing, and is answered only when its type is [state], with
    the NOT_JOINED error envelope.  It is the relay profile that joins at
    connect time: when the room of the connection is full the handler
    sends it the ROOM_FULL envelope, closes it with code 1013 and
    registers nothing; otherwise the client is a member when the handler
    returns. *)
Theorem explicit_join_and_auto_join (decode : list Z -> option jsval)
    (acfg : Auth.Config) (sock : WebSocket) (meta : Auth.Meta)
    (data : list Z) (now : Z) (net : Net) (asrv : Auth.Server)
    (message : jsval)
    (rcfg : Relay.Config) (clientId roomId : string) (rsrv : Relay.Server) :
  Auth.joined meta = false ->
  fst (RateLimit.allow (Auth.clientId meta) now (Auth.rateLimiter asrv)) = true ->
  Auth.decodeMessage_with decode data = Some message ->
  Js.eq_str (default JUndefined (Js.get "type" message)) "join" = false ->
  Relay.registry_valid rsrv ->
  let created := Relay.getOrCreateRoom rcfg roomId now rsrv in
  let result := Relay.onConnection rcfg sock clientId roomId now net rsrv in
  Auth.onMessage decode acfg sock meta data now net asrv
  = (Returned tt, meta,
     Auth.with_rooms
       (match Auth.rooms asrv !! Auth.roomId meta with
        | Some _ => Auth.rooms asrv
        | None =>
            <[Auth.roomId meta :=
                Auth.new (Auth.roomId meta) (Auth.MAX_PLAYERS_PER_ROOM acfg)
                  (Auth.SNAPSHOT_HZ acfg) now]> (Auth.rooms asrv)
        end)
       (Auth.with_rateLimiter
          (snd (RateLimit.allow (Auth.clientId meta) now (Auth.rateLimiter asrv)))
          asrv),
     if Js.eq_str (default JUndefined (Js.get "type" message)) "state"
     then [EvSend sock
             (MsgPack.enc
                (Auth.to_js
                   (Auth.Error "NOT_JOINED"
                      ("Send a " +:+ Js.dquote +:+ "join" +:+ Js.dquote
                         +:+ " message first"))))]
     else [])
  /\ Auth.onConnection sock (Some meta) asrv = (true, asrv, [])
  /\ exists r,
       Relay.deref (fst created) (snd created) = Some r
       /\ (Relay.maxPlayers r <= Relay.playerCount r ->
           result
           = (Returned None, snd created,
              [EvSend sock
                 (MsgPack.enc
                    (Relay.to_js
                       (Relay.Error "ROOM_FULL" (Relay.full_message r))));
               EvClose sock 1013 "Room full"]))
       /\ (Relay.playerCount r < Relay.maxPlayers r ->
           fst (fst result)
           = Returned (Some {| Relay.clientId := clientId;
                               Relay.roomId := roomId;
                               Relay.room := fst created |})
           /\ exists r',
                Relay.deref (fst created) (snd (fst result)) = Some r'
                /\ Relay.hasPeer clientId r' = true).
Proof.
  intros Hj Hallow Hdec Htype Hv created result.
  split; [apply auth_message_before_join; assumption|].
  split; [reflexivity|].
  apply relay_connection. exact Hv.
Qed.

(** *** The hello handshake *)

(** C10.  In the relay router, for an admitted message that decodes to a
    value whose [type] is ['hello']: the handler returns, only the rate
    limiter has changed (so nothing was relayed), and what it sends
    depends on [protocolVersion] alone.  Absent, or anything but a
    number: nothing.  The server's version, 1: nothing.  Any other
    number: the BAD_PROTOCOL error envelope followed by a close with code
    1008. *)
Theorem hello_is_consumed (decode : list Z -> option jsval)
    (float_to_string : Z -> string) (sock : WebSocket) (conn : Relay.Conn)
    (raw : list Z) (now : Z) (net : Net) (srv : Relay.Server)
    (message : jsval) :
  fst (RateLimit.allow (Relay.clientId conn) now (Relay.rateLimiter srv)) = true ->
  Relay.decodeMessage_with decode raw = Some message ->
  Js.get "type" message = Some (JStr "hello") ->
  let mismatch (client : string) :=
    [EvSend sock
       (MsgPack.enc
          (Relay.to_js
             (Relay.Error "BAD_PROTOCOL"
                ("Protocol mismatch. Server=1, Client=" +:+ client))));
     EvClose sock 1008 "BAD_PROTOCOL"] in
  Relay.onMessage decode float_to_string sock conn raw now net srv
  = (Returned tt,
     Relay.with_rateLimiter
       (snd (RateLimit.allow (Relay.clientId conn) now (Relay.rateLimiter srv)))
       srv,
     match default JUndefined (Js.get "protocolVersion" message) with
     | JNum n => if n =? 1 then [] else mismatch (Js.string_of_Z n)
     | JFloat b => mismatch (float_to_string b)
     | _ => []
     end).
Proof.
  intros Hallow Hdec Htype mismatch. unfold Relay.onMessage.
  destruct (RateLimit.allow _ _ _) as [ok rl]. simpl in Hallow. subst ok.
  cbn [negb snd]. rewrite Hdec, Htype. cbn [default Js.eq_str].
  change (String.eqb "hello" "hello") with true. cbv iota.
  destruct (default JUndefined (Js.get "protocolVersion" message))
    as [| |b|n|b|s|d|l|fs|ty d]; try reflexivity.
  cbn [Js.typeof_number Js.eq_int andb]. unfold Relay.PROTOCOL_VERSION.
  destruct (n =? 1); reflexivity.
Qed.

(** *** Disconnect *)

(** The authoritative room that [leave] makes of a room whose only member
    leaves: no players, no tick loop. *)
Lemma auth_leave_last pid p net room :
  Auth.players room = [(pid, p)] ->
  Auth.leave pid net room
  = (Returned tt, Auth.stopTickLoop (Auth.with_players [] room), []).
Proof.
  intros Hp. unfold Auth.leave. rewrite Hp. cbn [Assoc.get].
  rewrite String.eqb_refl. cbn [Assoc.delete]. rewrite String.eqb_refl.
  unfold Auth.broadcast. rewrite AuthRoomFacts.encodeMessage_PlayerLeft.
  reflexivity.
Qed.

Lemma auth_close_last_member meta net srv room p :
  Auth.rooms srv !! Auth.roomId meta = Some room ->
  Auth.players room = [(Auth.clientId meta, p)] ->
  Auth.onClose meta net srv
  = (Returned tt,
     Auth.with_rooms
       (if String.eqb (Auth.roomId meta) "lobby"
        then <[Auth.roomId meta :=
                 Auth.stopTickLoop (Auth.with_players [] room)]>
               (Auth.rooms srv)
        else delete (Auth.roomId meta) (Auth.rooms srv))
       (Auth.with_rateLimiter
          (RateLimit.remove (Auth.clientId meta) (Auth.rateLimiter srv)) srv),
     snd (Auth.destroy (Auth.stopTickLoop (Auth.with_players [] room)))).
Proof.
  intros Hroom Hp. unfold Auth.onClose.
  cbn [Auth.rooms Auth.with_rateLimiter]. rewrite Hroom.
  rewrite (auth_leave_last _ p) by exact Hp.
  assert (Hcount : Auth.playerCount (Auth.stopTickLoop (Auth.with_players [] room)) = 0).
  { unfold Auth.playerCount. rewrite AuthRoomFacts.stopTickLoop_players. reflexivity. }
  rewrite Hcount. cbn [Z.eqb andb].
  assert (Hd : snd (Auth.destroy (Auth.stopTickLoop (Auth.with_players [] room))) = []).
  { unfold Auth.destroy. cbn [snd].
    rewrite !AuthRoomFacts.stopTickLoop_players. reflexivity. }
  rewrite Hd.
  destruct (String.eqb (Auth.roomId meta) "lobby"); cbn [negb].
  - reflexivity.
  - destruct (Auth.destroy _) as [r2 evs] eqn:E. cbn [snd] in Hd. subst evs.
    reflexivity.
Qed.

(** No [close] handler of the authoritative profile takes the default
    room out of the registry. *)
Lemma auth_close_keeps_lobby meta net srv lobby :
  Auth.rooms srv !! "lobby"%string = Some lobby ->
  is_Some (Auth.rooms (snd (fst (Auth.onClose meta net srv))) !! "lobby"%string).
Proof.
  intros Hl. unfold Auth.onClose. cbn [Auth.rooms Auth.with_rateLimiter].
  destruct (Auth.rooms srv !! Auth.roomId meta) as [room|] eqn:E;
    [|cbn; rewrite Hl; eauto].
  destruct (Auth.leave _ _ _) as [[[u|] room1] evs]; cbn [fst snd].
  - destruct (String.eqb_spec (Auth.roomId meta) "lobby") as [Heq|Hne].
    + rewrite andb_false_r. cbn. rewrite Heq, lookup_insert_eq. eauto.
    + destruct (Auth.playerCount room1 =? 0); cbn [andb negb].
      * destruct (Auth.destroy room1). cbn.
        rewrite lookup_delete_ne by exact Hne. rewrite Hl. eauto.
      * cbn. rewrite lookup_insert_ne by exact Hne. rewrite Hl. eauto.
  - cbn. rewrite lookup_insert. destruct (decide _); [eauto | rewrite Hl; eauto].
Qed.

Lemma relay_leave_last pid peer net r :
  Relay.peers r = [(pid, peer)] ->
  Relay.leave pid net r = (Returned tt, Relay.with_peers [] r, []).
Proof.
  intros Hp. unfold Relay.leave. rewrite Hp. cbn [Assoc.get].
  rewrite String.eqb_refl. cbn [Assoc.delete]. rewrite String.eqb_refl.
  reflexivity.
Qed.

Lemma relay_close_last_member conn net srv ref r peer :
  Relay.rooms srv !! Relay.roomId conn = Some ref ->
  Relay.deref ref srv = Some r ->
  Relay.peers r = [(Relay.clientId conn, peer)] ->
  let srv1 :=
    Relay.store ref (Relay.with_peers [] r)
      (Relay.with_rateLimiter
         (RateLimit.remove (Relay.clientId conn) (Relay.rateLimiter srv)) srv) in
  Relay.onClose conn net srv
  = (Returned tt,
     if String.eqb (Relay.roomId conn) "lobby" then srv1
     else Relay.with_rooms (delete (Relay.roomId conn) (Relay.rooms srv)) srv1,
     []).
Proof.
  intros Hroom Hr Hp srv1. unfold Relay.onClose.
  cbn [Relay.rooms Relay.with_rateLimiter]. rewrite Hroom.
  change (Relay.deref ref (Relay.with_rateLimiter _ srv)) with (Relay.deref ref srv).
  rewrite Hr, (relay_leave_last _ peer) by exact Hp.
  change (Relay.playerCount (Relay.with_peers [] r) =? 0) with true.
  cbn [andb]. destruct (String.eqb (Relay.roomId conn) "lobby"); reflexivity.
Qed.

(** No [close] handler of the relay profile takes the default room out
    of the registry. *)
Lemma relay_close_keeps_lobby conn net srv ref :
  Relay.rooms srv !! "lobby"%string = Some ref ->
  Relay.rooms (snd (fst (Relay.onClose conn net srv))) !! "lobby"%string
  = Some ref.
Proof.
  intros Hl. unfold Relay.onClose. cbn [Relay.rooms Relay.with_rateLimiter].
  destruct (Relay.rooms srv !! Relay.roomId conn) as [ref'|]; [|exact Hl].
  destruct (Relay.deref ref' _) as [r|]; [|exact Hl].
  destruct (Relay.leave _ _ _) as [[[u|] r1] evs]; cbn [fst snd]; [|exact Hl].
  destruct (String.eqb_spec (Relay.roomId conn) "lobby") as [Heq|Hne].
  - rewrite andb_false_r. exact Hl.
  - destruct (Relay.playerCount r1 =? 0); cbn [andb negb]; [|exact Hl].
    destruct (Relay.destroy r1). cbn.
    rewrite lookup_delete_ne by exact Hne. exact Hl.
Qed.

(** C6.  In either profile, when the connection that closes belongs to
    the only member of its room, the handler returns without sending or
    closing anything and removes the client's rate-limit window; if the
    room is not ["lobby"] it runs [destroy] on the emptied room (which
    has no socket left to close) and the registry no longer has the room;
    if the room is ["lobby"] the registry still has it, with no members.
    And on any server, whatever connection closes, in whatever state the
    network is, a registry that has ["lobby"] still has it afterwards; in
    the relay profile it is the same room object.  The registry need not
    have a ["lobby"] for the rest to hold. *)
Theorem close_of_last_member
    (meta : Auth.Meta) (net : Net) (asrv : Auth.Server)
    (aroom : Auth.Room) (p : Auth.Player)
    (conn : Relay.Conn) (rsrv : Relay.Server) (ref : nat)
    (rroom : Relay.Room) (peer : Relay.Peer) :
  Auth.rooms asrv !! Auth.roomId meta = Some aroom ->
  Auth.players aroom = [(Auth.clientId meta, p)] ->
  Relay.rooms rsrv !! Relay.roomId conn = Some ref ->
  Relay.deref ref rsrv = Some rroom ->
  Relay.peers rroom = [(Relay.clientId conn, peer)] ->
  let emptied := Auth.stopTickLoop (Auth.with_players [] aroom) in
  let aresult := Auth.onClose meta net asrv in
  let rresult := Relay.onClose conn net rsrv in
  aresult
  = (Returned tt,
     Auth.with_rooms
       (if String.eqb (Auth.roomId meta) "lobby"
        then <[Auth.roomId meta := emptied]> (Auth.rooms asrv)
        else delete (Auth.roomId meta) (Auth.rooms asrv))
       (Auth.with_rateLimiter
          (RateLimit.remove (Auth.clientId meta) (Auth.rateLimiter asrv)) asrv),
     [])
  /\ snd (Auth.destroy emptied) = []
  /\ (Auth.roomId meta <> "lobby"%string ->
      Auth.rooms (snd (fst aresult)) !! Auth.roomId meta = None)
  /\ (Auth.roomId meta = "lobby"%string ->
      Auth.rooms (snd (fst aresult)) !! "lobby"%string = Some emptied
      /\ Auth.playerCount emptied = 0)
  /\ (forall srv other net',
        is_Some (Auth.rooms srv !! "lobby"%string) ->
        is_Some (Auth.rooms (snd (fst (Auth.onClose other net' srv)))
                   !! "lobby"%string))
  /\ fst (fst rresult) = Returned tt
  /\ snd rresult = []
  /\ Relay.deref ref (snd (fst rresult)) = Some (Relay.with_peers [] rroom)
  /\ (Relay.roomId conn <> "lobby"%string ->
      Relay.rooms (snd (fst rresult)) !! Relay.roomId conn = None)
  /\ (Relay.roomId conn = "lobby"%string ->
      Relay.rooms (snd (fst rresult)) !! "lobby"%string = Some ref)
  /\ (forall srv other net' rlobby,
        Relay.rooms srv !! "lobby"%string = Some rlobby ->
        Relay.rooms (snd (fst (Relay.onClose other net' srv))) !! "lobby"%string
        = Some rlobby).
Proof.
  intros Haroom Hp Hrroom Href Hpeer emptied aresult rresult.
  assert (Ha := auth_close_last_member meta net asrv aroom p Haroom Hp).
  fold aresult emptied in Ha.
  assert (Hd : snd (Auth.destroy emptied) = []).
  { unfold Auth.destroy, emptied. cbn [snd].
    rewrite !AuthRoomFacts.stopTickLoop_players. reflexivity. }
  assert (Hr := relay_close_last_member conn net rsrv ref rroom peer Hrroom Href Hpeer).
  fold rresult in Hr. cbv zeta in Hr.
  assert (Hlt : (ref < length (Relay.heap rsrv))%nat).
  { unfold Relay.deref in Href. apply lookup_lt_Some in Href. exact Href. }
  rewrite Hd in Ha.
  split; [exact Ha|]. split; [exact Hd|].
  split; [|split; [|split; [|split; [|split; [|split; [|split; [|split]]]]]]].
  - intros Hne. rewrite Ha. cbn [fst snd Auth.rooms Auth.with_rooms].
    destruct (String.eqb_spec (Auth.roomId meta) "lobby"); [contradiction|].
    apply lookup_delete_eq.
  - intros Heq. rewrite Ha. cbn [fst snd Auth.rooms Auth.with_rooms].
    rewrite Heq. cbn. rewrite lookup_insert_eq. split; [reflexivity|].
    unfold Auth.playerCount, emptied.
    rewrite AuthRoomFacts.stopTickLoop_players. reflexivity.
  - intros srv other net' [lobby Hlobby]. eapply auth_close_keeps_lobby.
    exact Hlobby.
  - rewrite Hr. reflexivity.
  - rewrite Hr. reflexivity.
  - rewrite Hr. cbn [fst snd].
    destruct (String.eqb (Relay.roomId conn) "lobby");
      unfold Relay.deref, Relay.store; cbn;
      apply list_lookup_insert_eq; exact Hlt.
  - intros Hne. rewrite Hr. cbn [fst snd].
    destruct (String.eqb_spec (Relay.roomId conn) "lobby"); [contradiction|].
    cbn. apply lookup_delete_eq.
  - intros Heq. rewrite Hr. cbn [fst snd]. rewrite Heq. cbn.
    rewrite <- Heq. exact Hrroom.
  - intros srv other net' rlobby Hrlobby. apply relay_close_keeps_lobby.
    exact Hrlobby.
Qed.

(** *** The registry of the relay profile stays valid *)

Lemma start_registry_valid cfg : Relay.registry_valid (Relay.start cfg).
Proof. intros rid ref H. cbn in H. rewrite lookup_empty in H. discriminate. Qed.

Lemma store_registry_valid ref r srv :
  Relay.registry_valid srv -> Relay.registry_valid (Relay.store ref r srv).
Proof.
  intros Hv rid ref' H. cbn in *. rewrite length_insert. eapply Hv. exact H.
Qed.

Lemma getOrCreateRoom_registry_valid cfg rid now srv :
  Relay.registry_valid srv ->
  Relay.registry_valid (snd (Relay.getOrCreateRoom cfg rid now srv)).
Proof.
  intros Hv. unfold Relay.getOrCreateRoom.
  destruct (Relay.rooms srv !! rid) eqn:E; [exact Hv|].
  intros rid' ref' H. cbn in *. rewrite length_app. cbn.
  apply lookup_insert_Some in H as [[_ <-]|[_ H]]; [lia|].
  apply Hv in H. lia.
Qed.

Lemma onConnection_registry_valid cfg sock clientId roomId now net srv :
  Relay.registry_valid srv ->
  Relay.registry_valid
    (snd (fst (Relay.onConnection cfg sock clientId roomId now net srv))).
Proof.
  intros Hv. unfold Relay.onConnection.
  pose proof (getOrCreateRoom_registry_valid cfg roomId now srv Hv) as Hv1.
  destruct (Relay.getOrCreateRoom cfg roomId now srv) as [ref srv1].
  cbn [snd] in Hv1.
  destruct (Relay.deref ref srv1); [|exact Hv1].
  destruct (Relay.join _ _ _ _ _) as [[[joined|] r1] evs]; cbn [fst snd].
  - destruct joined; cbn; apply store_registry_valid; exact Hv1.
  - apply store_registry_valid. exact Hv1.
Qed.

Lemma explicit_join_and_auto_join_witness :
  snd (Auth.onMessage MsgPack.decode Scenario.auth_config 3%nat Scenario.meta_c
         Scenario.state_bytes 2 Scenario.all_open Scenario.auth_server)
  = [EvSend 3%nat
       (MsgPack.enc
          (Auth.to_js
             (Auth.Error "NOT_JOINED"
                ("Send a " +:+ Js.dquote +:+ "join" +:+ Js.dquote
                   +:+ " message first"))))]
  /\ Relay.onConnection Scenario.relay_config 3%nat "c3" "arena" 2
       Scenario.all_open Scenario.relay_two
     = (Returned None, Scenario.relay_two,
        [EvSend 3%nat
           (MsgPack.enc
              (Relay.to_js
                 (Relay.Error "ROOM_FULL"
                    ("Room " +:+ Js.dquote +:+ "arena" +:+ Js.dquote
                       +:+ " is full (2 peers)"))));
         EvClose 3%nat 1013 "Room full"]).
Proof.
  assert (Hv : Relay.registry_valid Scenario.relay_two).
  { apply onConnection_registry_valid, onConnection_registry_valid,
      start_registry_valid. }
  destruct (explicit_join_and_auto_join MsgPack.decode
              Scenario.auth_config 3%nat Scenario.meta_c Scenario.state_bytes
              2 Scenario.all_open Scenario.auth_server
              (JObj [("type"%string, JStr "state")])
              Scenario.relay_config "c3" "arena" Scenario.relay_two
              eq_refl eq_refl eq_refl eq_refl Hv)
    as (Ha & _ & r & Hr & Hfull & _).
  split; [rewrite Ha; reflexivity|].
  vm_compute in Hr. injection Hr as <-.
  rewrite Hfull by (vm_compute; discriminate). reflexivity.
Defined.

(** C5 as stated fails.  In the relay profile the connection handler
    makes the client a member at connect time, with no join message, and
    a [state] message of that client is relayed to the other peer inside
    a [relay] envelope: no not-joined error exists in that profile.  In
    the authoritative profile the connection handler joins nobody and
    closes nothing although the room is full; the room is found full when
    the [join] message arrives, and the answer is the ROOM_FULL envelope
    without a close. *)
Lemma relay_joins_at_connect_authoritative_does_not :
  fst (fst (Relay.onConnection Scenario.relay_config 1%nat "c1" "arena" 0
              Scenario.all_open (Relay.start Scenario.relay_config)))
  = Returned (Some Scenario.conn_c1)
  /\ Relay.hasPeer "c1" Scenario.relay_arena = true
  /\ snd (Relay.onMessage MsgPack.decode Scenario.no_floats 1%nat Scenario.conn_c1
            Scenario.state_bytes 2 Scenario.all_open Scenario.relay_two)
     = [EvSend 2%nat
          (MsgPack.enc
             (Relay.to_js
                (Relay.RelayMessage "c1"
                   (JObj [("type"%string, JStr "state")]))))]
  /\ Auth.isFull Scenario.auth_lobby = true
  /\ Auth.onConnection 3%nat (Some Scenario.meta_c) Scenario.auth_server
     = (true, Scenario.auth_server, [])
  /\ snd (Auth.onMessage MsgPack.decode Scenario.auth_config 3%nat Scenario.meta_c
            Scenario.join_bytes 2 Scenario.all_open Scenario.auth_server)
     = [EvSend 3%nat
          (MsgPack.enc
             (Auth.to_js
                (Auth.Error "ROOM_FULL"
                   ("Room " +:+ Js.dquote +:+ "lobby" +:+ Js.dquote
                      +:+ " is full (1 players)"))))].
Proof. repeat split; reflexivity. Qed.

Lemma hello_is_consumed_witness :
  Relay.onMessage MsgPack.decode Scenario.no_floats 1%nat Scenario.conn_c1
    Scenario.hello_bytes 2 Scenario.all_open Scenario.relay_two
  = (Returned tt,
     Relay.with_rateLimiter
       (snd (RateLimit.allow "c1" 2 (Relay.rateLimiter Scenario.relay_two)))
       Scenario.relay_two,
     [])
  /\ snd (Relay.onMessage MsgPack.decode Scenario.no_floats 1%nat Scenario.conn_c1
            Scenario.hello_v2_bytes 2 Scenario.all_open Scenario.relay_two)
     = [EvSend 1%nat
          (MsgPack.enc
             (Relay.to_js
                (Relay.Error "BAD_PROTOCOL"
                   "Protocol mismatch. Server=1, Client=2")));
        EvClose 1%nat 1008 "BAD_PROTOCOL"].
Proof.
  split.
  - apply (hello_is_consumed MsgPack.decode Scenario.no_floats 1%nat Scenario.conn_c1
             Scenario.hello_bytes 2 Scenario.all_open Scenario.relay_two
             (JObj [("type"%string, JStr "hello")]));
      reflexivity.
  - rewrite (hello_is_consumed MsgPack.decode Scenario.no_floats 1%nat Scenario.conn_c1
               Scenario.hello_v2_bytes 2 Scenario.all_open Scenario.relay_two
               (JObj [("type"%string, JStr "hello");
                      ("protocolVersion"%string, JNum 2)]))
      by reflexivity.
    reflexivity.
Defined.

Lemma close_of_last_member_witness :
  Auth.rooms Scenario.auth_arena_only !! "lobby"%string = None
  /\ Auth.rooms
       (snd (fst (Auth.onClose Scenario.meta_a_joined Scenario.all_open
                    Scenario.auth_arena_only))) !! "arena"%string = None
  /\ Auth.rooms
       (snd (fst (Auth.onClose Scenario.meta_b_joined Scenario.all_open
                    Scenario.auth_server))) !! "lobby"%string
     = Some (Auth.stopTickLoop (Auth.with_players [] Scenario.auth_lobby))
  /\ Relay.rooms Scenario.relay_one !! "lobby"%string = None
  /\ Relay.rooms
       (snd (fst (Relay.onClose Scenario.conn_c1 Scenario.all_open
                    Scenario.relay_one))) !! "arena"%string = None
  /\ Relay.rooms
       (snd (fst (Relay.onClose Scenario.conn_c9 Scenario.all_open
                    Scenario.relay_with_lobby))) !! "lobby"%string
     = Some 1%nat.
Proof.
  destruct (close_of_last_member
              Scenario.meta_a_joined Scenario.all_open
              Scenario.auth_arena_only Scenario.auth_arena Scenario.ann_at_0
              Scenario.conn_c1 Scenario.relay_one
              0%nat Scenario.relay_arena Scenario.peer_c1
              eq_refl eq_refl eq_refl eq_refl eq_refl)
    as (_ & _ & Hgone & _ & _ & _ & _ & _ & Hrgone & _).
  destruct (close_of_last_member
              Scenario.meta_b_joined Scenario.all_open
              Scenario.auth_server Scenario.auth_lobby Scenario.bob_at_1
              Scenario.conn_c1 Scenario.relay_with_lobby
              0%nat Scenario.relay_arena Scenario.peer_c1
              eq_refl eq_refl eq_refl eq_refl eq_refl)
    as (_ & _ & _ & Hkept & _ & _ & _ & _ & _ & _ & Hrkept).
  split; [reflexivity|].
  split; [apply Hgone; discriminate|].
  split; [apply (Hkept eq_refl)|].
  split; [reflexivity|].
  split; [apply Hrgone; discriminate|].
  apply (Hrkept Scenario.relay_with_lobby Scenario.conn_c9 Scenario.all_open
           1%nat eq_refl).
Defined.

End RouterFacts.

(** ** The authoritative server as a whole *)
Module AuthServerFacts.
Import Auth.

Lemma auth_step_kept cfg rid room c : kept cfg rid room -> kept cfg rid (step room c).
Proof.
  intros (Hid & Hmax & Hcount).
  destruct (AuthRoomFacts.step_constants room c) as [Hm Hi].
  pose proof (AuthRoomFacts.step_within_capacity room c) as Hc.
  rewrite Hm, Hmax in Hc.
  split; [congruence|]. split; [congruence|]. apply Hc. exact Hcount.
Qed.

Lemma dispatch_kept cfg rid sock meta message now net room :
  kept cfg rid room ->
  kept cfg rid (snd (fst (dispatch sock meta message now net room))).
Proof.
  intros Hk. unfold dispatch.
  destruct (Js.eq_str _ "join").
  { destruct (joined meta); [exact Hk|].
    destruct (Js.get "payload" message) as [payload|]; [|exact Hk].
    destruct (Js.get "displayName" payload) as [name|]; [|exact Hk].
    destruct (Js.slice 32 _) as [displayName|]; [|exact Hk].
    pose proof (auth_step_kept cfg rid room
                  (CallJoin (clientId meta) sock displayName now net) Hk) as Hs.
    simpl in Hs. unfold room_after in Hs.
    destruct (join _ _ _ _ _ _) as [[[success|] room1] evs]; exact Hs. }
  destruct (Js.eq_str _ "state").
  { destruct (negb (joined meta)).
    - destruct (send_error _ _ _). exact Hk.
    - apply (auth_step_kept cfg rid room (CallUpdatePlayerState _ _ _) Hk). }
  destruct (Js.eq_str _ "chat"); [|exact Hk].
  destruct (negb (joined meta)); [exact Hk|].
  destruct (Js.get "payload" message) as [payload|]; [|exact Hk].
  destruct (Js.get "message" payload) as [text|]; [|exact Hk].
  pose proof (auth_step_kept cfg rid room (CallChat (clientId meta) text net) Hk) as Hs.
  simpl in Hs. unfold room_after in Hs.
  destruct (chat _ _ _ _) as [[res room1] evs]. exact Hs.
Qed.

Lemma insert_in_bounds cfg rid room srv :
  rooms_in_bounds cfg srv -> kept cfg rid room ->
  rooms_in_bounds cfg (with_rooms (<[rid := room]> (rooms srv)) srv).
Proof.
  intros Hb Hk rid' room'. cbn [rooms with_rooms]. intros Hl.
  apply lookup_insert_Some in Hl as [[<- <-]|[_ Hl]]; [exact Hk | apply Hb, Hl].
Qed.

Lemma onMessage_in_bounds
    (decode : list Z -> option jsval) cfg sock meta data now net srv :
  0 <= MAX_PLAYERS_PER_ROOM cfg ->
  rooms_in_bounds cfg srv ->
  rooms_in_bounds cfg (snd (fst (onMessage decode cfg sock meta data now net srv))).
Proof.
  intros Hcap Hb. unfold onMessage.
  destruct (RateLimit.allow _ _ _) as [allowed rl].
  destruct (negb allowed).
  { destruct (send_error _ _ _). exact Hb. }
  destruct (decodeMessage_with decode data) as [message|].
  2:{ destruct (send_error _ _ _). exact Hb. }
  unfold getOrCreateRoom. cbn [rooms with_rateLimiter].
  destruct (rooms srv !! roomId meta) as [room|] eqn:E.
  - pose proof (dispatch_kept cfg (roomId meta) sock meta message now net room
                  (Hb _ _ E)) as Hk.
    destruct (dispatch _ _ _ _ _ _) as [[[res meta1] room1] evs].
    cbn [fst snd] in *. apply (insert_in_bounds cfg _ _ (with_rateLimiter rl srv) Hb Hk).
  - set (room := new _ _ _ _).
    assert (Hnew : kept cfg (roomId meta) room).
    { split; [reflexivity|]. split; [reflexivity|]. exact Hcap. }
    pose proof (dispatch_kept cfg (roomId meta) sock meta message now net room Hnew) as Hk.
    destruct (dispatch _ _ _ _ _ _) as [[[res meta1] room1] evs].
    cbn [fst snd] in *.
    apply insert_in_bounds; [|exact Hk].
    apply (insert_in_bounds cfg _ _ (with_rateLimiter rl srv) Hb Hnew).
Qed.

Lemma onClose_in_bounds cfg meta net srv :
  rooms_in_bounds cfg srv ->
  rooms_in_bounds cfg (snd (fst (onClose meta net srv))).
Proof.
  intros Hb. unfold onClose. cbn [rooms with_rateLimiter].
  destruct (rooms srv !! roomId meta) as [room|] eqn:E; [|exact Hb].
  pose proof (auth_step_kept cfg (roomId meta) room (CallLeave (clientId meta) net)
                (Hb _ _ E)) as Hk.
  simpl in Hk. unfold room_after in Hk.
  destruct (leave _ _ _) as [[[u|] room1] evs]; cbn [fst snd] in *.
  - destruct (_ && _).
    + destruct (destroy room1). cbn [fst snd].
      intros rid' room'. cbn [rooms with_rooms]. intros Hl.
      apply lookup_delete_Some in Hl as [_ Hl]. apply Hb, Hl.
    + apply (insert_in_bounds cfg _ _ (with_rateLimiter _ srv) Hb Hk).
  - apply (insert_in_bounds cfg _ _ (with_rateLimiter _ srv) Hb Hk).
Qed.

Lemma onTickTimer_in_bounds cfg rid now net srv :
  rooms_in_bounds cfg srv ->
  rooms_in_bounds cfg (snd (fst (onTickTimer rid now net srv))).
Proof.
  intros Hb. unfold onTickTimer.
  destruct (rooms srv !! rid) as [room|] eqn:E; [|exact Hb].
  destruct (tickInterval room); [|exact Hb].
  pose proof (auth_step_kept cfg rid room (CallTick now net) (Hb _ _ E)) as Hk.
  simpl in Hk. unfold room_after in Hk.
  destruct (tick _ _ _) as [[res room1] evs]. cbn [fst snd] in *.
  apply insert_in_bounds; assumption.
Qed.

Lemma serve_in_bounds (decode : list Z -> option jsval) cfg srv req :
  0 <= MAX_PLAYERS_PER_ROOM cfg ->
  rooms_in_bounds cfg srv -> rooms_in_bounds cfg (serve decode cfg srv req).
Proof.
  intros Hcap Hb. destruct req; simpl.
  - apply onMessage_in_bounds; assumption.
  - apply onClose_in_bounds; assumption.
  - apply onTickTimer_in_bounds; assumption.
  - exact Hb.
Qed.

Lemma serve_all_in_bounds (decode : list Z -> option jsval) cfg reqs srv :
  0 <= MAX_PLAYERS_PER_ROOM cfg ->
  rooms_in_bounds cfg srv -> rooms_in_bounds cfg (serve_all decode cfg reqs srv).
Proof.
  intros Hcap. revert srv. induction reqs as [|req reqs IH]; intros srv Hb;
    [exact Hb|].
  apply IH, serve_in_bounds; assumption.
Qed.

(** X15.  Whatever messages, disconnects and timer events reach a server
    started with a capacity of at least 0, in whatever order and whether
    or not a handler throws on the way, every room of the registry is
    registered under its own id, has the configured capacity, and holds
    no more players than that. *)
Theorem no_room_of_the_server_overfills (decode : list Z -> option jsval)
    (cfg : Config) (reqs : list Request) (rid : string) (room : Room) :
  0 <= MAX_PLAYERS_PER_ROOM cfg ->
  rooms (serve_all decode cfg reqs (start cfg)) !! rid = Some room ->
  id room = rid
  /\ maxPlayers room = MAX_PLAYERS_PER_ROOM cfg
  /\ playerCount room <= MAX_PLAYERS_PER_ROOM cfg.
Proof.
  intros Hcap Hl.
  apply (serve_all_in_bounds decode cfg reqs (start cfg) Hcap); [|exact Hl].
  intros rid' room' H. cbn in H. rewrite lookup_empty in H. discriminate.
Qed.

Lemma no_room_of_the_server_overfills_witness :
  rooms (serve_all MsgPack.decode Scenario.auth_config Scenario.auth_requests
           (start Scenario.auth_config)) !! "arena"%string
  = Some Scenario.auth_arena
  /\ playerCount Scenario.auth_arena <= 1.
Proof.
  assert (H : rooms (serve_all MsgPack.decode Scenario.auth_config Scenario.auth_requests
                       (start Scenario.auth_config)) !! "arena"%string
              = Some Scenario.auth_arena) by reflexivity.
  split; [exact H|].
  destruct (no_room_of_the_server_overfills MsgPack.decode Scenario.auth_config
              Scenario.auth_requests "arena" Scenario.auth_arena)
    as (_ & _ & Hc); [simpl; lia | exact H | exact Hc].
Defined.

End AuthServerFacts.

(** ** The relay server as a whole *)
Module RelayServerFacts.
Import Relay.
Import RelayRoomFacts.

Lemma relay_step_kept cfg rid r c : kept cfg rid r -> kept cfg rid (step r c).
Proof.
  intros (Hid & Hmax & Hcount & Hk).
  destruct (relay_step_constants r c) as [Hm Hi].
  pose proof (relay_step_within_capacity r c) as Hc. rewrite Hm, Hmax in Hc.
  split; [congruence|]. split; [congruence|].
  split; [apply Hc; exact Hcount | apply step_keyed_by_id, Hk].
Qed.

Lemma deref_store ref ref' r srv :
  deref ref' (store ref r srv)
  = if decide (ref' = ref)
    then (if decide (ref < length (heap srv))%nat then Some r else None)
    else deref ref' srv.
Proof.
  unfold deref, store. cbn [heap with_heap].
  destruct (decide (ref' = ref)) as [->|Hne].
  - destruct (decide (ref < length (heap srv))%nat) as [Hlt|Hge].
    + apply list_lookup_insert_eq. exact Hlt.
    + rewrite list_insert_ge by lia. apply lookup_ge_None_2. lia.
  - apply list_lookup_insert_ne. congruence.
Qed.

(** Replacing a room object by one that calls have been made on. *)
Lemma store_sound cfg ref r r' srv :
  sound cfg srv -> deref ref srv = Some r ->
  id r' = id r -> maxPlayers r' = maxPlayers r ->
  playerCount r' <= MAX_PLAYERS_PER_ROOM cfg -> keyed_by_id r' ->
  sound cfg (store ref r' srv).
Proof.
  intros (Hv & Hreg & Hb) Hr Hid Hmax Hcount Hk.
  split; [|split].
  - intros rid ref0 H. cbn in *. rewrite length_insert. eapply Hv. exact H.
  - intros rid ref0 r0 Hl. rewrite deref_store.
    change (rooms (store ref r' srv)) with (rooms srv) in Hl.
    destruct (decide (ref0 = ref)) as [->|Hne].
    + destruct (decide _); [|discriminate]. intros [= <-].
      rewrite Hid. eapply Hreg; eassumption.
    + intros H0. eapply Hreg; eassumption.
  - intros ref0 r0. rewrite deref_store.
    destruct (decide (ref0 = ref)) as [->|Hne].
    + destruct (decide _); [|discriminate]. intros [= <-].
      destruct (Hb ref r Hr) as (H1 & _ & _).
      split; [congruence|]. split; assumption.
    + apply Hb.
Qed.

Lemma store_step_sound cfg ref r c srv :
  sound cfg srv -> deref ref srv = Some r ->
  sound cfg (store ref (step r c) srv).
Proof.
  intros Hs Hr. destruct Hs as (Hv & Hreg & Hb).
  destruct (Hb ref r Hr) as (Hmax & Hcount & Hk).
  pose proof (relay_step_kept cfg (id r) r c) as Hkept.
  destruct Hkept as (H1 & H2 & H3 & H4).
  { split; [reflexivity|]. split; [exact Hmax|]. split; assumption. }
  apply (store_sound cfg ref r); try assumption; [split; [|split]; assumption | congruence].
Qed.

Lemma getOrCreateRoom_sound cfg rid now srv :
  0 <= MAX_PLAYERS_PER_ROOM cfg ->
  sound cfg srv ->
  sound cfg (snd (getOrCreateRoom cfg rid now srv))
  /\ rooms (snd (getOrCreateRoom cfg rid now srv)) !! rid
     = Some (fst (getOrCreateRoom cfg rid now srv))
  /\ exists r, deref (fst (getOrCreateRoom cfg rid now srv))
                 (snd (getOrCreateRoom cfg rid now srv)) = Some r.
Proof.
  intros Hcap (Hv & Hreg & Hb). unfold getOrCreateRoom.
  destruct (rooms srv !! rid) as [ref|] eqn:E; cbn [fst snd].
  - split; [split; [|split]; assumption|]. split; [exact E|].
    apply Hv in E. apply lookup_lt_is_Some_2 in E. destruct E as [r Hr].
    exists r. exact Hr.
  - split; [split; [|split]|split].
    + intros rid' ref' H. cbn in *. rewrite length_app. cbn.
      apply lookup_insert_Some in H as [[_ <-]|[_ H]]; [lia|].
      apply Hv in H. lia.
    + intros rid' ref' r' Hl Hd. cbn in Hl, Hd. unfold deref in Hd. cbn in Hd.
      apply lookup_insert_Some in Hl as [[<- <-]|[Hne Hl]].
      * rewrite lookup_app_r in Hd by lia. rewrite Nat.sub_diag in Hd.
        cbn in Hd. injection Hd as <-. reflexivity.
      * pose proof (Hv _ _ Hl) as Hlt.
        rewrite lookup_app_l in Hd by exact Hlt. eapply Hreg; eassumption.
    + intros ref' r'. unfold deref. cbn. intros Hd.
      destruct (decide (ref' < length (heap srv))%nat) as [Hlt|Hge].
      * rewrite lookup_app_l in Hd by exact Hlt. apply (Hb ref' r' Hd).
      * rewrite lookup_app_r in Hd by lia.
        destruct (ref' - length (heap srv))%nat; cbn in Hd; [|discriminate].
        injection Hd as <-. split; [reflexivity|]. split; [exact Hcap|].
        apply new_keyed_by_id.
    + cbn. apply lookup_insert_eq.
    + eexists. unfold deref. cbn. rewrite lookup_app_r by lia.
      rewrite Nat.sub_diag. reflexivity.
Qed.

Lemma onConnection_sound cfg sock clientId roomId now net srv :
  0 <= MAX_PLAYERS_PER_ROOM cfg ->
  sound cfg srv ->
  sound cfg (snd (fst (onConnection cfg sock clientId roomId now net srv))).
Proof.
  intros Hcap Hs. unfold onConnection.
  destruct (getOrCreateRoom_sound cfg roomId now srv Hcap Hs) as (Hs1 & _ & r & Hr).
  destruct (getOrCreateRoom cfg roomId now srv) as [ref srv1]. cbn [fst snd] in *.
  rewrite Hr.
  pose proof (store_step_sound cfg ref r (CallJoin clientId sock now net) srv1 Hs1 Hr) as H.
  simpl in H. unfold room_after in H.
  destruct (join _ _ _ _ _) as [[[joined|] r1] evs]; cbn [fst snd] in *.
  - destruct (negb joined); exact H.
  - exact H.
Qed.

Lemma onMessage_sound
    (decode : list Z -> option jsval) cfg f2s sock conn raw now net srv :
  sound cfg srv ->
  sound cfg (snd (fst (onMessage decode f2s sock conn raw now net srv))).
Proof.
  intros Hs. unfold onMessage.
  destruct (RateLimit.allow _ _ _) as [allowed rl].
  destruct (negb allowed).
  { destruct (send_message _ _). exact Hs. }
  destruct (decodeMessage_with decode raw) as [message|].
  2:{ destruct (send_message _ _). exact Hs. }
  destruct (Js.eq_str _ "hello").
  { destruct (_ && _); [|exact Hs].
    destruct (send_message _ _) as [[u|] evs]; exact Hs. }
  destruct (if Js.eq_str _ "ping" then _ else _) as [n|].
  { destruct (send_message _ _). exact Hs. }
  unfold relay_to_room.
  change (deref (room conn) (with_rateLimiter rl srv)) with (deref (room conn) srv).
  destruct (deref (room conn) srv) as [r|] eqn:Hr; [|exact Hs].
  pose proof (store_step_sound cfg (room conn) r
                (CallRelay (clientId conn) message net) srv Hs Hr) as H.
  simpl in H. unfold room_after in H.
  destruct (relay _ _ _ _) as [[res r1] evs]. exact H.
Qed.

Lemma delete_sound cfg rid srv :
  sound cfg srv -> sound cfg (with_rooms (delete rid (rooms srv)) srv).
Proof.
  intros (Hv & Hreg & Hb). split; [|split].
  - intros rid' ref H. cbn in *. apply lookup_delete_Some in H as [_ H].
    eapply Hv. exact H.
  - intros rid' ref r Hl Hd. cbn in Hl. apply lookup_delete_Some in Hl as [_ Hl].
    eapply Hreg; eassumption.
  - exact Hb.
Qed.

Lemma onClose_sound cfg conn net srv :
  sound cfg srv -> sound cfg (snd (fst (onClose conn net srv))).
Proof.
  intros Hs. unfold onClose. cbn [rooms with_rateLimiter].
  destruct (rooms srv !! roomId conn) as [ref|] eqn:E; [|exact Hs].
  change (deref ref (with_rateLimiter _ srv)) with (deref ref srv).
  destruct (deref ref srv) as [r|] eqn:Hr; [|exact Hs].
  pose proof (store_step_sound cfg ref r (CallLeave (clientId conn) net) srv Hs Hr) as H.
  simpl in H. unfold room_after in H.
  pose proof (relay_step_constants r (CallLeave (clientId conn) net)) as [Hm Hi].
  simpl in Hm, Hi. unfold room_after in Hm, Hi.
  destruct (leave _ _ _) as [[[u|] r1] evs]; cbn [fst snd] in *.
  - destruct (_ && _); [|exact H].
    unfold destroy. cbn [fst snd].
    apply (delete_sound cfg (roomId conn)
             (store ref (with_peers [] r1) (with_rateLimiter _ srv))).
    destruct Hs as (Hv & Hreg & Hb). destruct (Hb ref r Hr) as (Hmax & Hcount & Hk).
    apply (store_sound cfg ref r); try assumption.
    + split; [|split]; assumption.
    + unfold playerCount, Assoc.size in *. simpl.
      assert (0 <= Z.of_nat (length (peers r))) by lia. lia.
    + split; [apply NoDup_nil_2 | intros k peer []].
  - exact H.
Qed.

Lemma onMetricsTimer_sound cfg now srv :
  sound cfg srv -> sound cfg (onMetricsTimer now srv).
Proof.
  intros Hs. unfold onMetricsTimer.
  assert (H : sound cfg
                (map_fold (λ (_ : string) (ref : nat) (s : Server),
                     match deref ref s with
                     | Some r => store ref (updateMetrics now r) s
                     | None => s
                     end) srv (rooms srv))
              /\ True).
  { apply (map_fold_weak_ind (fun s (_ : gmap string nat) => sound cfg s /\ True)).
    - split; [exact Hs | exact I].
    - intros rid ref m s _ [Hsound _]. split; [|exact I].
      destruct (deref ref s) as [r|] eqn:Hr; [|exact Hsound].
      apply (store_step_sound cfg ref r (CallUpdateMetrics now) s Hsound Hr). }
  apply H.
Qed.

Lemma serve_sound (decode : list Z -> option jsval) cfg f2s srv req :
  0 <= MAX_PLAYERS_PER_ROOM cfg ->
  sound cfg srv -> sound cfg (serve decode cfg f2s srv req).
Proof.
  intros Hcap Hs. destruct req; simpl.
  - apply onConnection_sound; assumption.
  - apply onMessage_sound; assumption.
  - apply onClose_sound; assumption.
  - apply onMetricsTimer_sound; assumption.
  - exact Hs.
Qed.

Lemma serve_all_sound (decode : list Z -> option jsval) cfg f2s reqs srv :
  0 <= MAX_PLAYERS_PER_ROOM cfg ->
  sound cfg srv -> sound cfg (serve_all decode cfg f2s reqs srv).
Proof.
  intros Hcap. revert srv. induction reqs as [|req reqs IH]; intros srv Hs;
    [exact Hs|].
  apply IH, serve_sound; assumption.
Qed.

Lemma start_sound cfg : sound cfg (start cfg).
Proof.
  split; [|split].
  - intros rid ref H. cbn in H. rewrite lookup_empty in H. discriminate.
  - intros rid ref r H. cbn in H. rewrite lookup_empty in H. discriminate.
  - intros ref r H. unfold deref in H. cbn in H. rewrite lookup_nil in H. discriminate.
Qed.

(** X16.  Whatever connections, messages, disconnects and timer events
    reach a relay server started with a capacity of at least 0, every id
    of the registry refers to a room object, that object has this id and
    the configured capacity, holds no more peers than that, and holds no
    peer twice. *)
Theorem no_room_of_the_relay_overfills (decode : list Z -> option jsval)
    (cfg : Config) (float_to_string : Z -> string) (reqs : list Request)
    (rid : string) (ref : nat) :
  0 <= MAX_PLAYERS_PER_ROOM cfg ->
  let srv := serve_all decode cfg float_to_string reqs (start cfg) in
  rooms srv !! rid = Some ref ->
  exists r,
    deref ref srv = Some r
    /\ id r = rid
    /\ maxPlayers r = MAX_PLAYERS_PER_ROOM cfg
    /\ playerCount r <= MAX_PLAYERS_PER_ROOM cfg
    /\ NoDup (Assoc.keys (peers r)).
Proof.
  intros Hcap srv Hl.
  destruct (serve_all_sound decode cfg float_to_string reqs (start cfg) Hcap (start_sound cfg))
    as (Hv & Hreg & Hb). fold srv in Hv, Hreg, Hb.
  pose proof (Hv _ _ Hl) as Hlt. apply lookup_lt_is_Some_2 in Hlt as [r Hr].
  exists r. split; [exact Hr|]. split; [eapply Hreg; eassumption|].
  destruct (Hb ref r Hr) as (H1 & H2 & H3 & _). auto.
Qed.

Lemma no_room_of_the_relay_overfills_witness :
  exists r,
    deref 0 Scenario.relay_two = Some r
    /\ id r = "arena"%string /\ playerCount r <= 2.
Proof.
  destruct (no_room_of_the_relay_overfills MsgPack.decode Scenario.relay_config
              Scenario.no_floats Scenario.relay_requests "arena" 0%nat)
    as (r & Hr & Hid & _ & Hc & _); [simpl; lia | reflexivity |].
  exists r. split; [exact Hr|]. split; [exact Hid | exact Hc].
Defined.

End RelayServerFacts.

(** ** What the routers do with a message *)
Module MessageFacts.

(** *** The limiter behind the routers *)

Lemma auth_onMessage_limiter
    (decode : list Z -> option jsval) cfg sock meta data now net srv :
  Auth.rateLimiter (snd (fst (Auth.onMessage decode cfg sock meta data now net srv)))
  = snd (RateLimit.allow (Auth.clientId meta) now (Auth.rateLimiter srv)).
Proof.
  unfold Auth.onMessage.
  destruct (RateLimit.allow _ _ _) as [allowed rl]. cbn [snd].
  destruct (negb allowed); [destruct (Auth.send_error _ _ _); reflexivity|].
  destruct (Auth.decodeMessage_with decode data);
    [|destruct (Auth.send_error _ _ _); reflexivity].
  unfold Auth.getOrCreateRoom.
  destruct (Auth.rooms _ !! _);
    destruct (Auth.dispatch _ _ _ _ _ _) as [[[res meta1] room1] evs]; reflexivity.
Qed.

Lemma auth_onClose_limiter meta net srv :
  Auth.rateLimiter (snd (fst (Auth.onClose meta net srv)))
  = RateLimit.remove (Auth.clientId meta) (Auth.rateLimiter srv).
Proof.
  unfold Auth.onClose. cbn [Auth.rooms Auth.with_rateLimiter].
  destruct (Auth.rooms srv !! Auth.roomId meta); [|reflexivity].
  destruct (Auth.leave _ _ _) as [[[u|] room1] evs]; [|reflexivity].
  destruct (_ && _); [destruct (Auth.destroy room1)|]; reflexivity.
Qed.

Lemma auth_serve_limiter (decode : list Z -> option jsval) cfg srv req :
  Auth.rateLimiter (Auth.serve decode cfg srv req)
  = match Auth.limiter_call req with
    | Some call => RateLimit.step (Auth.rateLimiter srv) call
    | None => Auth.rateLimiter srv
    end.
Proof.
  destruct req; simpl.
  - apply auth_onMessage_limiter.
  - apply auth_onClose_limiter.
  - unfold Auth.onTickTimer. destruct (Auth.rooms srv !! roomId); [|reflexivity].
    destruct (Auth.tickInterval _); [|reflexivity].
    destruct (Auth.tick _ _ _) as [[res room1] evs]. reflexivity.
  - reflexivity.
Qed.

Lemma relay_onMessage_limiter
    (decode : list Z -> option jsval) f2s sock conn raw now net srv :
  Relay.rateLimiter (snd (fst (Relay.onMessage decode f2s sock conn raw now net srv)))
  = snd (RateLimit.allow (Relay.clientId conn) now (Relay.rateLimiter srv)).
Proof.
  unfold Relay.onMessage.
  destruct (RateLimit.allow _ _ _) as [allowed rl]. cbn [snd].
  destruct (negb allowed); [destruct (Relay.send_message _ _); reflexivity|].
  destruct (Relay.decodeMessage_with decode raw);
    [|destruct (Relay.send_message _ _); reflexivity].
  destruct (Js.eq_str _ "hello").
  { destruct (_ && _); [|reflexivity].
    destruct (Relay.send_message _ _) as [[u|] evs]; reflexivity. }
  destruct (if Js.eq_str _ "ping" then _ else _);
    [destruct (Relay.send_message _ _); reflexivity|].
  unfold Relay.relay_to_room.
  destruct (Relay.deref _ _); [|reflexivity].
  destruct (Relay.relay _ _ _ _) as [[res r1] evs]. reflexivity.
Qed.

Lemma relay_onClose_limiter conn net srv :
  Relay.rateLimiter (snd (fst (Relay.onClose conn net srv)))
  = RateLimit.remove (Relay.clientId conn) (Relay.rateLimiter srv).
Proof.
  unfold Relay.onClose. cbn [Relay.rooms Relay.with_rateLimiter].
  destruct (Relay.rooms srv !! Relay.roomId conn); [|reflexivity].
  destruct (Relay.deref _ _); [|reflexivity].
  destruct (Relay.leave _ _ _) as [[[u|] r1] evs]; [|reflexivity].
  destruct (_ && _); [destruct (Relay.destroy r1)|]; reflexivity.
Qed.

Lemma relay_onConnection_limiter cfg sock cid rid now net srv :
  Relay.rateLimiter (snd (fst (Relay.onConnection cfg sock cid rid now net srv)))
  = Relay.rateLimiter srv.
Proof.
  unfold Relay.onConnection, Relay.getOrCreateRoom.
  destruct (Relay.rooms srv !! rid); cbn [fst snd];
    (destruct (Relay.deref _ _); [|reflexivity]);
    destruct (Relay.join _ _ _ _ _) as [[[joined|] r1] evs];
    try destruct (negb joined); reflexivity.
Qed.

Lemma relay_onMetricsTimer_limiter now srv :
  Relay.rateLimiter (Relay.onMetricsTimer now srv) = Relay.rateLimiter srv.
Proof.
  unfold Relay.onMetricsTimer.
  apply (map_fold_weak_ind
           (fun s (_ : gmap string nat) =>
              Relay.rateLimiter s = Relay.rateLimiter srv)).
  - reflexivity.
  - intros rid ref m s _ Hs. destruct (Relay.deref ref s); [|exact Hs].
    exact Hs.
Qed.

Lemma relay_serve_limiter (decode : list Z -> option jsval) cfg f2s srv req :
  Relay.rateLimiter (Relay.serve decode cfg f2s srv req)
  = match Relay.limiter_call req with
    | Some call => RateLimit.step (Relay.rateLimiter srv) call
    | None => Relay.rateLimiter srv
    end.
Proof.
  destruct req; simpl.
  - apply relay_onConnection_limiter.
  - apply relay_onMessage_limiter.
  - apply relay_onClose_limiter.
  - apply relay_onMetricsTimer_limiter.
  - reflexivity.
Qed.

(** X17.  In both profiles the state of the rate limiter, after any
    sequence of requests, is what the limiter's own calls make of a new
    limiter when every message calls [allow] once for its client at the
    time it arrives (whether or not it then decodes or is routed), every
    disconnect calls [remove] for its client, the ten-second timer calls
    [cleanup], and nothing else (a connection, a tick, the metrics
    timer) touches it. *)
Theorem routers_drive_one_limiter (decode : list Z -> option jsval)
    (acfg : Auth.Config) (areqs : list Auth.Request)
    (rcfg : Relay.Config) (float_to_string : Z -> string)
    (rreqs : list Relay.Request) :
  Auth.rateLimiter (Auth.serve_all decode acfg areqs (Auth.start acfg))
  = RateLimit.run (omap Auth.limiter_call areqs)
      (RateLimit.new (Auth.MAX_MESSAGES_PER_SECOND acfg))
  /\ Relay.rateLimiter
       (Relay.serve_all decode rcfg float_to_string rreqs (Relay.start rcfg))
     = RateLimit.run (omap Relay.limiter_call rreqs)
         (RateLimit.new (Relay.MAX_MESSAGES_PER_SECOND rcfg)).
Proof.
  split.
  - change (RateLimit.new (Auth.MAX_MESSAGES_PER_SECOND acfg))
      with (Auth.rateLimiter (Auth.start acfg)).
    generalize (Auth.start acfg).
    induction areqs as [|req reqs IH]; intros srv; [reflexivity|].
    change (Auth.serve_all decode acfg (req :: reqs) srv)
      with (Auth.serve_all decode acfg reqs (Auth.serve decode acfg srv req)).
    rewrite IH, auth_serve_limiter. simpl.
    destruct (Auth.limiter_call req); reflexivity.
  - change (RateLimit.new (Relay.MAX_MESSAGES_PER_SECOND rcfg))
      with (Relay.rateLimiter (Relay.start rcfg)).
    generalize (Relay.start rcfg).
    induction rreqs as [|req reqs IH]; intros srv; [reflexivity|].
    change (Relay.serve_all decode rcfg float_to_string (req :: reqs) srv)
      with (Relay.serve_all decode rcfg float_to_string reqs
              (Relay.serve decode rcfg float_to_string srv req)).
    rewrite IH, relay_serve_limiter. simpl.
    destruct (Relay.limiter_call req); reflexivity.
Qed.

(** *** Messages that are turned away *)

(** X18.  In both profiles a message that the limiter does not admit,
    or that is admitted and is malformed for [decodeMessage] (whatever
    the package's [decode] makes of the bytes), is answered with exactly
    one error envelope to its own socket, [RATE_LIMITED] in the first
    case and [INVALID_MESSAGE] in the second; the handler returns, and
    nothing of the server but the limiter has changed: no room is
    created, looked at or written. *)
Theorem rejected_messages_reach_no_room
    (decode : list Z -> option jsval)
    (acfg : Auth.Config) (sock : WebSocket) (meta : Auth.Meta)
    (data : list Z) (now : Z) (net : Net) (asrv : Auth.Server)
    (float_to_string : Z -> string) (conn : Relay.Conn) (rsrv : Relay.Server) :
  let aallow := RateLimit.allow (Auth.clientId meta) now (Auth.rateLimiter asrv) in
  let rallow := RateLimit.allow (Relay.clientId conn) now (Relay.rateLimiter rsrv) in
  (fst aallow = false \/ Auth.decodeMessage_with decode data = None ->
   Auth.onMessage decode acfg sock meta data now net asrv
   = (Returned tt, meta, Auth.with_rateLimiter (snd aallow) asrv,
      [EvSend sock
         (MsgPack.enc
            (Auth.to_js
               (if fst aallow
                then Auth.Error "INVALID_MESSAGE" "Invalid message format"
                else Auth.Error "RATE_LIMITED" "Rate limited")))]))
  /\ (fst rallow = false \/ Relay.decodeMessage_with decode data = None ->
      Relay.onMessage decode float_to_string sock conn data now net rsrv
      = (Returned tt, Relay.with_rateLimiter (snd rallow) rsrv,
         [EvSend sock
            (MsgPack.enc
               (Relay.to_js
                  (if fst rallow
                   then Relay.Error "INVALID_MESSAGE" "Invalid message format"
                   else Relay.Error "RATE_LIMITED" "Rate limited")))])).
Proof.
  intros aallow rallow. split.
  - intros Ha. unfold Auth.onMessage. fold aallow.
    destruct aallow as [ok rl]. cbn [fst snd] in *.
    destruct ok; cbn [negb]; [|reflexivity].
    destruct Ha as [Ha|Ha]; [discriminate|]. rewrite Ha. reflexivity.
  - intros Hr. unfold Relay.onMessage. fold rallow.
    destruct rallow as [ok rl]. cbn [fst snd] in *.
    destruct ok; cbn [negb]; [|reflexivity].
    destruct Hr as [Hr|Hr]; [discriminate|]. rewrite Hr. reflexivity.
Qed.

Lemma rejected_messages_reach_no_room_witness :
  snd (Auth.onMessage MsgPack.decode Scenario.auth_config 1%nat
         Scenario.meta_a_joined Scenario.garbage_bytes 2 Scenario.all_open
         Scenario.auth_server)
  = [EvSend 1%nat
       (MsgPack.enc
          (Auth.to_js (Auth.Error "INVALID_MESSAGE" "Invalid message format")))]
  /\ snd (Relay.onMessage MsgPack.decode Scenario.no_floats 1%nat
            Scenario.conn_c1 Scenario.numeric_key_array 2 Scenario.all_open
            Scenario.relay_two)
     = [EvSend 1%nat
          (MsgPack.enc
             (Relay.to_js
                (Relay.Error "INVALID_MESSAGE" "Invalid message format")))]
  /\ snd (Auth.onMessage MsgPack.decode Scenario.auth_config 1%nat
            Scenario.meta_a_joined Scenario.numeric_key_bytes 2
            Scenario.all_open Scenario.auth_server)
     = [EvSend 1%nat
          (MsgPack.enc
             (Auth.to_js
                (Auth.Error "INVALID_MESSAGE" "Invalid message format")))].
Proof.
  destruct (rejected_messages_reach_no_room MsgPack.decode
              Scenario.auth_config 1%nat
              Scenario.meta_a_joined Scenario.garbage_bytes 2 Scenario.all_open
              Scenario.auth_server Scenario.no_floats Scenario.conn_c1
              Scenario.relay_two) as [Ha _].
  destruct (rejected_messages_reach_no_room MsgPack.decode
              Scenario.auth_config 1%nat
              Scenario.meta_a_joined Scenario.numeric_key_array 2
              Scenario.all_open Scenario.auth_server Scenario.no_floats
              Scenario.conn_c1 Scenario.relay_two) as [_ Hr].
  destruct (rejected_messages_reach_no_room MsgPack.decode
              Scenario.auth_config 1%nat
              Scenario.meta_a_joined Scenario.numeric_key_bytes 2
              Scenario.all_open Scenario.auth_server Scenario.no_floats
              Scenario.conn_c1 Scenario.relay_two) as [Hk _].
  split; [rewrite Ha; [reflexivity | right; reflexivity]|].
  split; [rewrite Hr; [reflexivity | right; reflexivity]|].
  rewrite Hk; [reflexivity | right; reflexivity].
Defined.

(** *** Joining through the authoritative router *)

Lemma auth_join_string pid sock name now net r :
  Auth.join pid sock (JStr name) now net r
  = if Auth.isFull r
    then (Returned false, r,
          [EvSend sock
             (MsgPack.enc
                (Auth.to_js (Auth.Error "ROOM_FULL" (Auth.full_message r))))])
    else (Returned true,
          Auth.room_after (Auth.join pid sock (JStr name) now net r),
          snd (Auth.join pid sock (JStr name) now net r)).
Proof.
  unfold Auth.join. destruct (Auth.isFull r).
  - rewrite AuthRoomFacts.encodeMessage_Error. reflexivity.
  - unfold Auth.broadcast. rewrite AuthRoomFacts.encodeMessage_PlayerJoined.
    reflexivity.
Qed.

(** X19.  An admitted [join] message whose payload has an ASCII string
    for [displayName], or none.  On a connection that has joined already
    it is ignored.  Otherwise the router calls [join] on the room of the
    connection, which it creates if the registry does not have it, with
    the name cut to its first 32 characters, or with "Anonymous" when the
    name is absent or empty.  If the room has space the connection counts
    as joined and the room holds the player under the client's id with
    that name, this socket and the neutral state.  If the room is full
    the connection stays unjoined and open, and [ROOM_FULL] is all it is
    sent. *)
Theorem join_message_seats_the_player (decode : list Z -> option jsval)
    (cfg : Auth.Config) (sock : WebSocket) (meta : Auth.Meta) (data : list Z)
    (now : Z) (net : Net) (srv : Auth.Server) (message payload : jsval)
    (given : option string) :
  fst (RateLimit.allow (Auth.clientId meta) now (Auth.rateLimiter srv)) = true ->
  Auth.decodeMessage_with decode data = Some message ->
  Js.get "type" message = Some (JStr "join") ->
  Js.get "payload" message = Some payload ->
  Js.get "displayName" payload
  = Some (match given with Some s => JStr s | None => JUndefined end) ->
  match given with Some s => Js.ascii s | None => true end = true ->
  let name :=
    String.substring 0 32
      match given with
      | Some s => if String.eqb s EmptyString then "Anonymous"%string else s
      | None => "Anonymous"%string
      end in
  let srv1 :=
    Auth.with_rateLimiter
      (snd (RateLimit.allow (Auth.clientId meta) now (Auth.rateLimiter srv)))
      srv in
  let room := fst (Auth.getOrCreateRoom cfg (Auth.roomId meta) now srv1) in
  let srv2 := snd (Auth.getOrCreateRoom cfg (Auth.roomId meta) now srv1) in
  let attempt := Auth.join (Auth.clientId meta) sock (JStr name) now net room in
  Auth.onMessage decode cfg sock meta data now net srv
  = (if Auth.joined meta
     then (Returned tt, meta,
           Auth.with_rooms (<[Auth.roomId meta := room]> (Auth.rooms srv2)) srv2,
           [])
     else (Returned tt,
           if Auth.isFull room then meta else Auth.with_joined true meta,
           Auth.with_rooms
             (<[Auth.roomId meta := Auth.room_after attempt]> (Auth.rooms srv2))
             srv2,
           snd attempt))
  /\ (String.length name <= 32)%nat
  /\ (Auth.isFull room = false ->
      Assoc.get (Auth.clientId meta) (Auth.players (Auth.room_after attempt))
      = Some {| Auth.player_id := Auth.clientId meta; Auth.ws := sock;
                Auth.displayName := JStr name;
                Auth.state := Auth.neutral_state; Auth.joinedAt := now |})
  /\ (Auth.isFull room = true ->
      attempt
      = (Returned false, room,
         [EvSend sock
            (MsgPack.enc
               (Auth.to_js
                  (Auth.Error "ROOM_FULL" (Auth.full_message room))))])).
Proof.
  intros Hallow Hdec Htype Hpayload Hname _ name srv1 room srv2 attempt.
  split; [|split; [|split]].
  - unfold Auth.onMessage.
    destruct (RateLimit.allow _ _ _) as [ok rl]. cbn [fst snd] in *. subst ok.
    cbn [negb]. rewrite Hdec.
    fold srv1. fold room srv2.
    destruct (Auth.getOrCreateRoom cfg (Auth.roomId meta) now srv1) as [room0 srv0].
    cbn [fst snd] in *. subst room srv2.
    unfold Auth.dispatch. rewrite Htype. cbn [default Js.eq_str].
    change (String.eqb "join" "join") with true. cbv iota.
    destruct (Auth.joined meta); [reflexivity|].
    rewrite Hpayload, Hname.
    assert (Hslice : Js.slice 32
                       (Js.or_else
                          match given with Some s => JStr s | None => JUndefined end
                          (JStr "Anonymous"))
                     = Some (JStr name)).
    { subst name. destruct given as [s|]; [|reflexivity].
      unfold Js.or_else. cbn [Js.truthy].
      destruct (String.eqb s EmptyString); reflexivity. }
    rewrite Hslice. fold attempt. subst attempt.
    rewrite auth_join_string. destruct (Auth.isFull room0); reflexivity.
  - apply AuthRoomFacts.substring_length.
  - intros Hroom. subst attempt. rewrite AuthRoomFacts.join_players, Hroom.
    apply AssocFacts.get_set_eq.
  - intros Hfull. subst attempt. rewrite auth_join_string, Hfull. reflexivity.
Qed.

Lemma join_message_seats_the_player_witness :
  String.substring 0 32 Scenario.long_name
  = "A name of more than thirty-two b"%string
  /\ Assoc.get "a"
       (Auth.players
          (Auth.room_after
             (Auth.join "a" 1%nat
                (JStr (String.substring 0 32 Scenario.long_name)) 0
                Scenario.all_open (Auth.new "arena" 1 20 0))))
     = Some {| Auth.player_id := "a"; Auth.ws := 1%nat;
               Auth.displayName :=
                 JStr (String.substring 0 32 Scenario.long_name);
               Auth.state := Auth.neutral_state; Auth.joinedAt := 0 |}.
Proof.
  split; [reflexivity|].
  destruct (join_message_seats_the_player MsgPack.decode Scenario.auth_config 1%nat
              Scenario.meta_a (MsgPack.enc Scenario.long_join) 0
              Scenario.all_open (Auth.start Scenario.auth_config)
              Scenario.long_join
              (JObj [("displayName"%string, JStr Scenario.long_name)])
              (Some Scenario.long_name)
              eq_refl eq_refl eq_refl eq_refl eq_refl eq_refl)
    as (_ & _ & Hseat & _).
  exact (Hseat eq_refl).
Defined.

(** X20.  An admitted message of type [join] on a connection that has
    not joined, or of type [chat] on one that has, whose [payload] is
    absent or [null]: reading a property of the payload throws, and
    nothing in the handler catches it.  Nothing is sent and no player is
    added; what has happened by then is that the limiter has counted the
    message and the room of the connection exists. *)
Theorem missing_payload_throws (decode : list Z -> option jsval)
    (cfg : Auth.Config) (sock : WebSocket) (meta : Auth.Meta) (data : list Z)
    (now : Z) (net : Net) (srv : Auth.Server) (message : jsval) :
  fst (RateLimit.allow (Auth.clientId meta) now (Auth.rateLimiter srv)) = true ->
  Auth.decodeMessage_with decode data = Some message ->
  Js.get "payload" message = Some JUndefined
  \/ Js.get "payload" message = Some JNull ->
  (Js.get "type" message = Some (JStr "join") /\ Auth.joined meta = false)
  \/ (Js.get "type" message = Some (JStr "chat") /\ Auth.joined meta = true) ->
  let srv1 :=
    Auth.with_rateLimiter
      (snd (RateLimit.allow (Auth.clientId meta) now (Auth.rateLimiter srv)))
      srv in
  let room := fst (Auth.getOrCreateRoom cfg (Auth.roomId meta) now srv1) in
  let srv2 := snd (Auth.getOrCreateRoom cfg (Auth.roomId meta) now srv1) in
  Auth.onMessage decode cfg sock meta data now net srv
  = (Thrown, meta,
     Auth.with_rooms (<[Auth.roomId meta := room]> (Auth.rooms srv2)) srv2,
     []).
Proof.
  intros Hallow Hdec Hpayload Htype srv1 room srv2.
  unfold Auth.onMessage.
  destruct (RateLimit.allow _ _ _) as [ok rl]. cbn [fst snd] in *. subst ok.
  cbn [negb]. rewrite Hdec. fold srv1. fold room srv2.
  destruct (Auth.getOrCreateRoom cfg (Auth.roomId meta) now srv1) as [room0 srv0].
  cbn [fst snd] in *. subst room srv2. unfold Auth.dispatch.
  destruct Htype as [[-> ->]|[-> ->]]; cbn [default Js.eq_str];
    destruct Hpayload as [->| ->]; reflexivity.
Qed.

Lemma missing_payload_throws_witness :
  fst (fst (fst (Auth.onMessage MsgPack.decode Scenario.auth_config 1%nat Scenario.meta_a
                   (MsgPack.enc Scenario.bare_join) 0 Scenario.all_open
                   (Auth.start Scenario.auth_config))))
  = Thrown
  /\ snd (Auth.onMessage MsgPack.decode Scenario.auth_config 1%nat Scenario.meta_a
            (MsgPack.enc Scenario.bare_join) 0 Scenario.all_open
            (Auth.start Scenario.auth_config))
     = [].
Proof.
  pose proof (missing_payload_throws MsgPack.decode Scenario.auth_config 1%nat
                Scenario.meta_a (MsgPack.enc Scenario.bare_join) 0
                Scenario.all_open (Auth.start Scenario.auth_config)
                Scenario.bare_join eq_refl eq_refl
                (or_introl eq_refl) (or_introl (conj eq_refl eq_refl))) as H.
  split; rewrite H; reflexivity.
Defined.

(** *** The relay router *)

(** X21.  An admitted message of type [ping] with an ASCII string for
    [nonce] is answered with one [pong] to its own socket, carrying the
    same nonce and the server's clock reading; it is not relayed, and
    nothing of the server but the limiter has changed.  When the
    envelope is valid for the codec, the bytes sent decode to the [pong]
    envelope with that nonce. *)
Theorem ping_is_answered_with_pong
    (decode : list Z -> option jsval)
    (float_to_string : Z -> string) (sock : WebSocket) (conn : Relay.Conn)
    (raw : list Z) (now : Z) (net : Net) (srv : Relay.Server)
    (message : jsval) (nonce : string) :
  fst (RateLimit.allow (Relay.clientId conn) now (Relay.rateLimiter srv)) = true ->
  Relay.decodeMessage_with decode raw = Some message ->
  Js.get "type" message = Some (JStr "ping") ->
  Js.get "nonce" message = Some (JStr nonce) ->
  Js.ascii nonce = true ->
  let bytes := MsgPack.enc (Relay.to_js (Relay.Pong nonce now)) in
  Relay.onMessage decode float_to_string sock conn raw now net srv
  = (Returned tt,
     Relay.with_rateLimiter
       (snd (RateLimit.allow (Relay.clientId conn) now (Relay.rateLimiter srv)))
       srv,
     [EvSend sock bytes])
  /\ (MsgPack.valid (Relay.to_js (Relay.Pong nonce now)) = true ->
      Relay.decodeMessage bytes
      = Some (JObj [("type", JStr "pong"); ("nonce", JStr nonce);
                    ("serverTime", JNum now)]%string)).
Proof.
  intros Hallow Hdec Htype Hnonce _ bytes.
  split.
  - unfold Relay.onMessage.
    destruct (RateLimit.allow _ _ _) as [ok rl]. cbn [fst snd] in *. subst ok.
    cbn [negb]. rewrite Hdec, Htype, Hnonce.
    cbn [default from_option id Js.eq_str].
    change (String.eqb "ping" "hello") with false.
    change (String.eqb "ping" "ping") with true. cbv iota.
    reflexivity.
  - intros Hvalid.
    unfold MsgPack.valid in Hvalid. apply andb_true_iff in Hvalid as [Hwf _].
    apply (ProtocolFacts.relay_accepts_envelope (Relay.Pong nonce now)).
    apply MsgPackFacts.decode_enc. exact Hwf.
Qed.

Lemma ping_is_answered_with_pong_witness :
  snd (Relay.onMessage MsgPack.decode Scenario.no_floats 1%nat Scenario.conn_c1
         (MsgPack.enc Scenario.ping) 2 Scenario.all_open Scenario.relay_two)
  = [EvSend 1%nat (MsgPack.enc (Relay.to_js (Relay.Pong "n1" 2)))]
  /\ Relay.decodeMessage (MsgPack.enc (Relay.to_js (Relay.Pong "n1" 2)))
     = Some (JObj [("type", JStr "pong"); ("nonce", JStr "n1");
                   ("serverTime", JNum 2)]%string).
Proof.
  destruct (ping_is_answered_with_pong MsgPack.decode Scenario.no_floats 1%nat
              Scenario.conn_c1 (MsgPack.enc Scenario.ping) 2 Scenario.all_open
              Scenario.relay_two Scenario.ping "n1"
              eq_refl eq_refl eq_refl eq_refl eq_refl) as [H1 H2].
  split; [rewrite H1; reflexivity | exact (H2 eq_refl)].
Defined.

Lemma game_data_goes_to_relay
    (decode : list Z -> option jsval) f2s sock conn raw now net srv message :
  fst (RateLimit.allow (Relay.clientId conn) now (Relay.rateLimiter srv)) = true ->
  Relay.decodeMessage_with decode raw = Some message ->
  Relay.game_data message = true ->
  Relay.onMessage decode f2s sock conn raw now net srv
  = Relay.relay_to_room conn message net
      (Relay.with_rateLimiter
         (snd (RateLimit.allow (Relay.clientId conn) now (Relay.rateLimiter srv)))
         srv).
Proof.
  intros Hallow Hdec Hgame. unfold Relay.onMessage.
  destruct (RateLimit.allow _ _ _) as [ok rl]. cbn [fst snd] in *. subst ok.
  cbn [negb]. rewrite Hdec. unfold Relay.game_data in Hgame.
  apply andb_true_iff in Hgame as [Hh Hp].
  apply negb_true_iff in Hh, Hp. rewrite Hh.
  destruct (Js.eq_str _ "ping"); [|reflexivity].
  cbn [andb] in Hp.
  destruct (default JUndefined (Js.get "nonce" message)); try discriminate;
    reflexivity.
Qed.

(** X22.  An admitted message that is neither a hello nor a ping with a
    string nonce, from a connection whose client is a peer of the room
    object the connection holds, every string of it ASCII, and that the
    codec can carry: the handler returns; the message, whatever its type
    and properties, is sent inside a [relay] envelope with the client's
    id to every other peer of that room whose socket is open; the room
    counts one message; and the bytes sent decode to the envelope with
    the message unchanged. *)
Theorem game_data_reaches_the_room
    (decode : list Z -> option jsval)
    (float_to_string : Z -> string) (sock : WebSocket) (conn : Relay.Conn)
    (raw : list Z) (now : Z) (net : Net) (srv : Relay.Server)
    (message : jsval) (r : Relay.Room) (peer : Relay.Peer) :
  fst (RateLimit.allow (Relay.clientId conn) now (Relay.rateLimiter srv)) = true ->
  Relay.decodeMessage_with decode raw = Some message ->
  Js.ascii_text message = true ->
  Relay.game_data message = true ->
  Relay.deref (Relay.room conn) srv = Some r ->
  Assoc.get (Relay.clientId conn) (Relay.peers r) = Some peer ->
  MsgPack.valid (Relay.to_js (Relay.RelayMessage (Relay.clientId conn) message))
  = true ->
  let bytes :=
    MsgPack.enc
      (Relay.to_js (Relay.RelayMessage (Relay.clientId conn) message)) in
  Relay.onMessage decode float_to_string sock conn raw now net srv
  = (Returned tt,
     Relay.store (Relay.room conn)
       (Relay.with_metrics (Relay.messageCount r + 1)
          (Relay.lastMessageCountReset r) (Relay.messagesPerSecond r) r)
       (Relay.with_rateLimiter
          (snd (RateLimit.allow (Relay.clientId conn) now
                  (Relay.rateLimiter srv)))
          srv),
     Relay.fanout bytes (Some (Relay.clientId conn)) net (Relay.peers r))
  /\ Relay.decodeMessage bytes
     = Some (JObj [("type", JStr "relay");
                   ("from", JStr (Relay.clientId conn));
                   ("data", message)]%string).
Proof.
  intros Hallow Hdec _ Hgame Hr Hp Hvalid bytes.
  unfold MsgPack.valid in Hvalid. apply andb_true_iff in Hvalid as [Hwf Henc].
  pose proof (RelayRoomFacts.relay_result r (Relay.clientId conn) peer message
                net Hp Henc) as Hrelay.
  split.
  2:{ apply (ProtocolFacts.relay_accepts_envelope
               (Relay.RelayMessage (Relay.clientId conn) message)).
      apply MsgPackFacts.decode_enc. exact Hwf. }
  rewrite (game_data_goes_to_relay decode _ _ _ _ _ _ _ message Hallow Hdec Hgame).
  unfold Relay.relay_to_room.
  change (Relay.deref (Relay.room conn) (Relay.with_rateLimiter _ srv))
    with (Relay.deref (Relay.room conn) srv).
  rewrite Hr, Hrelay. reflexivity.
Qed.

Lemma game_data_reaches_the_room_witness :
  snd (Relay.onMessage MsgPack.decode Scenario.no_floats 1%nat Scenario.conn_c1
         (MsgPack.enc Scenario.position_update) 2 Scenario.all_open
         Scenario.relay_two)
  = [EvSend 2%nat
       (MsgPack.enc
          (Relay.to_js (Relay.RelayMessage "c1" Scenario.position_update)))]
  /\ Relay.decodeMessage
       (MsgPack.enc
          (Relay.to_js (Relay.RelayMessage "c1" Scenario.position_update)))
     = Some (JObj [("type", JStr "relay"); ("from", JStr "c1");
                   ("data", Scenario.position_update)]%string).
Proof.
  destruct (game_data_reaches_the_room MsgPack.decode Scenario.no_floats 1%nat
              Scenario.conn_c1 (MsgPack.enc Scenario.position_update) 2
              Scenario.all_open Scenario.relay_two Scenario.position_update
              Scenario.relay_arena_two Scenario.peer_c1
              eq_refl eq_refl eq_refl eq_refl eq_refl eq_refl eq_refl)
    as [H H2].
  split; [rewrite H; reflexivity | exact H2].
Defined.

(** X23.  An admitted game-data message from a peer that decodes to a
    value nested deeper than the encoder accepts (the decoder has no such
    limit, the encoder stops at depth 100 and the [relay] envelope adds
    one level): encoding the envelope throws inside [relay], and nothing
    in the handler catches it.  Nothing is sent and the room is as it
    was. *)
Theorem message_nested_too_deep_throws (decode : list Z -> option jsval)
    (float_to_string : Z -> string) (sock : WebSocket) (conn : Relay.Conn)
    (raw : list Z) (now : Z) (net : Net) (srv : Relay.Server)
    (message : jsval) (r : Relay.Room) (peer : Relay.Peer) :
  fst (RateLimit.allow (Relay.clientId conn) now (Relay.rateLimiter srv)) = true ->
  Relay.decodeMessage_with decode raw = Some message ->
  Relay.game_data message = true ->
  Relay.deref (Relay.room conn) srv = Some r ->
  Assoc.get (Relay.clientId conn) (Relay.peers r) = Some peer ->
  MsgPack.encodable 2 message = false ->
  Relay.onMessage decode float_to_string sock conn raw now net srv
  = (Thrown,
     Relay.store (Relay.room conn) r
       (Relay.with_rateLimiter
          (snd (RateLimit.allow (Relay.clientId conn) now
                  (Relay.rateLimiter srv)))
          srv),
     []).
Proof.
  intros Hallow Hdec Hgame Hr Hp Hdeep.
  rewrite (game_data_goes_to_relay decode _ _ _ _ _ _ _ message Hallow Hdec Hgame).
  unfold Relay.relay_to_room.
  change (Relay.deref (Relay.room conn) (Relay.with_rateLimiter _ srv))
    with (Relay.deref (Relay.room conn) srv).
  rewrite Hr. unfold Relay.relay. rewrite Hp.
  unfold Relay.broadcast, Relay.encodeMessage, MsgPack.encode.
  rewrite RelayRoomFacts.encodable_RelayMessage, Hdeep. reflexivity.
Qed.

Lemma message_nested_too_deep_throws_witness :
  Relay.decodeMessage Scenario.deep_bytes = Some Scenario.deep_message
  /\ Relay.onMessage MsgPack.decode Scenario.no_floats 1%nat Scenario.conn_c1
       Scenario.deep_bytes 2 Scenario.all_open Scenario.relay_two
     = (Thrown,
        Relay.store 0 Scenario.relay_arena_two
          (Relay.with_rateLimiter
             (snd (RateLimit.allow "c1" 2
                     (Relay.rateLimiter Scenario.relay_two)))
             Scenario.relay_two),
        []).
Proof.
  assert (Hdec : Relay.decodeMessage Scenario.deep_bytes
                 = Some Scenario.deep_message) by (vm_compute; reflexivity).
  split; [exact Hdec|].
  apply (message_nested_too_deep_throws MsgPack.decode Scenario.no_floats 1%nat
           Scenario.conn_c1 Scenario.deep_bytes 2 Scenario.all_open
           Scenario.relay_two Scenario.deep_message Scenario.relay_arena_two
           Scenario.peer_c1);
    [reflexivity | exact Hdec | reflexivity | reflexivity | reflexivity
    | vm_compute; reflexivity].
Defined.

(** *** Disconnect of one of several *)

Lemma size_delete_member {V : Type} k (v : V) m :
  Assoc.get k m = Some v -> Assoc.size (Assoc.delete k m) = Assoc.size m - 1.
Proof.
  intros E. unfold Assoc.size. rewrite AssocFacts.length_delete, E.
  apply AssocFacts.get_In in E. destruct m; [destruct E|]. simpl length. lia.
Qed.

(** X29.  In either profile, when the connection that closes belongs to
    a member of a room that has other members, the handler returns, the
    client's rate-limit window is removed, the room stays in the registry
    without the member and is not destroyed, and [player_left]
    ([peer_left] in the relay profile) is sent to every remaining member
    whose socket is open and to nobody else. *)
Theorem close_of_one_of_several
    (meta : Auth.Meta) (net : Net) (asrv : Auth.Server) (aroom : Auth.Room)
    (p : Auth.Player)
    (conn : Relay.Conn) (rsrv : Relay.Server) (ref : nat) (rroom : Relay.Room)
    (peer : Relay.Peer) :
  Auth.rooms asrv !! Auth.roomId meta = Some aroom ->
  Assoc.get (Auth.clientId meta) (Auth.players aroom) = Some p ->
  1 < Auth.playerCount aroom ->
  Relay.rooms rsrv !! Relay.roomId conn = Some ref ->
  Relay.deref ref rsrv = Some rroom ->
  Assoc.get (Relay.clientId conn) (Relay.peers rroom) = Some peer ->
  1 < Relay.playerCount rroom ->
  let astay := Assoc.delete (Auth.clientId meta) (Auth.players aroom) in
  let rstay := Assoc.delete (Relay.clientId conn) (Relay.peers rroom) in
  Auth.onClose meta net asrv
  = (Returned tt,
     Auth.with_rooms
       (<[Auth.roomId meta := Auth.with_players astay aroom]> (Auth.rooms asrv))
       (Auth.with_rateLimiter
          (RateLimit.remove (Auth.clientId meta) (Auth.rateLimiter asrv)) asrv),
     Auth.fanout
       (MsgPack.enc (Auth.to_js (Auth.PlayerLeft (Auth.clientId meta))))
       None net astay)
  /\ Relay.onClose conn net rsrv
     = (Returned tt,
        Relay.store ref (Relay.with_peers rstay rroom)
          (Relay.with_rateLimiter
             (RateLimit.remove (Relay.clientId conn) (Relay.rateLimiter rsrv))
             rsrv),
        Relay.fanout
          (MsgPack.enc (Relay.to_js (Relay.PeerLeft (Relay.clientId conn))))
          None net rstay).
Proof.
  intros Haroom Hp Hacount Hrroom Href Hpeer Hrcount astay rstay. split.
  - unfold Auth.onClose. cbn [Auth.rooms Auth.with_rateLimiter]. rewrite Haroom.
    unfold Auth.leave. rewrite Hp. unfold Auth.broadcast.
    rewrite AuthRoomFacts.encodeMessage_PlayerLeft.
    cbn [Auth.players Auth.with_players]. fold astay.
    assert (Hsize : Assoc.size astay = Auth.playerCount aroom - 1)
      by apply (size_delete_member _ p), Hp.
    assert (Hnz : (Assoc.size astay =? 0) = false) by (apply Z.eqb_neq; lia).
    rewrite Hnz. unfold Auth.playerCount. cbn [Auth.players Auth.with_players].
    rewrite Hnz. reflexivity.
  - unfold Relay.onClose. cbn [Relay.rooms Relay.with_rateLimiter]. rewrite Hrroom.
    change (Relay.deref ref (Relay.with_rateLimiter _ rsrv)) with (Relay.deref ref rsrv).
    rewrite Href, RelayRoomFacts.leave_result, Hpeer. fold rstay.
    assert (Hsize : Assoc.size rstay = Relay.playerCount rroom - 1)
      by apply (size_delete_member _ peer), Hpeer.
    assert (Hnz : (Assoc.size rstay =? 0) = false) by (apply Z.eqb_neq; lia).
    unfold Relay.playerCount. cbn [Relay.peers Relay.with_peers].
    rewrite Hnz. reflexivity.
Qed.

Lemma close_of_one_of_several_witness :
  snd (Auth.onClose Scenario.meta_a_joined Scenario.all_open
         Scenario.busy_server)
  = [EvSend 4%nat (MsgPack.enc (Auth.to_js (Auth.PlayerLeft "a")))]
  /\ snd (Relay.onClose Scenario.conn_c1 Scenario.all_open Scenario.relay_two)
     = [EvSend 2%nat (MsgPack.enc (Relay.to_js (Relay.PeerLeft "c1")))].
Proof.
  destruct (close_of_one_of_several Scenario.meta_a_joined Scenario.all_open
              Scenario.busy_server Scenario.busy_arena Scenario.ann_at_0
              Scenario.conn_c1 Scenario.relay_two 0%nat
              Scenario.relay_arena_two Scenario.peer_c1
              eq_refl eq_refl eq_refl eq_refl eq_refl eq_refl eq_refl)
    as [Ha Hr].
  split; [rewrite Ha | rewrite Hr]; reflexivity.
Defined.

End MessageFacts.

(** ** The upgrade handler *)
Module UpgradeFacts.
Import Upgrade.

Lemma append_empty s : (s +:+ EmptyString)%string = s.
Proof.
  induction s as [|c s IH]; [reflexivity|].
  change (String c (s +:+ EmptyString) = String c s). f_equal. exact IH.
Qed.

Lemma split_not_nil sep s : split sep s <> [].
Proof.
  destruct s as [|c s]; simpl; [discriminate|].
  destruct (Ascii.eqb c sep); [discriminate|].
  destruct (split sep s); discriminate.
Qed.

(** No part of a split string has the separator. *)
Lemma split_parts_clean sep s part :
  In part (split sep s) -> contains sep part = false.
Proof.
  revert part. induction s as [|c s IH]; simpl; intros part.
  - intros [<-|[]]. reflexivity.
  - destruct (Ascii.eqb c sep) eqn:E.
    + intros [<-|Hin]; [reflexivity | apply IH, Hin].
    + destruct (split sep s) as [|h t] eqn:Es.
      * intros [<-|[]]. simpl. rewrite E. reflexivity.
      * intros [<-|Hin].
        -- simpl. rewrite E. apply IH. left. reflexivity.
        -- apply IH. right. exact Hin.
Qed.

Lemma split_clean_prefix sep seg p :
  contains sep seg = false ->
  split sep (seg +:+ p)
  = match split sep p with
    | h :: t => (seg +:+ h) :: t
    | [] => [seg]
    end.
Proof.
  induction seg as [|c seg IH]; intros Hc.
  - change (EmptyString +:+ p)%string with p.
    destruct (split sep p) as [|h t] eqn:E; [|reflexivity].
    exfalso. exact (split_not_nil sep p E).
  - simpl in Hc. apply orb_false_iff in Hc as [Hc1 Hc2].
    change (String c seg +:+ p)%string with (String c (seg +:+ p)).
    simpl. rewrite Hc1, IH by exact Hc2.
    destruct (split sep p) as [|h t] eqn:E; [exfalso; exact (split_not_nil sep p E)|].
    reflexivity.
Qed.

Lemma split_path_of segments :
  forallb (fun seg => negb (contains "/" seg)) segments = true ->
  split "/" (path_of segments) = EmptyString :: segments.
Proof.
  induction segments as [|seg rest IH]; intros Hs; [reflexivity|].
  simpl in Hs. apply andb_true_iff in Hs as [Hseg Hrest].
  apply negb_true_iff in Hseg.
  change (path_of (seg :: rest)) with (String "/" (seg +:+ path_of rest)).
  cbn [split]. change (Ascii.eqb "/" "/") with true. cbv iota.
  rewrite split_clean_prefix by exact Hseg. rewrite IH by exact Hrest.
  f_equal. f_equal. apply append_empty.
Qed.

(** X24.  For a request path made of the segments [segments], each
    introduced by a slash: a request whose origin is not allowed is
    answered 403 whatever its path; otherwise empty segments (doubled or
    trailing slashes) count for nothing, the first segment that is not
    empty has to be [ws] or the answer is 404, the second one that is not
    empty is the room id, ["lobby"] when there is none, and what follows
    it is ignored. *)
Theorem upgrade_routes_by_path_segments
    (allowed : list string) (origin : option string)
    (segments : list string) (clientId : string) :
  forallb (fun seg => negb (contains "/" seg)) segments = true ->
  onUpgrade allowed origin (path_of segments) clientId
  = if negb (origin_allowed allowed origin) then Forbidden
    else
      match List.filter (fun seg => negb (String.eqb seg EmptyString)) segments with
      | first :: rest =>
          if String.eqb first "ws"
          then Accepted clientId (hd "lobby"%string rest)
          else NotFound
      | [] => NotFound
      end.
Proof.
  intros Hs. unfold onUpgrade, pathParts. rewrite split_path_of by exact Hs.
  destruct (negb (origin_allowed allowed origin)); [reflexivity|].
  cbn [List.filter]. change (String.eqb EmptyString EmptyString) with true.
  cbn [negb].
  destruct (List.filter _ segments) as [|first rest]; [reflexivity|].
  destruct (String.eqb first "ws"); [|reflexivity].
  destruct rest; reflexivity.
Qed.

Lemma upgrade_routes_by_path_segments_witness :
  onUpgrade ["*"%string] None "/ws//arena/x" "u1" = Accepted "u1" "arena"
  /\ onUpgrade ["*"%string] None "/ws/" "u1" = Accepted "u1" "lobby".
Proof.
  split.
  - exact (upgrade_routes_by_path_segments ["*"%string] None
             ["ws"; EmptyString; "arena"; "x"]%string "u1" eq_refl).
  - exact (upgrade_routes_by_path_segments ["*"%string] None
             ["ws"; EmptyString]%string "u1" eq_refl).
Defined.

(** X25.  Whatever the path of a request that the handler accepts, the
    origin was allowed, the first segment of the path that is not empty
    is [ws], the client id is the one generated for the request, and the
    room id is never empty and has no slash in it: it is ["lobby"] or a
    segment of the path. *)
Theorem room_id_is_a_clean_path_segment
    (allowed : list string) (origin : option string) (pathname : string)
    (clientId given roomId : string) :
  onUpgrade allowed origin pathname clientId = Accepted given roomId ->
  given = clientId
  /\ origin_allowed allowed origin = true
  /\ roomId <> EmptyString
  /\ contains "/" roomId = false
  /\ hd_error (pathParts pathname) = Some "ws"%string
  /\ (roomId = "lobby"%string \/ In roomId (split "/" pathname)).
Proof.
  unfold onUpgrade. destruct (origin_allowed allowed origin); cbn [negb];
    [|discriminate].
  destruct (pathParts pathname) as [|first rest] eqn:E; [discriminate|].
  destruct (String.eqb_spec first "ws") as [->|_]; cbn [negb]; [|discriminate].
  intros [= <- <-]. split; [reflexivity|]. split; [reflexivity|].
  destruct rest as [|rid rest].
  - repeat split; try discriminate; try reflexivity. left. reflexivity.
  - assert (Hin : In rid (pathParts pathname)) by (rewrite E; right; left; reflexivity).
    unfold pathParts in Hin. apply filter_In in Hin as [Hin Hne].
    split; [|split; [|split]].
    + intros ->. discriminate.
    + apply (split_parts_clean _ _ _ Hin).
    + reflexivity.
    + right. exact Hin.
Qed.

Lemma room_id_is_a_clean_path_segment_witness :
  onUpgrade ["https://game.example"%string] (Some "https://game.example"%string)
    "/ws/arena" "u1"
  = Accepted "u1" "arena"
  /\ "arena"%string <> EmptyString
  /\ contains "/" "arena" = false.
Proof.
  assert (H : onUpgrade ["https://game.example"%string]
                (Some "https://game.example"%string) "/ws/arena" "u1"
              = Accepted "u1" "arena") by reflexivity.
  destruct (room_id_is_a_clean_path_segment _ _ _ _ _ _ H)
    as (_ & _ & H1 & H2 & _).
  split; [exact H|]. split; [exact H1 | exact H2].
Defined.

End UpgradeFacts.

(** ** The health endpoints *)
Module HealthFacts.
Import Health.

Section facts.
Context {Room : Type}.
Variable playerCount : Room -> Z.
Variable messagesPerSecond : Room -> Z.

Lemma totalConnections_from acc (rooms : list (string * Room)) :
  fold_left (fun total '(_, room) => total + playerCount room) rooms acc
  = acc + totalConnections playerCount rooms.
Proof.
  unfold totalConnections. revert acc.
  induction rooms as [|[rid room] rooms IH]; intros acc; cbn [fold_left]; [lia|].
  rewrite (IH (acc + playerCount room)), (IH (0 + playerCount room)). lia.
Qed.

Lemma totalConnections_cons rid room rooms :
  totalConnections playerCount ((rid, room) :: rooms)
  = playerCount room + totalConnections playerCount rooms.
Proof. unfold totalConnections at 1. simpl. apply totalConnections_from. Qed.

Lemma totalConnections_bound (rooms : list (string * Room)) cap :
  (forall rid room, In (rid, room) rooms -> 0 <= playerCount room <= cap) ->
  0 <= totalConnections playerCount rooms <= Assoc.size rooms * cap.
Proof.
  unfold Assoc.size. induction rooms as [|[rid room] rooms IH]; intros H.
  - unfold totalConnections. simpl. lia.
  - rewrite totalConnections_cons.
    specialize (H rid room (or_introl eq_refl)) as Hr.
    assert (IH' := IH (fun rid' room' Hin => H rid' room' (or_intror Hin))).
    cbn [length]. rewrite Nat2Z.inj_succ. lia.
Qed.

End facts.

(** X26.  For a map of rooms with at most [cap] players each:
    [/health] and [/metrics] are answered with status 200 and JSON, and
    both report the same number of connections, the sum of the rooms'
    player counts, which is at most [cap] per room; [/health] reports
    the number of rooms; [/metrics] has one entry per room id, with that
    room's player count and message rate, except for a room whose id is
    [__proto__]: the entries are properties of a plain object, and
    assigning to that name creates none.  No other URL is handled (a
    query string is enough to miss), nor is a request without one. *)
Theorem health_and_metrics_agree
    {Room : Type} (playerCount messagesPerSecond : Room -> Z)
    (rooms : list (string * Room)) (startTime : Z) (proc : Process) (cap : Z) :
  NoDup (Assoc.keys rooms) ->
  (forall rid room, In (rid, room) rooms -> 0 <= playerCount room <= cap) ->
  let handle url :=
    handleHealthRequest playerCount messagesPerSecond url startTime proc rooms in
  exists health metrics per_room,
    handle (Some "/health"%string)
    = (true, Some {| status := 200; contentType := "application/json";
                     body := health |})
    /\ handle (Some "/metrics"%string)
       = (true, Some {| status := 200; contentType := "application/json";
                        body := metrics |})
    /\ Js.get "rooms" health = Some (JNum (Assoc.size rooms))
    /\ Js.get "connections" health
       = Some (JNum (totalConnections playerCount rooms))
    /\ Js.get "totalConnections" metrics
       = Some (JNum (totalConnections playerCount rooms))
    /\ 0 <= totalConnections playerCount rooms <= Assoc.size rooms * cap
    /\ Js.get "rooms" metrics = Some (JObj per_room)
    /\ (forall rid,
          Assoc.get rid per_room
          = if String.eqb rid "__proto__" then None
            else option_map (room_entry playerCount messagesPerSecond)
                   (Assoc.get rid rooms))
    /\ handle None = (false, None)
    /\ (forall u, u <> "/health"%string -> u <> "/metrics"%string ->
                  handle (Some u) = (false, None)).
Proof.
  intros Hnd Hcap handle. eexists _, _, (roomMetrics playerCount messagesPerSecond rooms).
  split; [reflexivity|]. split; [reflexivity|].
  split; [reflexivity|]. split; [reflexivity|]. split; [reflexivity|].
  split; [apply totalConnections_bound; exact Hcap|].
  split; [reflexivity|]. split; [|split].
  - intros rid. unfold roomMetrics.
    rewrite (JsFacts.get_fold_assign (room_entry playerCount messagesPerSecond))
      by exact Hnd.
    destruct (String.eqb rid "__proto__"); [reflexivity|].
    destruct (Assoc.get rid rooms); reflexivity.
  - reflexivity.
  - intros u H1 H2. unfold handle, handleHealthRequest.
    destruct (String.eqb_spec u "/health"); [contradiction|].
    destruct (String.eqb_spec u "/metrics"); [contradiction|]. reflexivity.
Qed.

Lemma health_and_metrics_agree_witness :
  exists health,
    handleHealthRequest Auth.playerCount Auth.messagesPerSecond
      (Some "/health"%string) 0 Scenario.process_at_9500
      [("arena"%string, Scenario.arena_full); ("lobby"%string, Scenario.arena_one)]
    = (true, Some {| status := 200; contentType := "application/json";
                     body := health |})
    /\ Js.get "connections" health = Some (JNum 3)
    /\ Js.get "uptime" health = Some (JNum 9).
Proof.
  destruct (health_and_metrics_agree Auth.playerCount Auth.messagesPerSecond
              [("arena"%string, Scenario.arena_full);
               ("lobby"%string, Scenario.arena_one)]
              0 Scenario.process_at_9500 4)
    as (health & metrics & per_room & Hh & _ & _ & Hc & _).
  - apply NoDup_cons_2;
      [apply not_elem_of_cons; split; [discriminate | apply not_elem_of_nil]|].
    apply NoDup_cons_2; [apply not_elem_of_nil | apply NoDup_nil_2].
  - intros rid room [H|[H|[]]]; injection H as <- <-; vm_compute;
      split; discriminate.
  - exists health. split; [exact Hh|]. split; [exact Hc|].
    injection Hh as <-. reflexivity.
Defined.

(** X27.  Whatever requests have reached an authoritative server with a
    capacity of at least 0, the connections that [/health] counts over
    its registry (a sum, so the order of the rooms does not matter) are
    at most the number of rooms times the capacity. *)
Theorem health_of_a_running_server
    (decode : list Z -> option jsval) (cfg : Auth.Config)
    (reqs : list Auth.Request) :
  0 <= Auth.MAX_PLAYERS_PER_ROOM cfg ->
  let rooms :=
    map_to_list (Auth.rooms (Auth.serve_all decode cfg reqs (Auth.start cfg))) in
  NoDup (Assoc.keys rooms)
  /\ 0 <= totalConnections Auth.playerCount rooms
     <= Assoc.size rooms * Auth.MAX_PLAYERS_PER_ROOM cfg.
Proof.
  intros Hcap rooms. split.
  - apply NoDup_fst_map_to_list.
  - apply totalConnections_bound. intros rid room Hin.
    apply list_elem_of_In, elem_of_map_to_list in Hin.
    destruct (AuthServerFacts.serve_all_in_bounds decode cfg reqs (Auth.start cfg) Hcap)
      with (rid := rid) (room := room) as (_ & _ & Hb).
    + intros rid' room' H. cbn in H. rewrite lookup_empty in H. discriminate.
    + exact Hin.
    + split; [|exact Hb]. unfold Auth.playerCount, Assoc.size. lia.
Qed.

Lemma health_of_a_running_server_witness :
  totalConnections Auth.playerCount
    (map_to_list (Auth.rooms Scenario.auth_server))
  <= Assoc.size (map_to_list (Auth.rooms Scenario.auth_server)) * 1.
Proof.
  destruct (health_of_a_running_server MsgPack.decode Scenario.auth_config
              Scenario.auth_requests) as [_ [_ H]]; [simpl; lia | exact H].
Defined.

End HealthFacts.

(** ** The keep-alive timer *)
Module KeepAliveFacts.
Import KeepAlive.

(** From a flag that is down, the next firing terminates unless a pong
    comes first; from any flag, two firings in a row terminate. *)
Lemma terminate_iff inputs isAlive :
  In Terminate (run inputs isAlive) <->
  (isAlive = false /\ exists rest, inputs = Timer :: rest)
  \/ exists before rest, inputs = before ++ Timer :: Timer :: rest.
Proof.
  revert isAlive. induction inputs as [|i inputs IH]; intros isAlive.
  - simpl. split; [intros [] | intros [[_ [rest H]]|(before & rest & H)]].
    + discriminate.
    + destruct before; discriminate.
  - destruct i.
    + change (run (Pong :: inputs) isAlive) with (run inputs true).
      rewrite IH. split.
      * intros [[H _]|(before & rest & ->)]; [discriminate|].
        right. exists (Pong :: before), rest. reflexivity.
      * intros [[_ [rest H]]|(before & rest & H)]; [discriminate|].
        destruct before as [|b before]; [discriminate|].
        injection H as _ ->. right. eauto.
    + destruct isAlive.
      * change (run (Timer :: inputs) true) with (Ping :: run inputs false).
        split.
        -- intros [H|H]; [discriminate|]. apply IH in H.
           destruct H as [[_ [rest ->]]|(before & rest & ->)].
           ++ right. exists [], rest. reflexivity.
           ++ right. exists (Timer :: before), rest. reflexivity.
        -- intros [[H _]|(before & rest & H)]; [discriminate|].
           right. apply IH. destruct before as [|b before].
           ++ injection H as ->. left. eauto.
           ++ injection H as _ ->. right. eauto.
      * change (run (Timer :: inputs) false) with (Terminate :: run inputs false).
        split; [|intros _; left; reflexivity].
        intros _. left. eauto.
Qed.

(** X28.  Over any run of pongs and timer firings on a connection, the
    callback makes one call on the socket per firing, a ping or
    [terminate]; and it terminates the connection exactly when the timer
    fires twice with no pong in between: a peer that answers every ping
    before the next firing is never terminated, a silent one is
    terminated at the second firing. *)
Theorem silent_peer_is_terminated (inputs : list Input) :
  (In Terminate (run inputs initial) <->
   exists before rest, inputs = before ++ Timer :: Timer :: rest)
  /\ length (run inputs initial)
     = length (List.filter (fun i => match i with
                                     | Timer => true
                                     | Pong => false
                                     end) inputs).
Proof.
  split.
  - rewrite terminate_iff. unfold initial. split.
    + intros [[H _]|H]; [discriminate | exact H].
    + intros H. right. exact H.
  - generalize initial. induction inputs as [|[|] inputs IH]; intros b.
    + reflexivity.
    + apply IH.
    + simpl. destruct b; simpl; rewrite IH; reflexivity.
Qed.

End KeepAliveFacts.
